(** * kraken.lib.morph: add-ons to the SciPy morphology package

    A shallow embedding of [kraken/lib/morph.py] and the properties its
    specification states about it.

    Arrays are NumPy arrays of integers: a dtype, a shape and the row-major
    buffer of values.  Fixed-width integer arithmetic wraps around as NumPy's
    does.  Python exceptions are the [Raise] branch of a small error monad.
    The SciPy routines the module delegates to (labelling, bounding boxes,
    distance transform) are parameters of the sections that use them; the
    separable rectangular filters are modelled after their documented
    behaviour, since the dilation and erosion claims depend on it. *)

From Stdlib Require Import String Ascii ZArith QArith Lqa Bool Lia List Sorted.
Import ListNotations.
Local Open Scope Z_scope.

Set Implicit Arguments.
Set Warnings "-abstract-large-number".

(** ** Exceptions and results *)

Inductive exn : Type :=
| AssertionError
| TypeError
| ValueError
| RuntimeError
| IndexError.

Inductive result (A : Type) : Type :=
| Ok (a : A)
| Raise (e : exn).

Arguments Ok {A} a.
Arguments Raise {A} e.

Definition bind {A B : Type} (c : result A) (k : A -> result B) : result B :=
  match c with
  | Ok a => k a
  | Raise e => Raise e
  end.

Notation "x <- c ;; k" := (bind c (fun x => k))
  (at level 61, c at next level, right associativity).
Notation "c ;;; k" := (bind c (fun _ => k))
  (at level 61, right associativity).

Definition is_ok {A : Type} (c : result A) : bool :=
  match c with Ok _ => true | Raise _ => false end.

(** [assert cond] of Python. *)
Definition py_assert (cond : bool) : result unit :=
  if cond then Ok tt else Raise AssertionError.

(** ** dtypes *)

Inductive dtype : Type :=
| bool_ | uint8 | int8 | int16 | uint16 | int32 | uint32 | int64 | uint64
| float64.

Definition dtype_eqb (a b : dtype) : bool :=
  match a, b with
  | bool_, bool_ | uint8, uint8 | int8, int8 | int16, int16
  | uint16, uint16 | int32, int32 | uint32, uint32 | int64, int64
  | uint64, uint64 | float64, float64 => true
  | _, _ => false
  end.

(** [np.dtype(name)]: the dtype a string denotes; [None] is
    "data type not understood" (a TypeError).  ['B'] is the type code of
    unsigned char and ['i'] that of C int. *)
Definition np_dtype (name : string) : option dtype :=
  if String.eqb name "bool"%string then Some bool_
  else if String.eqb name "uint8"%string then Some uint8
  else if String.eqb name "B"%string then Some uint8
  else if String.eqb name "int8"%string then Some int8
  else if String.eqb name "int16"%string then Some int16
  else if String.eqb name "uint16"%string then Some uint16
  else if String.eqb name "int32"%string then Some int32
  else if String.eqb name "i"%string then Some int32
  else if String.eqb name "uint32"%string then Some uint32
  else if String.eqb name "int64"%string then Some int64
  else if String.eqb name "uint64"%string then Some uint64
  else if String.eqb name "float64"%string then Some float64
  else None.

(** Two's complement wrap-around to [w] bits. *)
Definition wrap_unsigned (w : Z) (v : Z) : Z := v mod 2 ^ w.
Definition wrap_signed (w : Z) (v : Z) : Z :=
  (v + 2 ^ (w - 1)) mod 2 ^ w - 2 ^ (w - 1).

(** An integer stored in a double: exact up to 2^53, rounded to 53
    significant bits (ties to even) beyond. *)
Definition round53 (v : Z) : Z :=
  let a := Z.abs v in
  if a <? 2 ^ 53 then v
  else
    let u := 2 ^ (Z.log2 a - 52) in
    let q := a / u in
    let r := a mod u in
    let q' := if 2 * r <? u then q
              else if u <? 2 * r then q + 1
              else if Z.even q then q else q + 1 in
    Z.sgn v * (q' * u).

(** The value [v] converted to dtype [dt]. *)
Definition cast (dt : dtype) (v : Z) : Z :=
  match dt with
  | bool_ => if v =? 0 then 0 else 1
  | uint8 => wrap_unsigned 8 v
  | int8 => wrap_signed 8 v
  | int16 => wrap_signed 16 v
  | uint16 => wrap_unsigned 16 v
  | int32 => wrap_signed 32 v
  | uint32 => wrap_unsigned 32 v
  | int64 => wrap_signed 64 v
  | uint64 => wrap_unsigned 64 v
  | float64 => round53 v
  end.

(** The values dtype [dt] represents exactly. *)
Definition dtype_min (dt : dtype) : Z :=
  match dt with
  | bool_ | uint8 | uint16 | uint32 | uint64 => 0
  | int8 => - 2 ^ 7
  | int16 => - 2 ^ 15
  | int32 => - 2 ^ 31
  | int64 => - 2 ^ 63
  | float64 => - 2 ^ 53
  end.

Definition dtype_max (dt : dtype) : Z :=
  match dt with
  | bool_ => 1
  | uint8 => 2 ^ 8 - 1
  | int8 => 2 ^ 7 - 1
  | int16 => 2 ^ 15 - 1
  | uint16 => 2 ^ 16 - 1
  | int32 => 2 ^ 31 - 1
  | uint32 => 2 ^ 32 - 1
  | int64 => 2 ^ 63 - 1
  | uint64 => 2 ^ 64 - 1
  | float64 => 2 ^ 53
  end.

Definition fits (dt : dtype) (v : Z) : Prop :=
  dtype_min dt <= v <= dtype_max dt.

Definition fitsb (dt : dtype) (v : Z) : bool :=
  (dtype_min dt <=? v) && (v <=? dtype_max dt).

(** ** Arrays *)

Record ndarray : Type := mk_ndarray {
  a_dtype : dtype;
  shape : list nat;
  data : list Z
}.

(** Number of elements a shape holds. *)
Definition size_of (sh : list nat) : nat := fold_right Nat.mul 1%nat sh.

Definition well_formed (a : ndarray) : Prop :=
  length (data a) = size_of (shape a).

(** [np.array(image, dtype=t)] on an array: a converted copy. *)
Definition astype (dt : dtype) (a : ndarray) : ndarray :=
  {| a_dtype := dt; shape := shape a; data := map (cast dt) (data a) |}.

Definition np_array (image : ndarray) (t : string) : result ndarray :=
  match np_dtype t with
  | Some dt => Ok (astype dt image)
  | None => Raise TypeError
  end.

(** ** [label] and [find_objects]: the retrying wrappers *)

(** A slice [start:stop]; [find_objects] yields one tuple of slices per
    label, or [None] for a label that does not occur. *)
Definition slice : Type := (Z * Z)%type.
Definition object : Type := option (list slice).

Section Wrappers.

(** Keyword arguments are passed through untouched. *)
Variable kwargs : Type.

(** [scipy.ndimage.measurements.label] and [find_objects]. *)
Variable measurements_label : ndarray -> kwargs -> result (ndarray * Z).
Variable measurements_find_objects : ndarray -> kwargs -> result (list object).

(** The dtype names both wrappers go through, as written in the source. *)
Definition types : list string :=
  ["int32"; "uint32"; "int64"; "unit64"; "int16"; "uint16"]%string.

(** The [for t in types: try: return ... except: pass] loop; [None] when
    the loop falls through. *)
Fixpoint retry {R : Type} (routine : ndarray -> kwargs -> result R)
         (ts : list string) (image : ndarray) (kw : kwargs) : option R :=
  match ts with
  | [] => None
  | t :: ts' =>
      match (a <- np_array image t ;; routine a kw) with
      | Ok r => Some r
      | Raise _ => retry routine ts' image kw
      end
  end.

Definition label (image : ndarray) (kw : kwargs) : result (ndarray * Z) :=
  match measurements_label image kw with
  | Ok r => Ok r
  | Raise _ =>
      match retry measurements_label types image kw with
      | Some r => Ok r
      | None => measurements_label image kw
      end
  end.

Definition find_objects (image : ndarray) (kw : kwargs) : result (list object) :=
  match measurements_find_objects image kw with
  | Ok r => Ok r
  | Raise _ =>
      match retry measurements_find_objects types image kw with
      | Some r => Ok r
      | None => measurements_find_objects image kw
      end
  end.

(** The wrappers as the specification words them: the alternate dtypes are
    int32, uint32, int64, uint64, int16 and uint16. *)
Definition types_specified : list string :=
  ["int32"; "uint32"; "int64"; "uint64"; "int16"; "uint16"]%string.

Definition label_specified (image : ndarray) (kw : kwargs)
  : result (ndarray * Z) :=
  match measurements_label image kw with
  | Ok r => Ok r
  | Raise _ =>
      match retry measurements_label types_specified image kw with
      | Some r => Ok r
      | None => measurements_label image kw
      end
  end.

Definition find_objects_specified (image : ndarray) (kw : kwargs)
  : result (list object) :=
  match measurements_find_objects image kw with
  | Ok r => Ok r
  | Raise _ =>
      match retry measurements_find_objects types_specified image kw with
      | Some r => Ok r
      | None => measurements_find_objects image kw
      end
  end.

End Wrappers.

(** ** NumPy helpers *)

Definition list_min (x : Z) (xs : list Z) : Z := fold_right Z.min x xs.
Definition list_max (x : Z) (xs : list Z) : Z := fold_right Z.max x xs.

(** [np.amin] and [np.amax]; an empty array has no minimum (ValueError). *)
Definition np_amin (a : ndarray) : result Z :=
  match data a with
  | [] => Raise ValueError
  | x :: xs => Ok (list_min x xs)
  end.

Definition np_amax (a : ndarray) : result Z :=
  match data a with
  | [] => Raise ValueError
  | x :: xs => Ok (list_max x xs)
  end.

(** [np.zeros(n, 'i')]. *)
Definition np_zeros (n : Z) : result ndarray :=
  if n <? 0 then Raise ValueError
  else Ok {| a_dtype := int32; shape := [Z.to_nat n];
             data := repeat 0 (Z.to_nat n) |}.

(** Type promotion.  Integer dtypes are ordered by kind and width; an
    unsigned type meeting a signed one of no greater width needs the next
    signed width, and past 64 bits NumPy falls back to float64. *)
Inductive kind : Type := KBool | KUnsigned | KSigned | KFloat.

Definition kind_of (dt : dtype) : kind :=
  match dt with
  | bool_ => KBool
  | uint8 | uint16 | uint32 | uint64 => KUnsigned
  | int8 | int16 | int32 | int64 => KSigned
  | float64 => KFloat
  end.

Definition bits_of (dt : dtype) : Z :=
  match dt with
  | bool_ | uint8 | int8 => 8
  | int16 | uint16 => 16
  | int32 | uint32 => 32
  | int64 | uint64 | float64 => 64
  end.

Definition unsigned_of (w : Z) : dtype :=
  if w <=? 8 then uint8 else if w <=? 16 then uint16
  else if w <=? 32 then uint32 else uint64.

Definition signed_of (w : Z) : dtype :=
  if w <=? 8 then int8 else if w <=? 16 then int16
  else if w <=? 32 then int32 else int64.

Definition promote_mixed (u s : Z) : dtype :=
  if u <? s then signed_of s
  else if u <? 64 then signed_of (2 * u)
  else float64.

Definition promote_types (a b : dtype) : dtype :=
  match kind_of a, kind_of b with
  | KFloat, _ | _, KFloat => float64
  | KBool, _ => b
  | _, KBool => a
  | KUnsigned, KUnsigned => unsigned_of (Z.max (bits_of a) (bits_of b))
  | KSigned, KSigned => signed_of (Z.max (bits_of a) (bits_of b))
  | KUnsigned, KSigned => promote_mixed (bits_of a) (bits_of b)
  | KSigned, KUnsigned => promote_mixed (bits_of b) (bits_of a)
  end.

(** The smallest dtype of each kind that holds a Python integer. *)
Definition min_unsigned (v : Z) : dtype :=
  if v <? 2 ^ 8 then uint8 else if v <? 2 ^ 16 then uint16
  else if v <? 2 ^ 32 then uint32 else uint64.

Definition min_signed (v : Z) : dtype :=
  if (- 2 ^ 7 <=? v) && (v <? 2 ^ 7) then int8
  else if (- 2 ^ 15 <=? v) && (v <? 2 ^ 15) then int16
  else if (- 2 ^ 31 <=? v) && (v <? 2 ^ 31) then int32
  else int64.

(** The dtype of [array op python_int] (NumPy 1.x value-based casting): the
    array's dtype, widened within its kind when the integer does not fit;
    a Boolean array takes the default integer type. *)
Definition result_type_pyint (dt : dtype) (v : Z) : dtype :=
  match kind_of dt with
  | KBool => int64
  | KFloat => float64
  | KSigned => promote_types dt (min_signed v)
  | KUnsigned =>
      if 0 <=? v then promote_types dt (min_unsigned v)
      else promote_types dt (min_signed v)
  end.

Definition list_eqb_nat (a b : list nat) : bool :=
  if list_eq_dec Nat.eq_dec a b then true else false.

(** [a * v], [a // v] and [a % v] for a Python integer [v]. *)
Definition np_mul_int (a : ndarray) (v : Z) : ndarray :=
  let dt := result_type_pyint (a_dtype a) v in
  {| a_dtype := dt; shape := shape a;
     data := map (fun x => cast dt (x * v)) (data a) |}.

Definition np_floordiv_int (a : ndarray) (v : Z) : ndarray :=
  let dt := result_type_pyint (a_dtype a) v in
  {| a_dtype := dt; shape := shape a;
     data := map (fun x => cast dt (x / v)) (data a) |}.

Definition np_mod_int (a : ndarray) (v : Z) : ndarray :=
  let dt := result_type_pyint (a_dtype a) v in
  {| a_dtype := dt; shape := shape a;
     data := map (fun x => cast dt (if v =? 0 then 0 else x mod v)) (data a) |}.

(** [a + b] for arrays of one shape (broadcasting between different shapes
    is not modelled: they raise, as incompatible shapes do). *)
Definition np_add (a b : ndarray) : result ndarray :=
  if list_eqb_nat (shape a) (shape b) then
    let dt := promote_types (a_dtype a) (a_dtype b) in
    Ok {| a_dtype := dt; shape := shape a;
          data := map (fun p => cast dt (fst p + snd p))
                      (combine (data a) (data b)) |}
  else Raise ValueError.

(** [np.unique]: the sorted distinct elements, as a one-dimensional array. *)
Fixpoint insert_unique (x : Z) (l : list Z) : list Z :=
  match l with
  | [] => [x]
  | y :: l' =>
      if x <? y then x :: l
      else if x =? y then l
      else y :: insert_unique x l'
  end.

Definition sort_unique (l : list Z) : list Z := fold_right insert_unique [] l.

Definition np_unique (a : ndarray) : ndarray :=
  let u := sort_unique (data a) in
  {| a_dtype := a_dtype a; shape := [length u]; data := u |}.

(** [np.array([r0, r1])] of two one-dimensional arrays of one length. *)
Definition np_stack2 (r0 r1 : ndarray) : ndarray :=
  {| a_dtype := promote_types (a_dtype r0) (a_dtype r1);
     shape := [2%nat; length (data r0)];
     data := data r0 ++ data r1 |}.

(** The rows of [a.T] for a two-row array [a]: its columns, as pairs. *)
Definition columns (a : ndarray) : list (Z * Z) :=
  let k := nth 1 (shape a) 0%nat in
  combine (firstn k (data a)) (skipn k (data a)).

(** Index normalisation: [-n <= i < n] counts from the end when negative. *)
Definition norm_index (n : nat) (i : Z) : result nat :=
  if (0 <=? i) && (i <? Z.of_nat n) then Ok (Z.to_nat i)
  else if (- Z.of_nat n <=? i) && (i <? 0) then Ok (Z.to_nat (Z.of_nat n + i))
  else Raise IndexError.

Fixpoint list_set (l : list Z) (i : nat) (v : Z) : list Z :=
  match l, i with
  | [], _ => []
  | _ :: l', O => v :: l'
  | x :: l', S i' => x :: list_set l' i' v
  end.

(** [a[i] = v] on a one-dimensional array; the value is converted to the
    array's dtype. *)
Definition setitem (a : ndarray) (i : Z) (v : Z) : result ndarray :=
  k <- norm_index (length (data a)) i ;;
  Ok {| a_dtype := a_dtype a; shape := shape a;
        data := list_set (data a) k (cast (a_dtype a) v) |}.

Definition getitem (a : ndarray) (i : Z) : result Z :=
  k <- norm_index (length (data a)) i ;;
  Ok (nth k (data a) 0).

(** [a[a == x] = v]. *)
Definition set_where_eq (a : ndarray) (x v : Z) : ndarray :=
  {| a_dtype := a_dtype a; shape := shape a;
     data := map (fun y => if y =? x then cast (a_dtype a) v else y) (data a) |}.

Fixpoint map_result {A B : Type} (f : A -> result B) (l : list A)
  : result (list B) :=
  match l with
  | [] => Ok []
  | x :: l' => y <- f x ;; ys <- map_result f l' ;; Ok (y :: ys)
  end.

(** [a[idx]] for a one-dimensional [a] and an integer array [idx]: the
    result has the shape of [idx] and the dtype of [a]. *)
Definition take (a idx : ndarray) : result ndarray :=
  vs <- map_result (getitem a) (data idx) ;;
  Ok {| a_dtype := a_dtype a; shape := shape idx; data := vs |}.

(** ** Binary check *)

Definition check_binary (image : ndarray) : result unit :=
  py_assert (dtype_eqb (a_dtype image) uint8
             || dtype_eqb (a_dtype image) int32
             || dtype_eqb (a_dtype image) bool_) ;;;
  lo <- np_amin image ;;
  if 0 <=? lo then
    hi <- np_amax image ;;
    py_assert (hi <=? 1)
  else Raise AssertionError.

(** ** Separable rectangular filters of [scipy.ndimage.filters]

    [maximum_filter], [minimum_filter] and [uniform_filter] with a [size]
    (no footprint) run a one-dimensional filter along every axis whose size
    exceeds 1, in axis order, each pass reading the output of the previous
    one.  Along an axis of length [len] the window of output position [c]
    covers the input positions [c - (size/2 + origin) + j] for
    [0 <= j < size]; positions outside the line are supplied by the boundary
    mode. *)

(** A scalar or a sequence with one entry per axis. *)
Inductive int_or_seq : Type :=
| Scalar (v : Z)
| Seq (vs : list Z).

Definition normalize_sequence (x : int_or_seq) (rank : nat) : result (list Z) :=
  match x with
  | Scalar v => Ok (repeat v rank)
  | Seq vs => if Nat.eqb (length vs) rank then Ok vs else Raise RuntimeError
  end.

(** Length and stride (in elements of the row-major buffer) of every axis. *)
Fixpoint axes_of (sh : list nat) : list (Z * Z) :=
  match sh with
  | [] => []
  | n :: rest => (Z.of_nat n, Z.of_nat (size_of rest)) :: axes_of rest
  end.

(** Mode [reflect]: the line [a b c d] continues as
    [d c b a | a b c d | d c b a]. *)
Definition reflect_index (len t : Z) : Z :=
  let m := t mod (2 * len) in
  if m <? len then m else 2 * len - 1 - m.

Section Filter1D.

Variable V : Type.
Variable dflt : V.

Inductive mode : Type :=
| Reflect
| Constant (cval : V).

(** The value at position [t] of the line through buffer index [idx],
    whose own position on the line is [c]. *)
Definition line_get (md : mode) (len stride : Z) (buf : list V)
           (idx c t : Z) : V :=
  match md with
  | Reflect =>
      nth (Z.to_nat (idx + (reflect_index len t - c) * stride)) buf dflt
  | Constant cval =>
      if (0 <=? t) && (t <? len)
      then nth (Z.to_nat (idx + (t - c) * stride)) buf dflt
      else cval
  end.

Definition window (md : mode) (size origin len stride : Z) (buf : list V)
           (idx : Z) : list V :=
  let c := (idx / stride) mod len in
  map (fun j => line_get md len stride buf idx c
                  (c - (size / 2 + origin) + Z.of_nat j))
      (seq 0 (Z.to_nat size)).

Definition filter1d (combine : Z -> list V -> V) (md : mode)
           (size origin len stride : Z) (buf : list V) : list V :=
  map (fun i => combine size (window md size origin len stride buf (Z.of_nat i)))
      (seq 0 (length buf)).

(** The passes over the axes; an axis of size at most 1 is skipped, and an
    origin that puts the centre outside the window is a ValueError. *)
Fixpoint apply_axes (combine : Z -> list V -> V) (md : mode)
         (axes : list (Z * Z)) (sizes origins : list Z) (buf : list V)
  : result (list V) :=
  match axes, sizes, origins with
  | (len, stride) :: axes', s :: sizes', o :: origins' =>
      if 1 <? s then
        if (s / 2 + o <? 0) || (s <=? s / 2 + o) then Raise ValueError
        else apply_axes combine md axes' sizes' origins'
                        (filter1d combine md s o len stride buf)
      else apply_axes combine md axes' sizes' origins' buf
  | _, _, _ => Ok buf
  end.

Definition separable_filter (combine : Z -> list V -> V) (md : mode)
           (sh : list nat) (size origin : int_or_seq) (buf : list V)
  : result (list V) :=
  origins <- normalize_sequence origin (length sh) ;;
  sizes <- normalize_sequence size (length sh) ;;
  apply_axes combine md (axes_of sh) sizes origins buf.

End Filter1D.

Arguments Reflect {V}.
Arguments Constant {V} cval.

Definition window_max (_ : Z) (w : list Z) : Z :=
  match w with [] => 0 | x :: xs => list_max x xs end.

Definition window_min (_ : Z) (w : list Z) : Z :=
  match w with [] => 0 | x :: xs => list_min x xs end.

(** The window mean is taken in exact rational arithmetic (SciPy computes
    it in floating point). *)
Definition window_mean (size : Z) (w : list Q) : Q :=
  (fold_right Qplus (0#1) w / inject_Z size)%Q.

(** [filters.maximum_filter(image, size, origin=origin)] and
    [filters.minimum_filter(...)]: boundary mode [reflect]. *)
Definition maximum_filter (image : ndarray) (size origin : int_or_seq)
  : result ndarray :=
  buf <- separable_filter 0 window_max Reflect (shape image) size origin
                          (data image) ;;
  Ok {| a_dtype := a_dtype image; shape := shape image; data := buf |}.

Definition minimum_filter (image : ndarray) (size origin : int_or_seq)
  : result ndarray :=
  buf <- separable_filter 0 window_min Reflect (shape image) size origin
                          (data image) ;;
  Ok {| a_dtype := a_dtype image; shape := shape image; data := buf |}.

(** [filters.uniform_filter(image, size, output=output, origin=origin,
    mode='constant', cval=cval)]: the contents of [output] afterwards. *)
Definition uniform_filter (image : ndarray) (size origin : int_or_seq)
           (cval : Q) : result (list Q) :=
  separable_filter (0#1)%Q window_mean (Constant cval) (shape image) size origin
                   (map inject_Z (data image)).

(** ** Dilation, erosion, opening, closing *)

Definition r_dilation (image : ndarray) (size origin : int_or_seq)
  : result ndarray :=
  maximum_filter image size origin.

Definition r_erosion (image : ndarray) (size origin : int_or_seq)
  : result ndarray :=
  minimum_filter image size origin.

Definition r_opening (image : ndarray) (size origin : int_or_seq)
  : result ndarray :=
  check_binary image ;;;
  image' <- r_erosion image size origin ;;
  r_dilation image' size origin.

Definition r_closing (image : ndarray) (size origin : int_or_seq)
  : result ndarray :=
  check_binary image ;;;
  image' <- r_dilation image size (Scalar 0) ;;
  r_erosion image' size (Scalar 0).

Definition Q_positive (x : Q) : bool := 0 <? Qnum x.
Definition Q_is_one (x : Q) : bool := Qeq_bool x (1#1).

(** [np.array(output > 0, 'i')] and [np.array(output == 1, 'i')], with the
    shape of [output = np.zeros(image.shape, 'f')]. *)
Definition rb_dilation (image : ndarray) (size origin : int_or_seq)
  : result ndarray :=
  output <- uniform_filter image size origin (0#1)%Q ;;
  Ok {| a_dtype := int32; shape := shape image;
        data := map (fun x => if Q_positive x then 1 else 0) output |}.

Definition rb_erosion (image : ndarray) (size origin : int_or_seq)
  : result ndarray :=
  output <- uniform_filter image size origin (1#1)%Q ;;
  Ok {| a_dtype := int32; shape := shape image;
        data := map (fun x => if Q_is_one x then 1 else 0) output |}.

Definition rb_opening (image : ndarray) (size origin : int_or_seq)
  : result ndarray :=
  image' <- rb_erosion image size origin ;;
  rb_dilation image' size origin.

Definition rb_closing (image : ndarray) (size origin : int_or_seq)
  : result ndarray :=
  image' <- rb_dilation image size origin ;;
  rb_erosion image' size origin.

Definition rg_dilation (image : ndarray) (size origin : int_or_seq)
  : result ndarray :=
  maximum_filter image size origin.

Definition rg_erosion (image : ndarray) (size origin : int_or_seq)
  : result ndarray :=
  minimum_filter image size origin.

Definition rg_opening (image : ndarray) (size origin : int_or_seq)
  : result ndarray :=
  image' <- r_erosion image size origin ;;
  r_dilation image' size origin.

Definition rg_closing (image : ndarray) (size origin : int_or_seq)
  : result ndarray :=
  image' <- r_dilation image size (Scalar 0) ;;
  r_erosion image' size (Scalar 0).

(** ** Label correspondences and region selection *)

(** A [for] loop whose body may raise. *)
Fixpoint for_loop {S A : Type} (body : S -> A -> result S) (l : list A) (s : S)
  : result S :=
  match l with
  | [] => Ok s
  | x :: l' => s' <- body s x ;; for_loop body l' s'
  end.

Definition q : Z := 100000.

Definition correspondences (labels1 labels2 : ndarray) : result ndarray :=
  lo1 <- np_amin labels1 ;;
  (if 0 <=? lo1 then lo2 <- np_amin labels2 ;; py_assert (0 <=? lo2)
   else Raise AssertionError) ;;;
  hi2 <- np_amax labels2 ;;
  py_assert (hi2 <? q) ;;;
  combo <- np_add (np_mul_int labels1 q) labels2 ;;
  let result := np_unique combo in
  Ok (np_stack2 (np_floordiv_int result q) (np_mod_int result q)).

(** [np.argsort(scores)]: the indices that sort [scores] in ascending order
    (ties in index order). *)
Fixpoint insert_by_score (x : Z * Z) (l : list (Z * Z)) : list (Z * Z) :=
  match l with
  | [] => [x]
  | y :: l' => if fst x <? fst y then x :: l else y :: insert_by_score x l'
  end.

Definition np_argsort (scores : list Z) : list Z :=
  map snd (fold_left (fun acc x => insert_by_score x acc)
                     (combine scores (map Z.of_nat (seq 0 (length scores))))
                     []).

(** [l[k:]] of Python. *)
Definition py_slice_from {A : Type} (k : Z) (l : list A) : list A :=
  let n := Z.of_nat (length l) in
  let start := if k <? 0 then Z.max (n + k) 0 else Z.min k n in
  skipn (Z.to_nat start) l.

Definition oops : Z := - Z.shiftl 1 30.

Section Regions.

Variable kwargs : Type.
(** The call without keyword arguments. *)
Variable no_kw : kwargs.
Variable measurements_label : ndarray -> kwargs -> result (ndarray * Z).
Variable measurements_find_objects : ndarray -> kwargs -> result (list object).

Definition propagate_labels_simple (regions labels : ndarray)
  : result ndarray :=
  lab <- label measurements_label regions no_kw ;;
  let rlabels := fst lab in
  cors <- correspondences rlabels labels ;;
  hi <- np_amax rlabels ;;
  outputs <- np_zeros (hi + 1) ;;
  outputs <- for_loop (fun outputs oi => setitem outputs (fst oi) (snd oi))
                      (columns cors) outputs ;;
  outputs <- setitem outputs 0 0 ;;
  take outputs rlabels.

Definition propagate_labels (image labels : ndarray) (conflict : Z)
  : result ndarray :=
  lab <- label measurements_label image no_kw ;;
  let rlabels := fst lab in
  cors <- correspondences rlabels labels ;;
  hi <- np_amax rlabels ;;
  outputs <- np_zeros (hi + 1) ;;
  outputs <- for_loop
               (fun outputs oi =>
                  cur <- getitem outputs (fst oi) ;;
                  if negb (cur =? 0) then setitem outputs (fst oi) oops
                  else setitem outputs (fst oi) (snd oi))
               (columns cors) outputs ;;
  let outputs := set_where_eq outputs oops conflict in
  outputs <- setitem outputs 0 0 ;;
  take outputs rlabels.

Definition select_regions (binary : ndarray) (f : object -> Z)
           (min nbest : Z) : result ndarray :=
  lab <- label measurements_label binary no_kw ;;
  let labels := fst lab in
  objects <- find_objects measurements_find_objects labels no_kw ;;
  let scores := map f objects in
  let best := np_argsort scores in
  keep <- np_zeros (Z.of_nat (length objects) + 1) ;;
  keep <- for_loop
            (fun keep i =>
               if nth (Z.to_nat i) scores 0 <=? min then Ok keep
               else setitem keep (i + 1) 1)
            (py_slice_from (- nbest) best) keep ;;
  take keep labels.

End Regions.

(** ** Spreading labels *)

(** [sqrt d2 < maxdist] for the squared distance [d2]. *)
Definition dist_lt (d2 : Z) (maxdist : Q) : bool :=
  Q_positive maxdist && negb (Qle_bool (maxdist * maxdist) (inject_Z d2)).

Definition nth_result {A : Type} (l : list A) (i : nat) : result A :=
  match nth_error l i with
  | Some x => Ok x
  | None => Raise IndexError
  end.

Section Spread.

(** [morphology.distance_transform_edt(mask, return_distances=1,
    return_indices=1)]: for every element the distance to the nearest
    zero of [mask], given by its square (the distance itself is the square
    root), and the index of that zero, one array of coordinates per
    axis.  The coordinates are taken as exact integers: SciPy returns them
    as 32-bit integers, which hold every buffer position of an array of
    fewer than 2^31 elements. *)
Variable distance_transform_edt : ndarray -> result (list Z * list (list Z)).

(** [labels == 0]. *)
Definition eq_zero (labels : ndarray) : ndarray :=
  {| a_dtype := bool_; shape := shape labels;
     data := map (fun v => if v =? 0 then 1 else 0) (data labels) |}.

Definition spread_labels (labels : ndarray) (maxdist : Q) : result ndarray :=
  dt <- distance_transform_edt (eq_zero labels) ;;
  let distances := fst dt in
  let features := snd dt in
  f0 <- nth_result features 0 ;;
  w <- nth_result (shape labels) 1 ;;
  f1 <- nth_result features 1 ;;
  let indexes := map (fun p => fst p * Z.of_nat w + snd p) (combine f0 f1) in
  spread <- map_result (getitem labels) indexes ;;
  if Nat.eqb (length spread) (size_of (shape labels)) then
    Ok {| a_dtype := a_dtype labels; shape := shape labels;
          data := map (fun p => cast (a_dtype labels)
                                  (fst p * (if dist_lt (snd p) maxdist
                                            then 1 else 0)))
                      (combine spread distances) |}
  else Raise ValueError.

End Spread.

(** ** Reference routines for concrete runs

    Instances of the SciPy routines on the inputs the examples use:
    single-row images, where the connected components are the maximal runs
    of non-zero pixels, numbered from left to right. *)

Definition single_row (sh : list nat) : bool :=
  match sh with
  | [_] | [1%nat; _] => true
  | _ => false
  end.

(** Labels of the runs; [cur] is the label of the run in progress (0 when
    the previous pixel is background) and [n] the number of runs so far. *)
Fixpoint label_runs (l : list Z) (cur n : Z) : list Z * Z :=
  match l with
  | [] => ([], n)
  | x :: l' =>
      if x =? 0 then
        let r := label_runs l' 0 n in (0 :: fst r, snd r)
      else if cur =? 0 then
        let r := label_runs l' (n + 1) (n + 1) in ((n + 1) :: fst r, snd r)
      else
        let r := label_runs l' cur n in (cur :: fst r, snd r)
  end.

Definition label_row (image : ndarray) (_ : unit) : result (ndarray * Z) :=
  if single_row (shape image) then
    let r := label_runs (data image) 0 0 in
    Ok ({| a_dtype := int32; shape := shape image; data := fst r |}, snd r)
  else Raise RuntimeError.

(** Bounding slices of label [k] in a row: first and last position. *)
Fixpoint extent (k : Z) (l : list Z) (pos : Z) : option (Z * Z) :=
  match l with
  | [] => None
  | x :: l' =>
      match extent k l' (pos + 1) with
      | Some (a, b) => if x =? k then Some (pos, b) else Some (a, b)
      | None => if x =? k then Some (pos, pos + 1) else None
      end
  end.

Definition find_objects_row (labels : ndarray) (_ : unit)
  : result (list object) :=
  match data labels with
  | [] => Ok []
  | x :: xs =>
      let top := list_max x xs in
      if single_row (shape labels) then
        Ok (map (fun k =>
                   match extent (Z.of_nat k) (data labels) 0 with
                   | Some s =>
                       Some (match shape labels with
                             | [_] => [s]
                             | _ => [(0, 1); s]
                             end)
                   | None => None
                   end)
                (seq 1 (Z.to_nat top)))
      else Raise RuntimeError
  end.

Definition img (dt : dtype) (sh : list nat) (d : list Z) : ndarray :=
  {| a_dtype := dt; shape := sh; data := d |}.

(** A platform whose routines accept unsigned 64-bit input only. *)
Definition label_uint64_only (image : ndarray) (kw : unit)
  : result (ndarray * Z) :=
  if dtype_eqb (a_dtype image) uint64 then label_row image kw
  else Raise TypeError.

Definition find_objects_uint64_only (image : ndarray) (kw : unit)
  : result (list object) :=
  if dtype_eqb (a_dtype image) uint64 then find_objects_row image kw
  else Raise TypeError.

(** The width of a one-row bounding box, a score for [select_regions]. *)
Definition width_score (o : object) : Z :=
  match o with
  | Some [_; (a, b)] => b - a
  | _ => 0
  end.

(** ** Specification vocabulary *)

(** What the filters check of their arguments, whatever the pixels are. *)
Fixpoint axes_check (axes : list (Z * Z)) (sizes origins : list Z)
  : result unit :=
  match axes, sizes, origins with
  | _ :: axes', s :: sizes', o :: origins' =>
      if 1 <? s then
        if (s / 2 + o <? 0) || (s <=? s / 2 + o) then Raise ValueError
        else axes_check axes' sizes' origins'
      else axes_check axes' sizes' origins'
  | _, _, _ => Ok tt
  end.

Definition filter_args_check (sh : list nat) (size origin : int_or_seq)
  : result unit :=
  origins <- normalize_sequence origin (length sh) ;;
  sizes <- normalize_sequence size (length sh) ;;
  axes_check (axes_of sh) sizes origins.

(** The binary check of [check_binary], as a property of the array. *)
Definition binary_dtype (dt : dtype) : Prop :=
  dt = uint8 \/ dt = int32 \/ dt = bool_.

Definition fails_binary_check (image : ndarray) : Prop :=
  ~ binary_dtype (a_dtype image)
  \/ exists v, In v (data image) /\ (v < 0 \/ 1 < v).

(** An integer array of zeros and ones of the shape of [image]. *)
Definition is_mask_of (image out : ndarray) : Prop :=
  a_dtype out = int32
  /\ shape out = shape image
  /\ length (data out) = length (data image)
  /\ Forall (fun v => v = 0 \/ v = 1) (data out).

(** The value of [a] at buffer position [k], and the buffer position of the
    pixel in row [i], column [j] of an array with [w] columns. *)
Definition at_pos (a : ndarray) (k : Z) : Z := nth (Z.to_nat k) (data a) 0.
Definition pixel (w : nat) (i j : Z) : Z := i * Z.of_nat w + j.

Definition in_image (h w : nat) (i j : Z) : Prop :=
  0 <= i < Z.of_nat h /\ 0 <= j < Z.of_nat w.

(** Squared Euclidean distance between two pixels. *)
Definition sq_dist (i j i' j' : Z) : Z :=
  (i - i') * (i - i') + (j - j') * (j - j').

(** [(fi, fj)] is a labelled pixel of [labels] nearest to [(i, j)]. *)
Definition nearest_label (labels : ndarray) (h w : nat) (i j fi fj : Z)
  : Prop :=
  in_image h w fi fj
  /\ at_pos labels (pixel w fi fj) <> 0
  /\ forall i' j', in_image h w i' j' ->
                   at_pos labels (pixel w i' j') <> 0 ->
                   sq_dist i j fi fj <= sq_dist i j i' j'.

(** What the distance transform returns for the background mask of an
    [h] by [w] label array: per pixel, the coordinates of a nearest
    labelled pixel and the squared distance to it. *)
Definition edt_of (labels : ndarray) (h w : nat) (distances : list Z)
           (features : list (list Z)) : Prop :=
  exists f0 f1,
    features = [f0; f1]
    /\ length distances = (h * w)%nat
    /\ length f0 = (h * w)%nat
    /\ length f1 = (h * w)%nat
    /\ forall i j, in_image h w i j ->
         let p := Z.to_nat (pixel w i j) in
         nearest_label labels h w i j (nth p f0 0) (nth p f1 0)
         /\ nth p distances 0 = sq_dist i j (nth p f0 0) (nth p f1 0).

(** Every element is a value of the array's dtype. *)
Definition well_typed (a : ndarray) : Prop :=
  Forall (fun v => cast (a_dtype a) v = v) (data a).

(** The distance transform by exhaustive search, for two-dimensional
    masks: the nearest zero of the mask, the first one in row-major order
    among equals. *)
Definition edt_search (mask : ndarray) : result (list Z * list (list Z)) :=
  match shape mask with
  | [h; w] =>
      let coords :=
        flat_map (fun i => map (fun j => (Z.of_nat i, Z.of_nat j)) (seq 0 w))
                 (seq 0 h) in
      let zeros :=
        filter (fun c => at_pos mask (pixel w (fst c) (snd c)) =? 0) coords in
      let d2 (c z : Z * Z) := sq_dist (fst c) (snd c) (fst z) (snd z) in
      let nearest (c : Z * Z) :=
        fold_left (fun acc z => if d2 c z <? d2 c acc then z else acc)
                  zeros (hd (0, 0) zeros) in
      Ok (map (fun c => d2 c (nearest c)) coords,
          [map (fun c => fst (nearest c)) coords;
           map (fun c => snd (nearest c)) coords])
  | _ => Raise RuntimeError
  end.

(** The packed value of a pair of labels, and the pairs of labels the
    pixels of two arrays carry. *)
Definition pack (p : Z * Z) : Z := fst p * q + snd p.

Definition pixel_pairs (labels1 labels2 : ndarray) : list (Z * Z) :=
  combine (data labels1) (data labels2).

(** The dtypes in which NumPy evaluates [labels1 * q] and
    [labels1 * q + labels2], and the condition that no packed value of the
    two arrays leaves them. *)
Definition scaled_dtype (labels1 : ndarray) : dtype :=
  result_type_pyint (a_dtype labels1) q.

Definition packed_dtype (labels1 labels2 : ndarray) : dtype :=
  promote_types (scaled_dtype labels1) (a_dtype labels2).

Definition packing_fits (labels1 labels2 : ndarray) : Prop :=
  Forall (fun p => fits (scaled_dtype labels1) (fst p * q)
                   /\ fits (packed_dtype labels1 labels2) (pack p))
         (pixel_pairs labels1 labels2).

(** The labels the assertions accept. *)
Definition labels_accepted (labels1 labels2 : ndarray) : Prop :=
  Forall (fun p => 0 <= fst p /\ 0 <= snd p < q) (pixel_pairs labels1 labels2).

(** What the module relies on of a labelling [rlabels] of [image]: same
    shape, labels from 0 upwards, background pixels labelled 0.  The
    connected components are the sets of pixels with one non-zero label. *)
Definition labelling_of (image rlabels : ndarray) : Prop :=
  shape rlabels = shape image
  /\ length (data rlabels) = length (data image)
  /\ Forall (fun v => 0 <= v) (data rlabels)
  /\ forall p, at_pos image p = 0 -> at_pos rlabels p = 0.

(** Component [k] of the labelling overlaps the value [v] of [labels]. *)
Definition overlaps (rlabels labels : ndarray) (k v : Z) : Prop :=
  In (k, v) (pixel_pairs rlabels labels).

(** The second entries of the pairs whose first entry is [k], in order. *)
Definition proj (k : Z) (P : list (Z * Z)) : list Z :=
  map snd (filter (fun oi => fst oi =? k) P).

(** The two loop bodies, as updates of the cell they write. *)
Definition upd_simple (cur i : Z) : Z := i.
Definition upd_conflict (cur i : Z) : Z :=
  if negb (cur =? 0) then oops else i.

(** One step of the loop of [propagate_labels] on the cell it writes. *)
Definition conflict_step (cur i : Z) : Z := cast int32 (upd_conflict cur i).

(** The cell an index addresses in an array of [len] cells: a negative
    index counts from the end. *)
Definition cell_of (len : Z) (o : Z) : Z := if o <? 0 then len + o else o.

(** The second entries of the pairs that address cell [k]. *)
Definition proj_cell (len k : Z) (P : list (Z * Z)) : list Z :=
  map snd (filter (fun oi => cell_of len (fst oi) =? k) P).

(** [start], [start + 1], ... ([n] values). *)
Fixpoint count_from (start : Z) (n : nat) : list Z :=
  match n with
  | O => []
  | S n' => start :: count_from (start + 1) n'
  end.

(** A single row with 21475 regions: 21474 isolated pixels and a last
    region of two pixels, which lie on the labels 5 and 7. *)
Definition crowded_regions : ndarray :=
  img uint8 [1; 42950]%nat
      (flat_map (fun _ => [1; 0]) (seq 0 21474) ++ [1; 1]).

Definition crowded_labels : ndarray :=
  img int32 [1; 42950]%nat (repeat 0 42948 ++ [5; 7]).

Definition crowded_rlabels : ndarray :=
  img int32 [1; 42950]%nat
      (flat_map (fun k => [k; 0]) (count_from 1 21474) ++ [21475; 21475]).

(** What [correspondences] makes of them: the packed values of region
    21475 have left the 32-bit range. *)
Definition crowded_cors : ndarray :=
  img int32 [2; 21477]%nat
      (([-21475; -21475] ++ count_from 0 21475)
         ++ ([32709; 32711] ++ repeat 0 21475)).

(** Decidable equality of arrays, to compare large results by computation. *)
Fixpoint list_eqb_Z (a b : list Z) : bool :=
  match a, b with
  | [], [] => true
  | x :: a', y :: b' => (x =? y) && list_eqb_Z a' b'
  | _, _ => false
  end.

Definition ndarray_eqb (a b : ndarray) : bool :=
  dtype_eqb (a_dtype a) (a_dtype b)
  && list_eqb_nat (shape a) (shape b)
  && list_eqb_Z (data a) (data b).

Definition returns_array (r : result ndarray) (a : ndarray) : bool :=
  match r with
  | Ok a' => ndarray_eqb a' a
  | Raise _ => false
  end.

Definition returns_labelling (r : result (ndarray * Z)) (a : ndarray) (n : Z)
  : bool :=
  match r with
  | Ok (a', n') => ndarray_eqb a' a && (n' =? n)
  | Raise _ => false
  end.

(** Two results that are the same mask: equal shape and values, or the
    same exception. *)
Definition same_mask (r1 r2 : result ndarray) : Prop :=
  match r1, r2 with
  | Ok a, Ok b => shape a = shape b /\ data a = data b
  | Raise e1, Raise e2 => e1 = e2
  | _, _ => False
  end.

(** The filter is centred on every axis. *)
Definition centred (origin : int_or_seq) : Prop :=
  match origin with
  | Scalar v => v = 0
  | Seq vs => Forall (fun v => v = 0) vs
  end.

Definition is_binary (image : ndarray) : Prop :=
  Forall (fun v => v = 0 \/ v = 1) (data image).

(** How the passes of the two dilations, and of the two erosions,
    correspond element by element. *)
Definition dil_rel (b : Z) (u : Q) : Prop :=
  (b = 0 /\ (u == 0)%Q) \/ (b = 1 /\ (0 < u)%Q).

Definition ero_rel (b : Z) (u : Q) : Prop :=
  (b = 1 /\ (u == 1)%Q) \/ (b = 0 /\ (0 <= u)%Q /\ (u < 1)%Q).

Definition buffers_rel (R : Z -> Q -> Prop) (bs : list Z) (us : list Q)
  : Prop :=
  length bs = length us /\ forall i, R (nth i bs 0) (nth i us (0 # 1)%Q).

Definition Qsum (w : list Q) : Q := fold_right Qplus (0 # 1)%Q w.

(** The window of a centred pass over a line [B] (or [U]) of length [len]
    at position [c]: reflected at the ends, or padded with [cval]. *)
Definition reflected_window (B : Z -> Z) (len s c : Z) : list Z :=
  map (fun j => B (reflect_index len (c - s / 2 + Z.of_nat j)))
      (seq 0 (Z.to_nat s)).

Definition padded_window (U : Z -> Q) (len s c : Z) (cval : Q) : list Q :=
  map (fun j => let t := c - s / 2 + Z.of_nat j in
                if (0 <=? t) && (t <? len) then U t else cval)
      (seq 0 (Z.to_nat s)).

(** The dtypes the wrappers really retry with: the names of [types] that
    NumPy understands, in order. *)
Definition coerced_dtypes : list dtype := [int32; uint32; int64; int16; uint16].

(** [r] is what [routine] returns on the copy of [image] coerced to the
    first dtype of [dts] it accepts. *)
Definition first_accepted {K R : Type} (routine : ndarray -> K -> result R)
           (image : ndarray) (kw : K) (dts : list dtype) (r : R) : Prop :=
  exists before dt after,
    dts = before ++ dt :: after
    /\ routine (astype dt image) kw = Ok r
    /\ Forall (fun d => is_ok (routine (astype d image) kw) = false) before.

(** The regions the loop of [select_regions] marks: the indices of
    [best[-nbest:]] whose score exceeds [min]. *)
Definition kept_regions (scores : list Z) (min nbest : Z) : list Z :=
  filter (fun i => negb (nth (Z.to_nat i) scores 0 <=? min))
         (py_slice_from (- nbest) (np_argsort scores)).

(** * Properties *)

Lemma dtype_eqb_eq (a b : dtype) : dtype_eqb a b = true <-> a = b.
Proof. destruct a, b; simpl; split; intro H; congruence. Qed.

(** ** The retrying wrappers *)

Section WrapperFacts.

Variable kwargs : Type.
Variable R : Type.
Variable routine : ndarray -> kwargs -> result R.

(** The loop returns the first success, going through the list in order. *)
Lemma retry_cons (t : string) (ts : list string) (image : ndarray)
      (kw : kwargs) :
  retry routine (t :: ts) image kw =
  match (a <- np_array image t ;; routine a kw) with
  | Ok r => Some r
  | Raise _ => retry routine ts image kw
  end.
Proof. reflexivity. Qed.

(** A name that is no dtype is skipped, whatever the routine does. *)
Lemma retry_bad_name (t : string) (ts : list string) (image : ndarray)
      (kw : kwargs) :
  np_dtype t = None ->
  retry routine (t :: ts) image kw = retry routine ts image kw.
Proof.
  intro H. rewrite retry_cons. unfold np_array. rewrite H. reflexivity.
Qed.

End WrapperFacts.

Lemma unit64_is_no_dtype : np_dtype "unit64" = None.
Proof. reflexivity. Qed.

(** When the routine accepts the image as it is, [label] is the routine. *)
Lemma label_direct (kwargs : Type)
      (ml : ndarray -> kwargs -> result (ndarray * Z))
      (image : ndarray) (kw : kwargs) (r : ndarray * Z) :
  ml image kw = Ok r -> label ml image kw = Ok r.
Proof. intro H. unfold label. rewrite H. reflexivity. Qed.

(** C1 (code): the fourth name of [types] is spelt "unit64", which NumPy
    does not understand, so the retry on uint64 never happens.  On a
    platform whose routines accept uint64 input only, [label] and
    [find_objects] end by raising the routine's exception, where the
    wrappers as specified return the result of the uint64 retry. *)
Theorem wrappers_skip_uint64 :
  let image := img uint8 [1; 3]%nat [1; 0; 1] in
  label label_uint64_only image tt = Raise TypeError
  /\ label_specified label_uint64_only image tt
     = Ok (img int32 [1; 3]%nat [1; 0; 2], 2)
  /\ find_objects find_objects_uint64_only image tt = Raise TypeError
  /\ find_objects_specified find_objects_uint64_only image tt
     = Ok [Some [(0, 1); (0, 3)]].
Proof. repeat split; reflexivity. Qed.

(** ** Region selection *)

(** C2 (code): with [nbest = 0] the slice [best[-nbest:]] is the whole of
    [best], so every region scoring above [min] is kept, not at most 0. *)
Theorem select_regions_nbest_zero_keeps_all :
  select_regions tt label_row find_objects_row
                 (img uint8 [1; 7]%nat [1; 1; 0; 1; 0; 0; 1]) width_score 0 0
  = Ok (img int32 [1; 7]%nat [1; 1; 0; 1; 0; 0; 1]).
Proof. reflexivity. Qed.

(** With [nbest = 1] the same call keeps the widest region only. *)
Example select_regions_nbest_one :
  select_regions tt label_row find_objects_row
                 (img uint8 [1; 7]%nat [1; 1; 0; 1; 0; 0; 1]) width_score 0 1
  = Ok (img int32 [1; 7]%nat [1; 1; 0; 0; 0; 0; 0]).
Proof. reflexivity. Qed.

(** ** Opening and closing *)

(** The openings, and the closing by uniform filters, hand size and origin
    to both stages. *)
Lemma r_opening_stages (image : ndarray) (size origin : int_or_seq) :
  r_opening image size origin =
  (check_binary image ;;;
   e <- r_erosion image size origin ;; r_dilation e size origin).
Proof. reflexivity. Qed.

Lemma rb_opening_stages (image : ndarray) (size origin : int_or_seq) :
  rb_opening image size origin =
  (e <- rb_erosion image size origin ;; rb_dilation e size origin).
Proof. reflexivity. Qed.

Lemma rb_closing_stages (image : ndarray) (size origin : int_or_seq) :
  rb_closing image size origin =
  (d <- rb_dilation image size origin ;; rb_erosion d size origin).
Proof. reflexivity. Qed.

Lemma rg_opening_stages (image : ndarray) (size origin : int_or_seq) :
  rg_opening image size origin =
  (e <- rg_erosion image size origin ;; rg_dilation e size origin).
Proof. reflexivity. Qed.

(** C6 (code): [r_closing] and [rg_closing] pass [origin=0] to both stages
    whatever origin they are given.  With origin 1 the closing of
    [0 1 0 0] by a window of 3 differs from dilation followed by erosion
    at that origin. *)
Theorem closing_ignores_origin :
  let image := img uint8 [1; 4]%nat [0; 1; 0; 0] in
  r_closing image (Scalar 3) (Scalar 1) = Ok (img uint8 [1; 4]%nat [1; 1; 0; 0])
  /\ rg_closing image (Scalar 3) (Scalar 1)
     = Ok (img uint8 [1; 4]%nat [1; 1; 0; 0])
  /\ (d <- r_dilation image (Scalar 3) (Scalar 1) ;;
      r_erosion d (Scalar 3) (Scalar 1))
     = Ok (img uint8 [1; 4]%nat [1; 1; 1; 1])
  /\ (d <- rg_dilation image (Scalar 3) (Scalar 1) ;;
      rg_erosion d (Scalar 3) (Scalar 1))
     = Ok (img uint8 [1; 4]%nat [1; 1; 1; 1]).
Proof. repeat split; reflexivity. Qed.

(** ** Outcome and length of the filters *)

Section FilterFacts.

Variable V : Type.
Variable dflt : V.
Variable combine : Z -> list V -> V.
Variable md : mode V.

Lemma filter1d_length (size origin len stride : Z) (buf : list V) :
  length (filter1d dflt combine md size origin len stride buf) = length buf.
Proof. unfold filter1d. rewrite length_map, length_seq. reflexivity. Qed.

Lemma apply_axes_outcome (axes : list (Z * Z)) :
  forall (sizes origins : list Z) (buf : list V),
    match axes_check axes sizes origins with
    | Raise e => apply_axes dflt combine md axes sizes origins buf = Raise e
    | Ok _ => exists out,
        apply_axes dflt combine md axes sizes origins buf = Ok out
        /\ length out = length buf
    end.
Proof.
  induction axes as [|[len stride] axes IH]; intros sizes origins buf.
  - simpl. exists buf. split; reflexivity.
  - destruct sizes as [|s sizes]; [simpl; exists buf; split; reflexivity|].
    destruct origins as [|o origins]; [simpl; exists buf; split; reflexivity|].
    simpl. destruct (1 <? s).
    + destruct ((s / 2 + o <? 0) || (s <=? s / 2 + o)); [reflexivity|].
      specialize (IH sizes origins
                     (filter1d dflt combine md s o len stride buf)).
      destruct (axes_check axes sizes origins); [|exact IH].
      destruct IH as (out & Hout & Hlen). exists out. split; [exact Hout|].
      rewrite Hlen. apply filter1d_length.
    + apply IH.
Qed.

Lemma separable_filter_outcome (sh : list nat) (size origin : int_or_seq)
      (buf : list V) :
  match filter_args_check sh size origin with
  | Raise e => separable_filter dflt combine md sh size origin buf = Raise e
  | Ok _ => exists out,
      separable_filter dflt combine md sh size origin buf = Ok out
      /\ length out = length buf
  end.
Proof.
  unfold filter_args_check, separable_filter.
  destruct (normalize_sequence origin (length sh)) as [origins|e]; simpl;
    [|reflexivity].
  destruct (normalize_sequence size (length sh)) as [sizes|e]; simpl;
    [|reflexivity].
  apply apply_axes_outcome.
Qed.

End FilterFacts.

Lemma axes_check_no_assertion (axes : list (Z * Z)) :
  forall sizes origins, axes_check axes sizes origins <> Raise AssertionError.
Proof.
  induction axes as [|a axes IH]; intros sizes origins; simpl; [discriminate|].
  destruct sizes as [|s sizes]; [discriminate|].
  destruct origins as [|o origins]; [discriminate|].
  destruct (1 <? s); [|apply IH].
  destruct ((s / 2 + o <? 0) || (s <=? s / 2 + o)); [discriminate|apply IH].
Qed.

Lemma filter_args_check_no_assertion (sh : list nat) (size origin : int_or_seq) :
  filter_args_check sh size origin <> Raise AssertionError.
Proof.
  unfold filter_args_check.
  destruct origin as [o|os]; simpl.
  - destruct size as [s|ss]; simpl.
    + apply axes_check_no_assertion.
    + destruct (Nat.eqb (length ss) (length sh)); simpl;
        [apply axes_check_no_assertion|discriminate].
  - destruct (Nat.eqb (length os) (length sh)); simpl; [|discriminate].
    destruct size as [s|ss]; simpl.
    + apply axes_check_no_assertion.
    + destruct (Nat.eqb (length ss) (length sh)); simpl;
        [apply axes_check_no_assertion|discriminate].
Qed.

(** The four filter calls of the module, by their argument check. *)
Lemma maximum_filter_outcome (image : ndarray) (size origin : int_or_seq) :
  match filter_args_check (shape image) size origin with
  | Raise e => maximum_filter image size origin = Raise e
  | Ok _ => exists out,
      maximum_filter image size origin = Ok out
      /\ a_dtype out = a_dtype image /\ shape out = shape image
      /\ length (data out) = length (data image)
  end.
Proof.
  unfold maximum_filter.
  pose proof (separable_filter_outcome 0 window_max Reflect (shape image)
                size origin (data image)) as H.
  destruct (filter_args_check (shape image) size origin).
  - destruct H as (out & Hout & Hlen). rewrite Hout. simpl.
    eexists. split; [reflexivity|]. simpl. auto.
  - rewrite H. reflexivity.
Qed.

Lemma minimum_filter_outcome (image : ndarray) (size origin : int_or_seq) :
  match filter_args_check (shape image) size origin with
  | Raise e => minimum_filter image size origin = Raise e
  | Ok _ => exists out,
      minimum_filter image size origin = Ok out
      /\ a_dtype out = a_dtype image /\ shape out = shape image
      /\ length (data out) = length (data image)
  end.
Proof.
  unfold minimum_filter.
  pose proof (separable_filter_outcome 0 window_min Reflect (shape image)
                size origin (data image)) as H.
  destruct (filter_args_check (shape image) size origin).
  - destruct H as (out & Hout & Hlen). rewrite Hout. simpl.
    eexists. split; [reflexivity|]. simpl. auto.
  - rewrite H. reflexivity.
Qed.

Lemma Forall_map_bit {A : Type} (f : A -> bool) (l : list A) :
  Forall (fun v => v = 0 \/ v = 1) (map (fun x => if f x then 1 else 0) l).
Proof.
  induction l as [|x l IH]; simpl; constructor; [|exact IH].
  destruct (f x); [right|left]; reflexivity.
Qed.

Lemma rb_dilation_outcome (image : ndarray) (size origin : int_or_seq) :
  match filter_args_check (shape image) size origin with
  | Raise e => rb_dilation image size origin = Raise e
  | Ok _ => exists out,
      rb_dilation image size origin = Ok out /\ is_mask_of image out
  end.
Proof.
  unfold rb_dilation, uniform_filter.
  pose proof (separable_filter_outcome (0#1)%Q window_mean (Constant (0#1)%Q)
                (shape image) size origin (map inject_Z (data image))) as H.
  destruct (filter_args_check (shape image) size origin).
  - destruct H as (out & Hout & Hlen). rewrite Hout. simpl.
    eexists. split; [reflexivity|]. unfold is_mask_of. simpl.
    rewrite length_map, Hlen, length_map.
    repeat split; try reflexivity. apply Forall_map_bit.
  - rewrite H. reflexivity.
Qed.

Lemma rb_erosion_outcome (image : ndarray) (size origin : int_or_seq) :
  match filter_args_check (shape image) size origin with
  | Raise e => rb_erosion image size origin = Raise e
  | Ok _ => exists out,
      rb_erosion image size origin = Ok out /\ is_mask_of image out
  end.
Proof.
  unfold rb_erosion, uniform_filter.
  pose proof (separable_filter_outcome (0#1)%Q window_mean (Constant (1#1)%Q)
                (shape image) size origin (map inject_Z (data image))) as H.
  destruct (filter_args_check (shape image) size origin).
  - destruct H as (out & Hout & Hlen). rewrite Hout. simpl.
    eexists. split; [reflexivity|]. unfold is_mask_of. simpl.
    rewrite length_map, Hlen, length_map.
    repeat split; try reflexivity. apply Forall_map_bit.
  - rewrite H. reflexivity.
Qed.

Lemma is_mask_of_trans (a b c : ndarray) :
  is_mask_of a b -> is_mask_of b c -> is_mask_of a c.
Proof.
  intros (_ & Hs1 & Hl1 & _) (Hd & Hs2 & Hl2 & Hv).
  unfold is_mask_of. rewrite Hs2, Hs1, Hl2, Hl1. auto.
Qed.

(** C8: whatever the input array holds, a result of [rb_dilation],
    [rb_erosion], [rb_opening] or [rb_closing] is an integer array of the
    shape of the input whose entries are all 0 or 1. *)
Theorem rb_results_are_masks (image : ndarray) (size origin : int_or_seq)
        (out : ndarray) :
  rb_dilation image size origin = Ok out
  \/ rb_erosion image size origin = Ok out
  \/ rb_opening image size origin = Ok out
  \/ rb_closing image size origin = Ok out ->
  is_mask_of image out.
Proof.
  pose proof (rb_dilation_outcome image size origin) as Hd.
  pose proof (rb_erosion_outcome image size origin) as He.
  intros [H | [H | [H | H]]].
  - destruct (filter_args_check (shape image) size origin).
    + destruct Hd as (o & Ho & Hm). congruence.
    + congruence.
  - destruct (filter_args_check (shape image) size origin).
    + destruct He as (o & Ho & Hm). congruence.
    + congruence.
  - unfold rb_opening in H.
    destruct (filter_args_check (shape image) size origin).
    + destruct He as (e & Hev & Hm). rewrite Hev in H. simpl in H.
      pose proof (rb_dilation_outcome e size origin) as Hd2.
      destruct (filter_args_check (shape e) size origin).
      * destruct Hd2 as (o & Ho & Hm2). rewrite Ho in H.
        injection H as <-. eapply is_mask_of_trans; eassumption.
      * congruence.
    + rewrite He in H. discriminate.
  - unfold rb_closing in H.
    destruct (filter_args_check (shape image) size origin).
    + destruct Hd as (d & Hdv & Hm). rewrite Hdv in H. simpl in H.
      pose proof (rb_erosion_outcome d size origin) as He2.
      destruct (filter_args_check (shape d) size origin).
      * destruct He2 as (o & Ho & Hm2). rewrite Ho in H.
        injection H as <-. eapply is_mask_of_trans; eassumption.
      * congruence.
    + rewrite Hd in H. discriminate.
Qed.

Lemma rb_results_are_masks_witness :
  is_mask_of (img int64 [2; 2]%nat [7; -3; 0; 250])
             (img int32 [2; 2]%nat [1; 1; 1; 1]).
Proof.
  apply (rb_results_are_masks (img int64 [2; 2]%nat [7; -3; 0; 250])
                              (Scalar 2) (Scalar 0)).
  left. reflexivity.
Defined.

(** ** The binary check *)

Lemma list_min_nonneg (x : Z) (xs : list Z) :
  0 <= list_min x xs <-> Forall (fun v => 0 <= v) (x :: xs).
Proof.
  unfold list_min. induction xs as [|y ys IH]; simpl.
  - split; [intro H; constructor; [exact H|constructor]|].
    intro H. inversion H; assumption.
  - split.
    + intro H. assert (H1 : 0 <= y) by lia.
      assert (H2 : 0 <= fold_right Z.min x ys) by lia.
      apply IH in H2. inversion H2; subst.
      constructor; [assumption|]. constructor; assumption.
    + intro H. inversion H as [|? ? Hx Hr]; subst.
      inversion Hr as [|? ? Hy Hys]; subst.
      assert (H2 : 0 <= fold_right Z.min x ys)
        by (apply IH; constructor; assumption).
      lia.
Qed.

Lemma list_max_le (b x : Z) (xs : list Z) :
  list_max x xs <= b <-> Forall (fun v => v <= b) (x :: xs).
Proof.
  unfold list_max. induction xs as [|y ys IH]; simpl.
  - split; [intro H; constructor; [exact H|constructor]|].
    intro H. inversion H; assumption.
  - split.
    + intro H. assert (H1 : y <= b) by lia.
      assert (H2 : fold_right Z.max x ys <= b) by lia.
      apply IH in H2. inversion H2; subst.
      constructor; [assumption|]. constructor; assumption.
    + intro H. inversion H as [|? ? Hx Hr]; subst.
      inversion Hr as [|? ? Hy Hys]; subst.
      assert (H2 : fold_right Z.max x ys <= b)
        by (apply IH; constructor; assumption).
      lia.
Qed.

Lemma binary_dtype_dec (dt : dtype) :
  (dtype_eqb dt uint8 || dtype_eqb dt int32 || dtype_eqb dt bool_) = true
  <-> binary_dtype dt.
Proof.
  unfold binary_dtype.
  destruct dt; simpl; split; intro H; try discriminate; auto;
    destruct H as [H | [H | H]]; discriminate.
Qed.

(** The three ways [check_binary] can end. *)
Lemma check_binary_cases (image : ndarray) :
  (fails_binary_check image /\ check_binary image = Raise AssertionError)
  \/ (~ fails_binary_check image /\ check_binary image = Raise ValueError)
  \/ (~ fails_binary_check image /\ check_binary image = Ok tt).
Proof.
  unfold check_binary, fails_binary_check, np_amin, np_amax, py_assert.
  pose proof (binary_dtype_dec (a_dtype image)) as Hdt.
  destruct (dtype_eqb (a_dtype image) uint8 || dtype_eqb (a_dtype image) int32
            || dtype_eqb (a_dtype image) bool_).
  2:{ left. split; [|reflexivity]. left. intro H. apply Hdt in H. discriminate. }
  assert (Hb : binary_dtype (a_dtype image)) by (apply Hdt; reflexivity).
  simpl. destruct (data image) as [|x xs].
  - right. left. split; [|reflexivity].
    intros [H | (v & [] & _)]. exact (H Hb).
  - simpl. destruct (0 <=? list_min x xs) eqn:Hlo.
    + simpl. destruct (list_max x xs <=? 1) eqn:Hhi.
      * right. right. split; [|reflexivity].
        apply Z.leb_le in Hlo, Hhi.
        apply list_min_nonneg in Hlo. apply list_max_le in Hhi.
        rewrite Forall_forall in Hlo, Hhi.
        intros [H | (v & Hin & Hv)]; [exact (H Hb)|].
        specialize (Hlo v Hin). specialize (Hhi v Hin). lia.
      * left. split; [|reflexivity]. right.
        apply Z.leb_gt in Hhi.
        destruct (Exists_dec (fun v => 1 < v) (x :: xs)
                             (fun v => Z_lt_dec 1 v)) as [He | Hn].
        -- apply Exists_exists in He. destruct He as (v & Hin & Hv).
           exists v. split; [exact Hin|right; exact Hv].
        -- exfalso. apply Forall_Exists_neg in Hn.
           assert (Hall : Forall (fun v => v <= 1) (x :: xs)).
           { eapply Forall_impl; [|exact Hn]. simpl. intros; lia. }
           apply list_max_le in Hall. lia.
    + left. split; [|reflexivity]. right.
      apply Z.leb_gt in Hlo.
      destruct (Exists_dec (fun v => v < 0) (x :: xs)
                           (fun v => Z_lt_dec v 0)) as [He | Hn].
      * apply Exists_exists in He. destruct He as (v & Hin & Hv).
        exists v. split; [exact Hin|left; exact Hv].
      * exfalso. apply Forall_Exists_neg in Hn.
        assert (Hall : Forall (fun v => 0 <= v) (x :: xs)).
        { eapply Forall_impl; [|exact Hn]. simpl. intros; lia. }
        apply list_min_nonneg in Hall. lia.
Qed.

Lemma check_binary_assertion (image : ndarray) :
  check_binary image = Raise AssertionError <-> fails_binary_check image.
Proof.
  destruct (check_binary_cases image) as [[Hf He] | [[Hf He] | [Hf He]]];
    rewrite He; split; intro H; try reflexivity; try assumption;
    try discriminate; contradiction.
Qed.

(** Erosion then dilation (or the converse) by the min/max filters never
    ends in an AssertionError, and succeeds exactly when the arguments of
    the filters are accepted. *)
Lemma min_then_max_outcome (image : ndarray) (size origin : int_or_seq) :
  (e <- r_erosion image size origin ;; r_dilation e size origin)
    <> Raise AssertionError
  /\ is_ok (e <- r_erosion image size origin ;; r_dilation e size origin)
     = is_ok (filter_args_check (shape image) size origin).
Proof.
  unfold r_erosion, r_dilation.
  pose proof (minimum_filter_outcome image size origin) as H1.
  pose proof (filter_args_check_no_assertion (shape image) size origin) as Hna.
  destruct (filter_args_check (shape image) size origin) as [u|e] eqn:Hc.
  - destruct H1 as (o1 & Ho1 & _ & Hs1 & _). rewrite Ho1. simpl.
    pose proof (maximum_filter_outcome o1 size origin) as H2.
    rewrite Hs1, Hc in H2. destruct H2 as (o2 & Ho2 & _). rewrite Ho2.
    split; [discriminate|reflexivity].
  - rewrite H1. simpl. split; [congruence|reflexivity].
Qed.

Lemma max_then_min_outcome (image : ndarray) (size origin : int_or_seq) :
  (d <- r_dilation image size origin ;; r_erosion d size origin)
    <> Raise AssertionError
  /\ is_ok (d <- r_dilation image size origin ;; r_erosion d size origin)
     = is_ok (filter_args_check (shape image) size origin).
Proof.
  unfold r_erosion, r_dilation.
  pose proof (maximum_filter_outcome image size origin) as H1.
  pose proof (filter_args_check_no_assertion (shape image) size origin) as Hna.
  destruct (filter_args_check (shape image) size origin) as [u|e] eqn:Hc.
  - destruct H1 as (o1 & Ho1 & _ & Hs1 & _). rewrite Ho1. simpl.
    pose proof (minimum_filter_outcome o1 size origin) as H2.
    rewrite Hs1, Hc in H2. destruct H2 as (o2 & Ho2 & _). rewrite Ho2.
    split; [discriminate|reflexivity].
  - rewrite H1. simpl. split; [congruence|reflexivity].
Qed.

Lemma rb_opening_outcome (image : ndarray) (size origin : int_or_seq) :
  rb_opening image size origin <> Raise AssertionError
  /\ is_ok (rb_opening image size origin)
     = is_ok (filter_args_check (shape image) size origin).
Proof.
  unfold rb_opening.
  pose proof (rb_erosion_outcome image size origin) as H1.
  pose proof (filter_args_check_no_assertion (shape image) size origin) as Hna.
  destruct (filter_args_check (shape image) size origin) as [u|e] eqn:Hc.
  - destruct H1 as (o1 & Ho1 & _ & Hs1 & _). rewrite Ho1. simpl.
    pose proof (rb_dilation_outcome o1 size origin) as H2.
    rewrite Hs1, Hc in H2. destruct H2 as (o2 & Ho2 & _). rewrite Ho2.
    split; [discriminate|reflexivity].
  - rewrite H1. simpl. split; [congruence|reflexivity].
Qed.

Lemma rb_closing_outcome (image : ndarray) (size origin : int_or_seq) :
  rb_closing image size origin <> Raise AssertionError
  /\ is_ok (rb_closing image size origin)
     = is_ok (filter_args_check (shape image) size origin).
Proof.
  unfold rb_closing.
  pose proof (rb_dilation_outcome image size origin) as H1.
  pose proof (filter_args_check_no_assertion (shape image) size origin) as Hna.
  destruct (filter_args_check (shape image) size origin) as [u|e] eqn:Hc.
  - destruct H1 as (o1 & Ho1 & _ & Hs1 & _). rewrite Ho1. simpl.
    pose proof (rb_erosion_outcome o1 size origin) as H2.
    rewrite Hs1, Hc in H2. destruct H2 as (o2 & Ho2 & _). rewrite Ho2.
    split; [discriminate|reflexivity].
  - rewrite H1. simpl. split; [congruence|reflexivity].
Qed.

(** ['i'] is C int: a 0/1 array of 64-bit integers fails the check. *)
Example check_binary_int64 :
  check_binary (img int64 [1; 2]%nat [0; 1]) = Raise AssertionError
  /\ check_binary (img int32 [1; 2]%nat [0; 1]) = Ok tt.
Proof. split; reflexivity. Qed.

(** C9: [r_opening] and [r_closing] raise AssertionError exactly when the
    input fails the binary check (its dtype is none of uint8, C int and
    bool, or it holds a value below 0 or above 1).  The grayscale and the
    uniform-filter openings and closings never raise it, and whether they
    return depends on the shape, size and origin alone, not on the dtype or
    the values of the array. *)
Theorem binary_check_only_in_r_variants (image : ndarray)
        (size origin : int_or_seq) :
  (r_opening image size origin = Raise AssertionError
   <-> fails_binary_check image)
  /\ (r_closing image size origin = Raise AssertionError
      <-> fails_binary_check image)
  /\ rg_opening image size origin <> Raise AssertionError
  /\ rg_closing image size origin <> Raise AssertionError
  /\ rb_opening image size origin <> Raise AssertionError
  /\ rb_closing image size origin <> Raise AssertionError
  /\ is_ok (rg_opening image size origin)
     = is_ok (filter_args_check (shape image) size origin)
  /\ is_ok (rg_closing image size origin)
     = is_ok (filter_args_check (shape image) size (Scalar 0))
  /\ is_ok (rb_opening image size origin)
     = is_ok (filter_args_check (shape image) size origin)
  /\ is_ok (rb_closing image size origin)
     = is_ok (filter_args_check (shape image) size origin).
Proof.
  pose proof (min_then_max_outcome image size origin) as [Hmm1 Hmm2].
  pose proof (max_then_min_outcome image size (Scalar 0)) as [Hxm1 Hxm2].
  pose proof (rb_opening_outcome image size origin) as [Hbo1 Hbo2].
  pose proof (rb_closing_outcome image size origin) as [Hbc1 Hbc2].
  repeat split; try assumption.
  - unfold r_opening. intro H.
    destruct (check_binary_cases image) as [[Hf He] | [[Hf He] | [Hf He]]];
      rewrite He in H; simpl in H; [assumption|discriminate|contradiction].
  - unfold r_opening. intro H.
    apply check_binary_assertion in H. rewrite H. reflexivity.
  - unfold r_closing. intro H.
    destruct (check_binary_cases image) as [[Hf He] | [[Hf He] | [Hf He]]];
      rewrite He in H; simpl in H; [assumption|discriminate|contradiction].
  - unfold r_closing. intro H.
    apply check_binary_assertion in H. rewrite H. reflexivity.
Qed.

(** ** Spreading labels *)

Lemma map_result_ok {A B : Type} (f : A -> result B) (g : A -> B) (l : list A) :
  (forall x, In x l -> f x = Ok (g x)) -> map_result f l = Ok (map g l).
Proof.
  induction l as [|x l IH]; intro H; simpl; [reflexivity|].
  rewrite (H x (or_introl eq_refl)). simpl.
  rewrite IH by (intros y Hy; apply H; right; exact Hy). reflexivity.
Qed.

Lemma getitem_in_range (a : ndarray) (k : Z) :
  0 <= k < Z.of_nat (length (data a)) -> getitem a k = Ok (at_pos a k).
Proof.
  intro H. unfold getitem, norm_index, at_pos.
  replace ((0 <=? k) && (k <? Z.of_nat (length (data a)))) with true; [reflexivity|].
  symmetry. apply andb_true_iff. split; [apply Z.leb_le|apply Z.ltb_lt]; lia.
Qed.

Lemma nth_map_in {A B : Type} (f : A -> B) (l : list A) (p : nat) (d : A)
      (d' : B) :
  (p < length l)%nat -> nth p (map f l) d' = f (nth p l d).
Proof.
  intro H. rewrite (nth_indep _ d' (f d)) by (rewrite length_map; exact H).
  apply map_nth.
Qed.

Lemma cast_zero (dt : dtype) : cast dt 0 = 0.
Proof. destruct dt; reflexivity. Qed.

Lemma dist_lt_spec (d2 : Z) (m : Q) :
  dist_lt d2 m = true <-> (0 < m)%Q /\ (inject_Z d2 < m * m)%Q.
Proof.
  unfold dist_lt, Q_positive. rewrite andb_true_iff, negb_true_iff.
  rewrite Z.ltb_lt. unfold Qlt at 1. simpl. rewrite Z.mul_1_r.
  split; intros [H1 H2]; split; try assumption.
  - apply Qnot_le_lt. intro H. apply Qle_bool_iff in H. congruence.
  - destruct (Qle_bool (m * m) (inject_Z d2)) eqn:E; [|reflexivity].
    apply Qle_bool_iff in E. apply Qle_not_lt in E. contradiction.
Qed.

Lemma dist_lt_zero (m : Q) : (0 < m)%Q -> dist_lt 0 m = true.
Proof.
  intro H. apply dist_lt_spec. split; [exact H|].
  change (inject_Z 0) with 0%Q.
  rewrite <- (Qmult_0_l m) at 1. apply Qmult_lt_compat_r; assumption.
Qed.

Lemma sq_dist_zero (i j i' j' : Z) :
  sq_dist i j i' j' <= 0 -> i' = i /\ j' = j.
Proof.
  unfold sq_dist. intro H.
  pose proof (Z.square_nonneg (i - i')) as H1.
  pose proof (Z.square_nonneg (j - j')) as H2.
  assert (Ha : (i - i') * (i - i') = 0) by lia.
  assert (Hb : (j - j') * (j - j') = 0) by lia.
  apply Z.mul_eq_0 in Ha, Hb. lia.
Qed.

Lemma pixel_bounds (h w : nat) (i j : Z) :
  in_image h w i j -> 0 <= pixel w i j < Z.of_nat (h * w).
Proof. unfold in_image, pixel. intros [Hi Hj]. rewrite Nat2Z.inj_mul. nia. Qed.

Lemma pixel_decompose (h w : nat) (p : nat) :
  (p < h * w)%nat ->
  exists i j, in_image h w i j /\ p = Z.to_nat (pixel w i j).
Proof.
  intro Hp. assert (Hw : (0 < w)%nat) by (destruct w; lia).
  exists (Z.of_nat p / Z.of_nat w), (Z.of_nat p mod Z.of_nat w).
  unfold in_image, pixel.
  pose proof (Z.div_mod (Z.of_nat p) (Z.of_nat w) ltac:(lia)) as Hdm.
  pose proof (Z.mod_pos_bound (Z.of_nat p) (Z.of_nat w) ltac:(lia)) as Hm.
  assert (Hd : 0 <= Z.of_nat p / Z.of_nat w < Z.of_nat h).
  { split; [apply Z.div_pos; lia|].
    apply Z.div_lt_upper_bound; [lia|]. rewrite <- Nat2Z.inj_mul. lia. }
  repeat split; try lia.
Qed.

Section SpreadFacts.

Variable distance_transform_edt : ndarray -> result (list Z * list (list Z)).


End SpreadFacts.



(** ** Label correspondences *)

Lemma cast_fits (dt : dtype) (v : Z) : fits dt v -> cast dt v = v.
Proof.
  unfold fits. destruct dt; simpl; intro H;
    unfold wrap_signed, wrap_unsigned;
    try (rewrite Z.mod_small by lia; lia).
  - destruct (v =? 0) eqn:E; [apply Z.eqb_eq in E|apply Z.eqb_neq in E]; lia.
  - unfold round53.
    destruct (Z.abs v <? 2 ^ 53) eqn:E; [reflexivity|].
    apply Z.ltb_ge in E.
    assert (Hv : v = 2 ^ 53 \/ v = - 2 ^ 53) by lia.
    destruct Hv as [-> | ->]; reflexivity.
Qed.

Lemma result_type_q_holds (dt : dtype) (v x : Z) :
  fits dt v -> 0 <= x <= v -> fits (result_type_pyint dt q) x.
Proof.
  unfold fits. destruct dt; simpl; intros H1 H2; lia.
Qed.

Lemma unpack_pack (a b : Z) :
  0 <= b < q -> (a * q + b) / q = a /\ (a * q + b) mod q = b.
Proof.
  intro H. unfold q in *. split.
  - rewrite Z.add_comm, Z.div_add by lia. rewrite Z.div_small by lia. lia.
  - rewrite Z.add_comm, Z.mod_add by lia. apply Z.mod_small. lia.
Qed.

Lemma pack_unpack (v : Z) : pack (v / q, v mod q) = v.
Proof.
  unfold pack, q. simpl. pose proof (Z.div_mod v 100000 ltac:(lia)). lia.
Qed.

(** [sort_unique]: the same elements, in strictly ascending order. *)
Lemma insert_unique_In (x y : Z) (l : list Z) :
  In y (insert_unique x l) <-> y = x \/ In y l.
Proof.
  induction l as [|z l IH]; simpl.
  - intuition.
  - destruct (x <? z) eqn:E1; simpl; [intuition|].
    destruct (x =? z) eqn:E2; simpl.
    + apply Z.eqb_eq in E2. subst. intuition.
    + rewrite IH. intuition.
Qed.

Lemma sort_unique_In (y : Z) (l : list Z) : In y (sort_unique l) <-> In y l.
Proof.
  unfold sort_unique. induction l as [|x l IH]; simpl; [reflexivity|].
  rewrite insert_unique_In, IH. intuition.
Qed.

Lemma insert_unique_sorted (x : Z) (l : list Z) :
  StronglySorted Z.lt l -> StronglySorted Z.lt (insert_unique x l).
Proof.
  induction l as [|z l IH]; intro H; simpl.
  - repeat constructor.
  - inversion H as [|? ? Hs Hf]; subst.
    destruct (x <? z) eqn:E1.
    + apply Z.ltb_lt in E1. constructor; [exact H|].
      constructor; [exact E1|].
      eapply Forall_impl; [|exact Hf]. simpl. intros; lia.
    + destruct (x =? z) eqn:E2; [exact H|].
      apply Z.ltb_ge in E1. apply Z.eqb_neq in E2.
      constructor; [apply IH; exact Hs|].
      apply Forall_forall. intros y Hy. apply insert_unique_In in Hy.
      destruct Hy as [-> | Hy]; [lia|].
      rewrite Forall_forall in Hf. apply Hf. exact Hy.
Qed.

Lemma sort_unique_sorted (l : list Z) : StronglySorted Z.lt (sort_unique l).
Proof.
  unfold sort_unique. induction l as [|x l IH]; simpl; [constructor|].
  apply insert_unique_sorted. exact IH.
Qed.

Lemma strictly_sorted_NoDup (l : list Z) : StronglySorted Z.lt l -> NoDup l.
Proof.
  induction 1 as [|x l Hs IH Hf]; constructor; [|exact IH].
  intro Hin. rewrite Forall_forall in Hf. specialize (Hf x Hin). lia.
Qed.

Lemma combine_firstn_skipn_app {A : Type} (l1 l2 : list A) :
  length l1 = length l2 ->
  combine (firstn (length l1) (l1 ++ l2)) (skipn (length l1) (l1 ++ l2))
  = combine l1 l2.
Proof.
  intro H. rewrite firstn_app, Nat.sub_diag, firstn_all. simpl.
  rewrite app_nil_r, skipn_app, Nat.sub_diag, skipn_all. reflexivity.
Qed.

Lemma combine_map_same {A B C : Type} (f : A -> B) (g : A -> C) (l : list A) :
  combine (map f l) (map g l) = map (fun x => (f x, g x)) l.
Proof. induction l as [|x l IH]; simpl; [reflexivity|]. rewrite IH. reflexivity. Qed.

Lemma packed_data (labels1 labels2 : ndarray) :
  length (data labels1) = length (data labels2) ->
  packing_fits labels1 labels2 ->
  map (fun p => cast (packed_dtype labels1 labels2) (fst p + snd p))
      (combine (map (fun x => cast (scaled_dtype labels1) (x * q))
                    (data labels1))
               (data labels2))
  = map pack (pixel_pairs labels1 labels2).
Proof.
  unfold packing_fits, pixel_pairs, packed_dtype, scaled_dtype.
  set (dt1 := result_type_pyint (a_dtype labels1) q).
  set (dt := promote_types dt1 (a_dtype labels2)).
  generalize (data labels2) as d2. generalize (data labels1) as d1.
  induction d1 as [|a d1 IH]; intros d2 Hlen Hfit; simpl; [reflexivity|].
  destruct d2 as [|b d2]; simpl in *; [discriminate|].
  inversion Hfit as [|? ? [Ha Hab] Hrest]; subst. simpl in *.
  rewrite (cast_fits Ha). unfold pack in *. simpl in *.
  rewrite (cast_fits Hab). f_equal. apply IH; [lia|exact Hrest].
Qed.

Lemma Forall_combine_split (P Q : Z -> Prop) (d1 d2 : list Z) :
  length d1 = length d2 ->
  Forall (fun p => P (fst p) /\ Q (snd p)) (combine d1 d2) ->
  Forall P d1 /\ Forall Q d2.
Proof.
  revert d2. induction d1 as [|a d1 IH]; intros [|b d2] Hlen H;
    simpl in *; try discriminate; [split; constructor|].
  inversion H as [|? ? [Ha Hb] Hr]; subst. simpl in *.
  destruct (IH d2 ltac:(lia) Hr). split; constructor; assumption.
Qed.

Lemma np_amin_nonneg (a : ndarray) :
  data a <> [] -> Forall (fun v => 0 <= v) (data a) ->
  exists m, np_amin a = Ok m /\ 0 <= m.
Proof.
  unfold np_amin. destruct (data a) as [|x xs]; [congruence|].
  intros _ H. eexists. split; [reflexivity|]. apply list_min_nonneg. exact H.
Qed.

Lemma np_amax_le (a : ndarray) (b : Z) :
  data a <> [] -> Forall (fun v => v <= b) (data a) ->
  exists m, np_amax a = Ok m /\ m <= b.
Proof.
  unfold np_amax. destruct (data a) as [|x xs]; [congruence|].
  intros _ H. eexists. split; [reflexivity|]. apply list_max_le. exact H.
Qed.

(** The result of [correspondences] on accepted labels whose packed values
    fit: the sorted distinct packed values, unpacked. *)
Lemma correspondences_value (labels1 labels2 : ndarray) :
  shape labels1 = shape labels2 ->
  length (data labels1) = length (data labels2) ->
  data labels1 <> [] ->
  labels_accepted labels1 labels2 ->
  packing_fits labels1 labels2 ->
  exists cors,
    correspondences labels1 labels2 = Ok cors
    /\ shape cors = [2%nat; length (columns cors)]
    /\ columns cors
       = map (fun v => (v / q, v mod q))
             (sort_unique (map pack (pixel_pairs labels1 labels2))).
Proof.
  intros Hsh Hlen Hne Hacc Hfit.
  pose proof (packed_data Hlen Hfit) as Hpk.
  unfold labels_accepted, pixel_pairs in Hacc.
  destruct (@Forall_combine_split (fun a => 0 <= a) (fun b => 0 <= b < q)
              _ _ Hlen Hacc) as [H1 H2].
  assert (Hne2 : data labels2 <> []).
  { intro E. rewrite E in Hlen. destruct (data labels1); [congruence|discriminate]. }
  destruct (np_amin_nonneg labels1 Hne H1) as (m1 & Hm1 & Hlo1).
  assert (H2lo : Forall (fun v => 0 <= v) (data labels2)).
  { eapply Forall_impl; [|exact H2]. intros a Ha. cbv beta in Ha. lia. }
  destruct (np_amin_nonneg labels2 Hne2 H2lo) as (m2 & Hm2 & Hlo2).
  assert (H2hi : Forall (fun v => v <= q - 1) (data labels2)).
  { eapply Forall_impl; [|exact H2]. intros a Ha. cbv beta in Ha. lia. }
  destruct (np_amax_le labels2 Hne2 H2hi) as (m3 & Hm3 & Hhi2).
  unfold correspondences. rewrite Hm1. simpl bind.
  apply Z.leb_le in Hlo1, Hlo2. rewrite Hlo1, Hm2. simpl bind. rewrite Hlo2.
  simpl bind. rewrite Hm3. simpl bind.
  replace (m3 <? q) with true by (symmetry; apply Z.ltb_lt; lia).
  simpl bind.
  unfold np_add. simpl shape. rewrite Hsh.
  replace (list_eqb_nat (shape labels2) (shape labels2)) with true.
  2:{ unfold list_eqb_nat.
      destruct (list_eq_dec Nat.eq_dec (shape labels2) (shape labels2));
        congruence. }
  simpl bind.
  fold (scaled_dtype labels1). simpl a_dtype.
  fold (scaled_dtype labels1). fold (packed_dtype labels1 labels2).
  rewrite Hpk.
  eexists. split; [reflexivity|].
  unfold columns, np_stack2, np_floordiv_int, np_mod_int, np_unique.
  simpl. rewrite !length_map.
  set (U := sort_unique (map pack (pixel_pairs labels1 labels2))).
  set (dt := result_type_pyint (packed_dtype labels1 labels2) q).
  assert (Hcols :
    combine (firstn (length U)
               (map (fun x => cast dt (x / q)) U
                ++ map (fun x => cast dt (x mod q)) U))
            (skipn (length U)
               (map (fun x => cast dt (x / q)) U
                ++ map (fun x => cast dt (x mod q)) U))
    = map (fun v => (v / q, v mod q)) U).
  { rewrite <- (length_map (fun x => cast dt (x / q)) U) at 1 2.
    rewrite combine_firstn_skipn_app by (rewrite !length_map; reflexivity).
    rewrite combine_map_same. apply map_ext_in.
    intros v Hv. unfold U in Hv.
    apply (proj1 (sort_unique_In _ _)) in Hv. apply in_map_iff in Hv.
    destruct Hv as ([a b] & <- & Hin).
    unfold packing_fits in Hfit. rewrite Forall_forall in Hfit.
    destruct (Hfit _ Hin) as [_ Hf].
    unfold pixel_pairs in Hin.
    rewrite Forall_forall in Hacc. destruct (Hacc _ Hin) as [Ha Hb].
    simpl in Ha, Hb. unfold pack in *. simpl fst in *. simpl snd in *.
    destruct (unpack_pack a Hb) as [Hdiv Hmod]. rewrite Hdiv, Hmod.
    rewrite (cast_fits (dt := dt) (v := a)), (cast_fits (dt := dt) (v := b));
      [reflexivity| |];
      apply (result_type_q_holds Hf); unfold q in *; nia. }
  rewrite Hcols. rewrite length_map. split; reflexivity.
Qed.

Lemma Forall_combine_join (P Q : Z -> Prop) (d1 d2 : list Z) :
  Forall P d1 -> Forall Q d2 ->
  Forall (fun p => P (fst p) /\ Q (snd p)) (combine d1 d2).
Proof.
  intros H1 H2. apply Forall_forall. intros [a b] Hin. simpl.
  rewrite Forall_forall in H1, H2. split.
  - apply H1. eapply in_combine_l. exact Hin.
  - apply H2. eapply in_combine_r. exact Hin.
Qed.

Lemma np_amin_negative (a : ndarray) (v : Z) :
  In v (data a) -> v < 0 -> exists m, np_amin a = Ok m /\ m < 0.
Proof.
  unfold np_amin. destruct (data a) as [|x xs]; [intros []|].
  intros Hin Hv. eexists. split; [reflexivity|].
  destruct (Z_lt_dec (list_min x xs) 0) as [H | H]; [exact H|].
  exfalso. assert (H0 : 0 <= list_min x xs) by lia.
  apply list_min_nonneg in H0. rewrite Forall_forall in H0.
  specialize (H0 v Hin). lia.
Qed.

Lemma np_amin_exists (a : ndarray) :
  data a <> [] -> exists m, np_amin a = Ok m.
Proof.
  unfold np_amin. destruct (data a); [congruence|]. intros _. eexists. reflexivity.
Qed.

Lemma np_amax_large (a : ndarray) (v b : Z) :
  In v (data a) -> b <= v -> exists m, np_amax a = Ok m /\ b <= m.
Proof.
  unfold np_amax. destruct (data a) as [|x xs]; [intros []|].
  intros Hin Hv. eexists. split; [reflexivity|].
  destruct (Z_le_dec b (list_max x xs)) as [H | H]; [exact H|].
  exfalso. assert (H0 : list_max x xs <= b - 1) by lia.
  apply list_max_le in H0. rewrite Forall_forall in H0.
  specialize (H0 v Hin). lia.
Qed.

(** The assertions reject a negative label and a second label of [q] or
    more. *)
Lemma correspondences_rejects (labels1 labels2 : ndarray) :
  length (data labels1) = length (data labels2) ->
  (exists v, (In v (data labels1) \/ In v (data labels2)) /\ v < 0)
  \/ (exists v, In v (data labels2) /\ q <= v) ->
  correspondences labels1 labels2 = Raise AssertionError.
Proof.
  intros Hlen H.
  assert (Hne : data labels1 <> [] /\ data labels2 <> []).
  { destruct H as [(v & [Hin | Hin] & _) | (v & Hin & _)];
      destruct (data labels1), (data labels2); simpl in *;
      try discriminate; try contradiction; split; discriminate. }
  destruct Hne as [Hne1 Hne2].
  destruct (np_amin_exists labels1 Hne1) as (m1 & Hm1).
  destruct (np_amin_exists labels2 Hne2) as (m2 & Hm2).
  unfold correspondences. rewrite Hm1. simpl bind.
  destruct (0 <=? m1) eqn:E1; [|reflexivity].
  rewrite Hm2. simpl bind.
  destruct (0 <=? m2) eqn:E2; [|reflexivity].
  simpl bind. apply Z.leb_le in E1, E2.
  destruct H as [(v & [Hin | Hin] & Hv) | (v & Hin & Hv)].
  - destruct (np_amin_negative labels1 Hin Hv) as (m & Hm & Hneg).
    rewrite Hm1 in Hm. injection Hm as ->. lia.
  - destruct (np_amin_negative labels2 Hin Hv) as (m & Hm & Hneg).
    rewrite Hm2 in Hm. injection Hm as ->. lia.
  - destruct (np_amax_large labels2 Hin Hv) as (m & Hm & Hbig).
    rewrite Hm. simpl bind.
    replace (m <? q) with false by (symmetry; apply Z.ltb_ge; lia).
    reflexivity.
Qed.

Lemma pack_injective_on (p p' : Z * Z) :
  0 <= snd p < q -> 0 <= snd p' < q -> pack p = pack p' -> p = p'.
Proof.
  destruct p as [a b], p' as [a' b']. unfold pack. simpl. intros Hb Hb' H.
  destruct (unpack_pack a Hb) as [H1 H2].
  destruct (unpack_pack a' Hb') as [H1' H2'].
  rewrite H in H1, H2. congruence.
Qed.

(** The columns of the result: the pairs the pixels carry, each once, in
    ascending order of the packed value. *)
Lemma correspondences_columns (labels1 labels2 : ndarray) :
  shape labels1 = shape labels2 ->
  length (data labels1) = length (data labels2) ->
  data labels1 <> [] ->
  Forall (fun v => 0 <= v) (data labels1) ->
  Forall (fun v => 0 <= v < q) (data labels2) ->
  packing_fits labels1 labels2 ->
  exists cors,
    correspondences labels1 labels2 = Ok cors
    /\ shape cors = [2%nat; length (columns cors)]
    /\ (forall a b, In (a, b) (columns cors)
                    <-> In (a, b) (pixel_pairs labels1 labels2))
    /\ NoDup (columns cors)
    /\ StronglySorted Z.lt (map pack (columns cors)).
Proof.
  intros Hsh Hlen Hne H1 H2 Hfit.
  pose proof (@Forall_combine_join (fun a => 0 <= a) (fun b => 0 <= b < q)
                _ _ H1 H2) as Hacc.
  destruct (correspondences_value Hsh Hlen Hne Hacc Hfit)
    as (cors & Hc & Hshape & Hcols).
  exists cors. split; [exact Hc|]. split; [exact Hshape|].
  set (U := sort_unique (map pack (pixel_pairs labels1 labels2))) in *.
  assert (Hpack : map pack (columns cors) = U).
  { rewrite Hcols, map_map. rewrite <- (map_id U) at 2.
    apply map_ext. intro v. apply pack_unpack. }
  pose proof (sort_unique_sorted (map pack (pixel_pairs labels1 labels2)))
    as Hsorted. fold U in Hsorted.
  rewrite Forall_forall in Hacc.
  split; [|split].
  - intros a b. rewrite Hcols, in_map_iff. split.
    + intros (v & Hv & Hin). unfold U in Hin.
      apply (proj1 (sort_unique_In _ _)) in Hin. apply in_map_iff in Hin.
      destruct Hin as ([a' b'] & <- & Hin).
      destruct (Hacc _ Hin) as [_ Hb]. simpl in Hb. unfold pack in Hv.
      simpl in Hv. destruct (unpack_pack a' Hb) as [Hd Hm].
      rewrite Hd, Hm in Hv. injection Hv as <- <-. exact Hin.
    + intro Hin. exists (pack (a, b)). split.
      * destruct (Hacc _ Hin) as [_ Hb]. simpl in Hb. unfold pack. simpl.
        destruct (unpack_pack a Hb) as [Hd Hm]. rewrite Hd, Hm. reflexivity.
      * unfold U. apply sort_unique_In. apply in_map. exact Hin.
  - apply (NoDup_map_inv pack). rewrite Hpack.
    apply strictly_sorted_NoDup. exact Hsorted.
  - rewrite Hpack. exact Hsorted.
Qed.

(** C4, amended: for label arrays of one shape with no negative value and
    [max(labels2) < 100000], whose packed values [a * 100000 + b] fit the
    integer type NumPy computes them in, [correspondences] returns a
    two-row array whose columns are exactly the pairs of labels some pixel
    carries, each once, in ascending order of the packed value.  A negative
    value, or a second label of 100000 or more, raises AssertionError. *)
Theorem correspondences_pairs (labels1 labels2 : ndarray) :
  shape labels1 = shape labels2 ->
  length (data labels1) = length (data labels2) ->
  (data labels1 <> [] ->
   Forall (fun v => 0 <= v) (data labels1) ->
   Forall (fun v => 0 <= v < q) (data labels2) ->
   packing_fits labels1 labels2 ->
   exists cors,
     correspondences labels1 labels2 = Ok cors
     /\ shape cors = [2%nat; length (columns cors)]
     /\ (forall a b, In (a, b) (columns cors)
                     <-> In (a, b) (pixel_pairs labels1 labels2))
     /\ NoDup (columns cors)
     /\ StronglySorted Z.lt (map pack (columns cors)))
  /\ ((exists v, (In v (data labels1) \/ In v (data labels2)) /\ v < 0)
      \/ (exists v, In v (data labels2) /\ q <= v) ->
      correspondences labels1 labels2 = Raise AssertionError).
Proof.
  intros Hsh Hlen. split.
  - apply correspondences_columns; assumption.
  - apply correspondences_rejects. exact Hlen.
Qed.

Lemma correspondences_pairs_witness :
  exists cors,
    correspondences (img int32 [1; 7]%nat [1; 1; 0; 2; 0; 0; 3])
                    (img int32 [1; 7]%nat [5; 7; 0; 0; 0; 9; 9]) = Ok cors
    /\ columns cors = [(0, 0); (0, 9); (1, 5); (1, 7); (2, 0); (3, 9)]
    /\ NoDup (columns cors)
    /\ correspondences (img int32 [1; 2]%nat [1; 1])
                       (img int32 [1; 2]%nat [5; 100000])
       = Raise AssertionError.
Proof.
  pose proof (@correspondences_pairs
                (img int32 [1; 7]%nat [1; 1; 0; 2; 0; 0; 3])
                (img int32 [1; 7]%nat [5; 7; 0; 0; 0; 9; 9])
                eq_refl eq_refl) as [H _].
  destruct H as (cors & Hc & _ & _ & Hnd & _).
  - discriminate.
  - repeat constructor; lia.
  - unfold q. repeat constructor; lia.
  - unfold packing_fits. repeat constructor; vm_compute; discriminate.
  - exists cors. split; [exact Hc|]. split.
    + vm_compute in Hc. injection Hc as <-. reflexivity.
    + split; [exact Hnd|].
      apply (@correspondences_pairs (img int32 [1; 2]%nat [1; 1])
               (img int32 [1; 2]%nat [5; 100000]) eq_refl eq_refl).
      right. exists 100000. split; [simpl; auto|unfold q; lia].
Defined.

(** C4 as stated fails when the packed value leaves the integer type: for
    32-bit label maps, label 21475 times 100000 wraps around, and the
    returned pair is not one any pixel carries. *)
Lemma correspondences_wraps_int32 :
  let labels1 := img int32 [1; 1]%nat [21475] in
  let labels2 := img int32 [1; 1]%nat [0] in
  exists cors,
    correspondences labels1 labels2 = Ok cors
    /\ columns cors = [(-21475, 32704)]
    /\ ~ (forall a b, In (a, b) (columns cors)
                      <-> In (a, b) (pixel_pairs labels1 labels2)).
Proof.
  eexists. split; [reflexivity|]. split; [reflexivity|].
  intro H. specialize (H 21475 0). destruct H as [_ H].
  assert (Hin : In (21475, 0) [(-21475, 32704)])
    by (apply H; left; reflexivity).
  destruct Hin as [Hin | []]. discriminate.
Qed.

(** ** Propagating labels *)

Lemma nth_list_set (l : list Z) (i k : nat) (v d : Z) :
  (i < length l)%nat ->
  nth k (list_set l i v) d = if Nat.eqb k i then v else nth k l d.
Proof.
  revert i k. induction l as [|x l IH]; intros i k Hi; simpl in *; [lia|].
  destruct i as [|i], k as [|k]; simpl; try reflexivity.
  apply IH. lia.
Qed.

Lemma list_set_length (l : list Z) (i : nat) (v : Z) :
  length (list_set l i v) = length l.
Proof.
  revert i. induction l as [|x l IH]; intros i; simpl; [reflexivity|].
  destruct i; simpl; [reflexivity|]. rewrite IH. reflexivity.
Qed.

Lemma setitem_in_range (a : ndarray) (o v : Z) :
  0 <= o < Z.of_nat (length (data a)) ->
  setitem a o v
  = Ok {| a_dtype := a_dtype a; shape := shape a;
          data := list_set (data a) (Z.to_nat o) (cast (a_dtype a) v) |}.
Proof.
  intro H. unfold setitem, norm_index.
  replace ((0 <=? o) && (o <? Z.of_nat (length (data a)))) with true;
    [reflexivity|].
  symmetry. apply andb_true_iff. split; [apply Z.leb_le|apply Z.ltb_lt]; lia.
Qed.

Lemma fold_proj (f : Z -> Z -> Z) (k : Z) (P : list (Z * Z)) (init : Z) :
  fold_left (fun cur oi => if fst oi =? k then f cur (snd oi) else cur) P init
  = fold_left f (proj k P) init.
Proof.
  unfold proj. revert init. induction P as [|[o i] P IH]; intro init; simpl;
    [reflexivity|].
  destruct (o =? k); simpl; apply IH.
Qed.

Lemma proj_In (k i : Z) (P : list (Z * Z)) : In i (proj k P) <-> In (k, i) P.
Proof.
  unfold proj. rewrite in_map_iff. split.
  - intros ([o i'] & Hs & Hf). simpl in Hs. subst i'.
    apply filter_In in Hf. destruct Hf as [Hin Hk]. simpl in Hk.
    apply Z.eqb_eq in Hk. subst o. exact Hin.
  - intro Hin. exists (k, i). split; [reflexivity|].
    apply filter_In. split; [exact Hin|]. simpl. apply Z.eqb_refl.
Qed.

Lemma proj_sorted (k : Z) (P : list (Z * Z)) :
  StronglySorted Z.lt (map pack P) -> StronglySorted Z.lt (proj k P).
Proof.
  unfold proj. induction P as [|[o i] P IH]; intro H; simpl; [constructor|].
  simpl in H. inversion H as [|? ? Hs Hf]; subst.
  destruct (o =? k) eqn:E; simpl; [|apply IH; exact Hs].
  apply Z.eqb_eq in E. subst o.
  constructor; [apply IH; exact Hs|].
  apply Forall_forall. intros i' Hi'.
  apply (proj1 (proj_In k i' P)) in Hi'.
  rewrite Forall_forall in Hf.
  specialize (Hf (pack (k, i')) (in_map pack _ _ Hi')).
  unfold pack in Hf. simpl in Hf. lia.
Qed.

(** A loop that rewrites one cell per pair. *)
Section CellLoop.

Variable body : ndarray -> Z * Z -> result ndarray.
Variable upd : Z -> Z -> Z.

Hypothesis body_cell : forall outs o i,
    0 <= o < Z.of_nat (length (data outs)) ->
    body outs (o, i)
    = Ok {| a_dtype := a_dtype outs; shape := shape outs;
            data := list_set (data outs) (Z.to_nat o)
                             (cast (a_dtype outs) (upd (at_pos outs o) i)) |}.

Lemma cell_loop (P : list (Z * Z)) :
  forall outs,
    Forall (fun oi => 0 <= fst oi < Z.of_nat (length (data outs))) P ->
    exists outs',
      for_loop body P outs = Ok outs'
      /\ a_dtype outs' = a_dtype outs
      /\ shape outs' = shape outs
      /\ length (data outs') = length (data outs)
      /\ forall k, 0 <= k < Z.of_nat (length (data outs)) ->
           at_pos outs' k
           = fold_left (fun cur i => cast (a_dtype outs) (upd cur i))
                       (proj k P) (at_pos outs k).
Proof.
  induction P as [|[o i] P IH]; intros outs HP.
  - exists outs. simpl. repeat split; reflexivity.
  - inversion HP as [|? ? Ho HP']; subst. simpl in Ho.
    simpl for_loop. rewrite (body_cell outs i Ho). simpl bind.
    set (outs1 := {| a_dtype := a_dtype outs; shape := shape outs;
                     data := list_set (data outs) (Z.to_nat o)
                               (cast (a_dtype outs) (upd (at_pos outs o) i)) |}).
    assert (Hl1 : length (data outs1) = length (data outs))
      by apply list_set_length.
    destruct (IH outs1) as (outs' & Hloop & Hdt & Hsh & Hlen & Hcells).
    { rewrite Hl1. exact HP'. }
    exists outs'. split; [exact Hloop|].
    split; [rewrite Hdt; reflexivity|]. split; [rewrite Hsh; reflexivity|].
    split; [lia|].
    intros k Hk. rewrite Hcells by lia. simpl a_dtype.
    rewrite <- !fold_proj. simpl fold_left. f_equal.
    unfold at_pos at 1. simpl data. rewrite nth_list_set by lia.
    destruct (o =? k) eqn:E.
    + apply Z.eqb_eq in E. subst k. rewrite Nat.eqb_refl. reflexivity.
    + apply Z.eqb_neq in E.
      replace (Nat.eqb (Z.to_nat k) (Z.to_nat o)) with false; [reflexivity|].
      symmetry. apply Nat.eqb_neq. lia.
Qed.

End CellLoop.

Lemma getitem_value (a : ndarray) (k : Z) :
  0 <= k < Z.of_nat (length (data a)) -> getitem a k = Ok (at_pos a k).
Proof. apply getitem_in_range. Qed.

Lemma simple_body_cell (outs : ndarray) (o i : Z) :
  0 <= o < Z.of_nat (length (data outs)) ->
  setitem outs (fst (o, i)) (snd (o, i))
  = Ok {| a_dtype := a_dtype outs; shape := shape outs;
          data := list_set (data outs) (Z.to_nat o)
                           (cast (a_dtype outs)
                                 (upd_simple (at_pos outs o) i)) |}.
Proof. intro H. simpl. apply setitem_in_range. exact H. Qed.

Lemma conflict_body_cell (outs : ndarray) (o i : Z) :
  0 <= o < Z.of_nat (length (data outs)) ->
  (cur <- getitem outs (fst (o, i)) ;;
   if negb (cur =? 0) then setitem outs (fst (o, i)) oops
   else setitem outs (fst (o, i)) (snd (o, i)))
  = Ok {| a_dtype := a_dtype outs; shape := shape outs;
          data := list_set (data outs) (Z.to_nat o)
                           (cast (a_dtype outs)
                                 (upd_conflict (at_pos outs o) i)) |}.
Proof.
  intro H. simpl fst. simpl snd. rewrite getitem_in_range by exact H.
  simpl bind. unfold upd_conflict.
  destruct (negb (at_pos outs o =? 0)); apply setitem_in_range; exact H.
Qed.

Lemma np_amax_bounds (a : ndarray) :
  data a <> [] ->
  exists m, np_amax a = Ok m /\ In m (data a)
            /\ Forall (fun v => v <= m) (data a).
Proof.
  unfold np_amax. destruct (data a) as [|x xs]; [congruence|]. intros _.
  eexists. split; [reflexivity|]. split.
  - unfold list_max. clear. induction xs as [|y ys IH]; simpl; [auto|].
    destruct (Z.max_spec y (fold_right Z.max x ys)) as [[_ ->] | [_ ->]].
    + destruct IH as [IH | IH]; [left; exact IH|right; right; exact IH].
    + right. left. reflexivity.
  - apply list_max_le. lia.
Qed.

Lemma np_zeros_value (n : Z) :
  0 <= n ->
  np_zeros n = Ok {| a_dtype := int32; shape := [Z.to_nat n];
                     data := repeat 0 (Z.to_nat n) |}.
Proof.
  intro H. unfold np_zeros.
  replace (n <? 0) with false by (symmetry; apply Z.ltb_ge; lia). reflexivity.
Qed.

Lemma at_pos_zeros (n : nat) (dt : dtype) (sh : list nat) (k : Z) :
  at_pos {| a_dtype := dt; shape := sh; data := repeat 0 n |} k = 0.
Proof.
  unfold at_pos. simpl. generalize (Z.to_nat k) as i. clear.
  induction n as [|n IH]; intros [|i]; simpl; auto.
Qed.

Lemma take_value (outs idx : ndarray) :
  Forall (fun v => 0 <= v < Z.of_nat (length (data outs))) (data idx) ->
  take outs idx
  = Ok {| a_dtype := a_dtype outs; shape := shape idx;
          data := map (at_pos outs) (data idx) |}.
Proof.
  intro H. unfold take.
  rewrite (map_result_ok (getitem outs) (at_pos outs)); [reflexivity|].
  rewrite Forall_forall in H. intros x Hx. apply getitem_in_range. auto.
Qed.

Lemma fold_left_last (g : Z -> Z) (L : list Z) (init : Z) :
  fold_left (fun _ i => g i) L init
  = match L with [] => init | _ => g (last L 0) end.
Proof.
  revert init. induction L as [|x L IH]; intro init; [reflexivity|].
  simpl fold_left. rewrite IH. destruct L; reflexivity.
Qed.

Lemma sorted_last_max (L : list Z) :
  StronglySorted Z.lt L -> L <> [] ->
  In (last L 0) L /\ Forall (fun x => x <= last L 0) L.
Proof.
  induction 1 as [|x L Hs IH Hf]; intro Hne; [congruence|].
  destruct L as [|y L'].
  - simpl. split; [auto|]. constructor; [lia|constructor].
  - destruct (IH ltac:(discriminate)) as [Hin Hall].
    change (last (x :: y :: L') 0) with (last (y :: L') 0).
    split; [right; exact Hin|].
    constructor; [|exact Hall].
    rewrite Forall_forall in Hf. specialize (Hf _ Hin). lia.
Qed.

Lemma pixel_pair_at (a b : ndarray) (p : Z) :
  length (data a) = length (data b) ->
  0 <= p < Z.of_nat (length (data a)) ->
  In (at_pos a p, at_pos b p) (pixel_pairs a b).
Proof.
  intros Hlen Hp. unfold pixel_pairs, at_pos.
  rewrite <- (combine_nth (data a) (data b) (Z.to_nat p) 0 0 Hlen).
  apply nth_In. rewrite length_combine. lia.
Qed.

(** What both propagation functions compute before their loop. *)
Lemma propagate_setup (rlabels labels : ndarray) :
  shape rlabels = shape labels ->
  length (data rlabels) = length (data labels) ->
  data rlabels <> [] ->
  Forall (fun v => 0 <= v) (data rlabels) ->
  Forall (fun v => 0 <= v < q) (data labels) ->
  packing_fits rlabels labels ->
  exists cors hi,
    correspondences rlabels labels = Ok cors
    /\ np_amax rlabels = Ok hi
    /\ 0 <= hi
    /\ Forall (fun v => 0 <= v < hi + 1) (data rlabels)
    /\ Forall (fun oi => 0 <= fst oi < hi + 1) (columns cors)
    /\ StronglySorted Z.lt (map pack (columns cors))
    /\ (forall k v, In (k, v) (columns cors) <-> overlaps rlabels labels k v).
Proof.
  intros Hsh Hlen Hne H1 H2 Hfit.
  destruct (correspondences_columns Hsh Hlen Hne H1 H2 Hfit)
    as (cors & Hc & _ & Hin & _ & Hsorted).
  destruct (np_amax_bounds rlabels Hne) as (hi & Hhi & Hhin & Hle).
  exists cors, hi. split; [exact Hc|]. split; [exact Hhi|].
  rewrite Forall_forall in H1, Hle.
  assert (Hrange : Forall (fun v => 0 <= v < hi + 1) (data rlabels)).
  { apply Forall_forall. intros v Hv. specialize (H1 v Hv).
    specialize (Hle v Hv). lia. }
  split; [specialize (H1 hi Hhin); lia|]. split; [exact Hrange|].
  split; [|split; [exact Hsorted|exact Hin]].
  apply Forall_forall. intros [o i] Hoi. simpl.
  apply Hin in Hoi. unfold pixel_pairs in Hoi. apply in_combine_l in Hoi.
  rewrite Forall_forall in Hrange. apply Hrange. exact Hoi.
Qed.

Lemma conflict_step_zero (i : Z) : 0 <= i < q -> conflict_step 0 i = i.
Proof.
  intro H. unfold conflict_step, upd_conflict. simpl negb. cbv iota.
  apply cast_fits. unfold fits, q in *. simpl. lia.
Qed.

Lemma conflict_step_nonzero (cur i : Z) : cur <> 0 -> conflict_step cur i = oops.
Proof.
  intro H. unfold conflict_step, upd_conflict.
  replace (cur =? 0) with false by (symmetry; apply Z.eqb_neq; exact H).
  reflexivity.
Qed.

Lemma conflict_run_oops (L : list Z) : fold_left conflict_step L oops = oops.
Proof.
  induction L as [|x L IH]; simpl; [reflexivity|].
  rewrite conflict_step_nonzero by discriminate. exact IH.
Qed.

Lemma conflict_run_nonzero (L : list Z) (cur : Z) :
  cur <> 0 ->
  fold_left conflict_step L cur = match L with [] => cur | _ => oops end.
Proof.
  intro H. destruct L as [|x L]; simpl; [reflexivity|].
  rewrite conflict_step_nonzero by exact H. apply conflict_run_oops.
Qed.

Lemma conflict_run (L : list Z) :
  StronglySorted Z.lt L ->
  Forall (fun x => 0 <= x < q) L ->
  let r := fold_left conflict_step L 0 in
  ((forall x, In x L -> x = 0) -> r = 0)
  /\ (forall v, v <> 0 -> In v L ->
                (forall x, In x L -> x = 0 \/ x = v) -> r = v)
  /\ (forall v w, In v L -> In w L -> v <> 0 -> w <> 0 -> v <> w ->
                  r = oops).
Proof.
  intros Hs Hr. destruct L as [|x [|y L']]; simpl.
  - split; [|split]; intros; try reflexivity; contradiction.
  - inversion Hr as [|? ? Hx _]; subst.
    rewrite conflict_step_zero by exact Hx. split; [|split].
    + intro H. apply H. left. reflexivity.
    + intros v _ [-> | []] _. reflexivity.
    + intros v w [<- | []] [<- | []] _ _ H. congruence.
  - inversion Hr as [|? ? Hx Hr']; subst.
    inversion Hr' as [|? ? Hy Hr'']; subst.
    inversion Hs as [|? ? Hs' Hfx]; subst.
    inversion Hs' as [|? ? Hs'' Hfy]; subst.
    inversion Hfx as [|? ? Hxy Hfx']; subst.
    rewrite Forall_forall in Hfy, Hfx'.
    rewrite (conflict_step_zero Hx).
    destruct (Z.eq_dec x 0) as [-> | Hx0].
    + rewrite (conflict_step_zero Hy).
      rewrite conflict_run_nonzero by lia.
      split; [|split].
      * intro H. specialize (H y (or_intror (or_introl eq_refl))). lia.
      * intros v Hv Hin Hall.
        destruct (Hall y (or_intror (or_introl eq_refl))) as [? | ->]; [lia|].
        destruct L' as [|z L'']; [reflexivity|].
        specialize (Hfy z (or_introl eq_refl)).
        destruct (Hall z (or_intror (or_intror (or_introl eq_refl)))); lia.
      * intros v w Hv Hw Hv0 Hw0 Hvw.
        destruct L' as [|z L'']; [|reflexivity].
        destruct Hv as [Hv | [Hv | []]]; destruct Hw as [Hw | [Hw | []]];
          congruence.
    + rewrite (conflict_step_nonzero y Hx0). rewrite conflict_run_oops.
      split; [|split].
      * intro H. specialize (H x (or_introl eq_refl)). contradiction.
      * intros v Hv Hin Hall.
        destruct (Hall x (or_introl eq_refl)) as [? | ->]; [contradiction|].
        destruct (Hall y (or_intror (or_introl eq_refl))); lia.
      * reflexivity.
Qed.

Lemma at_pos_list_set (dt : dtype) (sh : list nat) (l : list Z) (i : nat)
      (v k : Z) :
  (i < length l)%nat ->
  at_pos {| a_dtype := dt; shape := sh; data := list_set l i v |} k
  = if Nat.eqb (Z.to_nat k) i then v else nth (Z.to_nat k) l 0.
Proof. intro H. unfold at_pos. simpl data. apply nth_list_set. exact H. Qed.

Lemma at_pos_set_where_eq (a : ndarray) (x v k : Z) :
  0 <= k < Z.of_nat (length (data a)) ->
  at_pos (set_where_eq a x v) k
  = if at_pos a k =? x then cast (a_dtype a) v else at_pos a k.
Proof.
  intro H. unfold at_pos, set_where_eq. simpl data.
  rewrite (nth_map_in _ _ 0) by lia. reflexivity.
Qed.

Section PropagateFacts.

Variable kwargs : Type.
Variable no_kw : kwargs.
Variable measurements_label : ndarray -> kwargs -> result (ndarray * Z).



End PropagateFacts.

(** ** Concrete runs of the propagation functions *)

Lemma labelling_row7 :
  labelling_of (img uint8 [1; 7]%nat [1; 1; 0; 1; 0; 0; 1])
               (img int32 [1; 7]%nat [1; 1; 0; 2; 0; 0; 3]).
Proof.
  unfold labelling_of. simpl. repeat split; try reflexivity.
  - repeat constructor; lia.
  - intro p. unfold at_pos. simpl.
    destruct (Z.to_nat p) as [|[|[|[|[|[|[|k]]]]]]]; simpl;
      intro H; try reflexivity; try discriminate.
    destruct k; reflexivity.
Qed.

Lemma packing_fits_row7 :
  packing_fits (img int32 [1; 7]%nat [1; 1; 0; 2; 0; 0; 3])
               (img int32 [1; 7]%nat [5; 7; 0; 0; 0; 9; 9]).
Proof. unfold packing_fits. repeat constructor; vm_compute; discriminate. Qed.



(** ** Packed values that leave the integer type *)

Lemma norm_index_cell (n : nat) (o : Z) :
  - Z.of_nat n <= o < Z.of_nat n ->
  norm_index n o = Ok (Z.to_nat (cell_of (Z.of_nat n) o))
  /\ 0 <= cell_of (Z.of_nat n) o < Z.of_nat n.
Proof.
  intro H. unfold norm_index, cell_of.
  destruct (o <? 0) eqn:E.
  - apply Z.ltb_lt in E.
    replace (0 <=? o) with false by (symmetry; apply Z.leb_gt; lia).
    simpl.
    replace (- Z.of_nat n <=? o) with true by (symmetry; apply Z.leb_le; lia).
    simpl. split; [reflexivity|lia].
  - apply Z.ltb_ge in E.
    replace (0 <=? o) with true by (symmetry; apply Z.leb_le; lia).
    replace (o <? Z.of_nat n) with true by (symmetry; apply Z.ltb_lt; lia).
    simpl. split; [reflexivity|lia].
Qed.

Lemma setitem_wrapping (a : ndarray) (o v : Z) :
  - Z.of_nat (length (data a)) <= o < Z.of_nat (length (data a)) ->
  setitem a o v
  = Ok {| a_dtype := a_dtype a; shape := shape a;
          data := list_set (data a)
                    (Z.to_nat (cell_of (Z.of_nat (length (data a))) o))
                    (cast (a_dtype a) v) |}.
Proof.
  intro H. unfold setitem. destruct (norm_index_cell _ H) as [-> _].
  reflexivity.
Qed.

Lemma getitem_wrapping (a : ndarray) (o : Z) :
  - Z.of_nat (length (data a)) <= o < Z.of_nat (length (data a)) ->
  getitem a o = Ok (at_pos a (cell_of (Z.of_nat (length (data a))) o)).
Proof.
  intro H. unfold getitem. destruct (norm_index_cell _ H) as [-> _].
  reflexivity.
Qed.

Lemma fold_proj_cell (f : Z -> Z -> Z) (len k : Z) (P : list (Z * Z))
      (init : Z) :
  fold_left (fun cur oi => if cell_of len (fst oi) =? k then f cur (snd oi)
                           else cur) P init
  = fold_left f (proj_cell len k P) init.
Proof.
  unfold proj_cell. revert init.
  induction P as [|[o i] P IH]; intro init; simpl; [reflexivity|].
  destruct (cell_of len o =? k); simpl; apply IH.
Qed.

(** The loops again, with indices that may count from the end. *)
Section WrappingLoop.

Variable body : ndarray -> Z * Z -> result ndarray.
Variable upd : Z -> Z -> Z.

Hypothesis body_cell : forall outs o i,
    - Z.of_nat (length (data outs)) <= o < Z.of_nat (length (data outs)) ->
    body outs (o, i)
    = Ok {| a_dtype := a_dtype outs; shape := shape outs;
            data := list_set (data outs)
                      (Z.to_nat (cell_of (Z.of_nat (length (data outs))) o))
                      (cast (a_dtype outs)
                            (upd (at_pos outs
                                    (cell_of (Z.of_nat (length (data outs))) o))
                                 i)) |}.

Lemma wrapping_loop (P : list (Z * Z)) :
  forall (outs : ndarray) (len : Z),
    len = Z.of_nat (length (data outs)) ->
    Forall (fun oi => - len <= fst oi < len) P ->
    exists outs',
      for_loop body P outs = Ok outs'
      /\ a_dtype outs' = a_dtype outs
      /\ shape outs' = shape outs
      /\ length (data outs') = length (data outs)
      /\ forall k, 0 <= k < len ->
           at_pos outs' k
           = fold_left (fun cur i => cast (a_dtype outs) (upd cur i))
                       (proj_cell len k P) (at_pos outs k).
Proof.
  induction P as [|[o i] P IH]; intros outs len Hlen HP.
  - exists outs. simpl. repeat split; reflexivity.
  - inversion HP as [|? ? Ho HP']; subst. simpl in Ho.
    simpl for_loop. rewrite (body_cell outs i Ho). simpl bind.
    set (len := Z.of_nat (length (data outs))) in *.
    set (c := cell_of len o).
    assert (Hc : 0 <= c < len).
    { unfold c, len. apply norm_index_cell. exact Ho. }
    set (outs1 := {| a_dtype := a_dtype outs; shape := shape outs;
                     data := list_set (data outs) (Z.to_nat c)
                               (cast (a_dtype outs) (upd (at_pos outs c) i)) |}).
    assert (Hl1 : length (data outs1) = length (data outs))
      by apply list_set_length.
    destruct (IH outs1 len) as (outs' & Hloop & Hdt & Hsh & Hlen' & Hcells).
    { unfold len. rewrite Hl1. reflexivity. }
    { exact HP'. }
    exists outs'. split; [exact Hloop|].
    split; [rewrite Hdt; reflexivity|]. split; [rewrite Hsh; reflexivity|].
    split; [lia|].
    intros k Hk. rewrite Hcells by lia. simpl a_dtype.
    rewrite <- !fold_proj_cell. simpl fold_left. f_equal.
    unfold at_pos at 1. simpl data. rewrite nth_list_set by (unfold len in *; lia).
    fold c. destruct (c =? k) eqn:E.
    + apply Z.eqb_eq in E. subst k. rewrite Nat.eqb_refl. reflexivity.
    + apply Z.eqb_neq in E.
      replace (Nat.eqb (Z.to_nat k) (Z.to_nat c)) with false; [reflexivity|].
      symmetry. apply Nat.eqb_neq. lia.
Qed.

End WrappingLoop.

Lemma simple_body_wrapping (outs : ndarray) (o i : Z) :
  - Z.of_nat (length (data outs)) <= o < Z.of_nat (length (data outs)) ->
  setitem outs (fst (o, i)) (snd (o, i))
  = Ok {| a_dtype := a_dtype outs; shape := shape outs;
          data := list_set (data outs)
                    (Z.to_nat (cell_of (Z.of_nat (length (data outs))) o))
                    (cast (a_dtype outs)
                          (upd_simple
                             (at_pos outs
                                (cell_of (Z.of_nat (length (data outs))) o))
                             i)) |}.
Proof. intro H. simpl. apply setitem_wrapping. exact H. Qed.

Lemma conflict_body_wrapping (outs : ndarray) (o i : Z) :
  - Z.of_nat (length (data outs)) <= o < Z.of_nat (length (data outs)) ->
  (cur <- getitem outs (fst (o, i)) ;;
   if negb (cur =? 0) then setitem outs (fst (o, i)) oops
   else setitem outs (fst (o, i)) (snd (o, i)))
  = Ok {| a_dtype := a_dtype outs; shape := shape outs;
          data := list_set (data outs)
                    (Z.to_nat (cell_of (Z.of_nat (length (data outs))) o))
                    (cast (a_dtype outs)
                          (upd_conflict
                             (at_pos outs
                                (cell_of (Z.of_nat (length (data outs))) o))
                             i)) |}.
Proof.
  intro H. simpl fst. simpl snd. rewrite getitem_wrapping by exact H.
  simpl bind. unfold upd_conflict.
  destruct (negb (at_pos outs (cell_of (Z.of_nat (length (data outs))) o) =? 0));
    apply setitem_wrapping; exact H.
Qed.

Lemma list_eqb_Z_eq (a b : list Z) : list_eqb_Z a b = true -> a = b.
Proof.
  revert b. induction a as [|x a IH]; intros [|y b] H; simpl in H;
    try discriminate H; [reflexivity|].
  apply andb_true_iff in H. destruct H as [Hx Hr].
  apply Z.eqb_eq in Hx. subst y. f_equal. apply IH. exact Hr.
Qed.

Lemma ndarray_eqb_eq (a b : ndarray) : ndarray_eqb a b = true -> a = b.
Proof.
  unfold ndarray_eqb. intro H.
  apply andb_true_iff in H. destruct H as [H Hd].
  apply andb_true_iff in H. destruct H as [Ht Hs].
  apply dtype_eqb_eq in Ht. apply list_eqb_Z_eq in Hd.
  unfold list_eqb_nat in Hs.
  destruct (list_eq_dec Nat.eq_dec (shape a) (shape b)) as [Hs' | ];
    [|discriminate Hs].
  destruct a, b. simpl in *. congruence.
Qed.

Lemma returns_array_eq (r : result ndarray) (a : ndarray) :
  returns_array r a = true -> r = Ok a.
Proof.
  unfold returns_array. destruct r as [a'|e]; intro H; [|discriminate H].
  apply ndarray_eqb_eq in H. congruence.
Qed.

Lemma returns_labelling_eq (r : result (ndarray * Z)) (a : ndarray) (n : Z) :
  returns_labelling r a n = true -> r = Ok (a, n).
Proof.
  unfold returns_labelling. destruct r as [[a' n']|e]; intro H;
    [|discriminate H].
  apply andb_true_iff in H. destruct H as [Ha Hn].
  apply ndarray_eqb_eq in Ha. apply Z.eqb_eq in Hn. congruence.
Qed.

(** The crowded row, step by step. *)
Lemma crowded_label :
  label label_row crowded_regions tt = Ok (crowded_rlabels, 21475).
Proof. apply returns_labelling_eq. vm_compute. reflexivity. Qed.

Lemma crowded_correspondences :
  correspondences crowded_rlabels crowded_labels = Ok crowded_cors.
Proof. apply returns_array_eq. vm_compute. reflexivity. Qed.

Lemma crowded_amax : np_amax crowded_rlabels = Ok 21475.
Proof. vm_compute. reflexivity. Qed.

Lemma crowded_size : Z.of_nat (length (data crowded_rlabels)) = 42950.
Proof. vm_compute. reflexivity. Qed.

Lemma crowded_last_pixel :
  at_pos crowded_rlabels 42949 = 21475
  /\ at_pos crowded_labels 42949 = 7
  /\ at_pos crowded_rlabels 42948 = 21475
  /\ at_pos crowded_labels 42948 = 5.
Proof. repeat split; vm_compute; reflexivity. Qed.

Lemma crowded_indices :
  forallb (fun oi => (- 21476 <=? fst oi) && (fst oi <? 21476))
          (columns crowded_cors) = true.
Proof. vm_compute. reflexivity. Qed.

Lemma crowded_region_labels :
  forallb (fun v => (0 <=? v) && (v <? 21476)) (data crowded_rlabels) = true.
Proof. vm_compute. reflexivity. Qed.

(** No pair of the result addresses cell 21475: the pairs of region 21475
    address cell 1. *)
Lemma crowded_cells :
  proj_cell 21476 21475 (columns crowded_cors) = []
  /\ proj_cell 21476 1 (columns crowded_cors) = [32709; 32711; 0].
Proof. split; vm_compute; reflexivity. Qed.

Lemma crowded_overlaps :
  overlaps crowded_rlabels crowded_labels 21475 5
  /\ overlaps crowded_rlabels crowded_labels 21475 7.
Proof.
  destruct crowded_last_pixel as (H1 & H2 & H3 & H4).
  assert (Hlen : length (data crowded_rlabels) = length (data crowded_labels)).
  { apply Nat2Z.inj. vm_compute. reflexivity. }
  pose proof crowded_size as Hs.
  split.
  - rewrite <- H3 at 1. rewrite <- H4. apply pixel_pair_at; [exact Hlen|lia].
  - rewrite <- H1 at 1. rewrite <- H2. apply pixel_pair_at; [exact Hlen|lia].
Qed.

#[local] Opaque crowded_regions crowded_labels crowded_rlabels crowded_cors.

Lemma zeros_size (n : Z) (dt : dtype) (sh : list nat) :
  0 <= n ->
  Z.of_nat (length (data {| a_dtype := dt; shape := sh;
                            data := repeat 0 (Z.to_nat n) |})) = n.
Proof. intro H. simpl. rewrite repeat_length. lia. Qed.

(** Either loop over the pairs of the crowded row leaves cell 21475 at 0. *)
Lemma crowded_loop (body : ndarray -> Z * Z -> result ndarray)
      (upd : Z -> Z -> Z) :
  (forall outs o i,
      - Z.of_nat (length (data outs)) <= o < Z.of_nat (length (data outs)) ->
      body outs (o, i)
      = Ok {| a_dtype := a_dtype outs; shape := shape outs;
              data := list_set (data outs)
                        (Z.to_nat (cell_of (Z.of_nat (length (data outs))) o))
                        (cast (a_dtype outs)
                              (upd (at_pos outs
                                      (cell_of (Z.of_nat (length (data outs))) o))
                                   i)) |}) ->
  exists outs1,
    for_loop body (columns crowded_cors)
             {| a_dtype := int32; shape := [Z.to_nat 21476];
                data := repeat 0 (Z.to_nat 21476) |} = Ok outs1
    /\ a_dtype outs1 = int32
    /\ Z.of_nat (length (data outs1)) = 21476
    /\ at_pos outs1 21475 = 0.
Proof.
  intro Hbody.
  set (zeros := {| a_dtype := int32; shape := [Z.to_nat 21476];
                   data := repeat 0 (Z.to_nat 21476) |}).
  assert (Hz : Z.of_nat (length (data zeros)) = 21476)
    by (apply zeros_size; lia).
  destruct (@wrapping_loop body upd Hbody (columns crowded_cors) zeros 21476)
    as (outs1 & Hloop & Hdt & _ & Hlen & Hcells).
  - symmetry. exact Hz.
  - apply Forall_forall. intros oi Hin.
    pose proof (proj1 (forallb_forall _ _) crowded_indices oi Hin) as H.
    apply andb_true_iff in H. destruct H as [Ha Hb].
    apply Z.leb_le in Ha. apply Z.ltb_lt in Hb. lia.
  - exists outs1. split; [exact Hloop|]. split; [exact Hdt|].
    split; [rewrite Hlen; exact Hz|].
    rewrite Hcells by lia. destruct crowded_cells as [-> _].
    simpl fold_left. apply at_pos_zeros.
Qed.

(** The final lookup at the last pixel of the crowded row. *)
Lemma crowded_take (outs : ndarray) :
  Z.of_nat (length (data outs)) = 21476 ->
  exists out,
    (outputs <- setitem outs 0 0 ;; take outputs crowded_rlabels) = Ok out
    /\ at_pos out 42949 = at_pos outs 21475.
Proof.
  intro Hlen. rewrite setitem_in_range by lia. cbn [bind].
  change (Z.to_nat 0) with 0%nat.
  set (outs2 := {| a_dtype := a_dtype outs; shape := shape outs;
                   data := list_set (data outs) 0%nat (cast (a_dtype outs) 0) |}).
  assert (Hl2 : Z.of_nat (length (data outs2)) = 21476).
  { unfold outs2. simpl data. rewrite list_set_length. exact Hlen. }
  assert (Htake : Forall (fun v => 0 <= v < Z.of_nat (length (data outs2)))
                         (data crowded_rlabels)).
  { rewrite Hl2. apply Forall_forall. intros v Hin.
    pose proof (proj1 (forallb_forall _ _) crowded_region_labels v Hin) as H.
    apply andb_true_iff in H. destruct H as [Ha Hb].
    apply Z.leb_le in Ha. apply Z.ltb_lt in Hb. lia. }
  rewrite (take_value outs2 crowded_rlabels Htake).
  eexists. split; [reflexivity|].
  pose proof crowded_size as Hs.
  unfold at_pos at 1. simpl data.
  rewrite (nth_map_in _ _ 0) by lia.
  fold (at_pos crowded_rlabels 42949).
  destruct crowded_last_pixel as (-> & _).
  unfold outs2. rewrite at_pos_list_set by lia.
  replace (Nat.eqb (Z.to_nat 21475) 0) with false; [reflexivity|].
  symmetry. apply Nat.eqb_neq. lia.
Qed.



(** ** Uniform filters against min/max filters *)

Unset Implicit Arguments.

(** The reflected position of a window position is a position of the line
    that the centred window covers. *)
Lemma reflect_index_range (len t : Z) :
  0 < len -> 0 <= reflect_index len t < len.
Proof.
  intro H. unfold reflect_index.
  pose proof (Z.mod_pos_bound t (2 * len) ltac:(lia)) as Hm.
  destruct (t mod (2 * len) <? len) eqn:E;
    [apply Z.ltb_lt in E|apply Z.ltb_ge in E]; lia.
Qed.

Lemma reflect_index_inside (len t : Z) :
  0 <= t < len -> reflect_index len t = t.
Proof.
  intro H. unfold reflect_index.
  rewrite Z.mod_small by lia.
  replace (t <? len) with true by (symmetry; apply Z.ltb_lt; lia).
  reflexivity.
Qed.

Lemma reflect_index_left (len t : Z) :
  - len <= t < 0 -> reflect_index len t = - t - 1.
Proof.
  intro H. unfold reflect_index.
  assert (Hm : t mod (2 * len) = t + 2 * len).
  { symmetry. apply (Z.mod_unique t (2 * len) (-1)); lia. }
  rewrite Hm.
  replace (t + 2 * len <? len) with false by (symmetry; apply Z.ltb_ge; lia).
  lia.
Qed.

Lemma reflect_index_right (len t : Z) :
  len <= t < 2 * len -> reflect_index len t = 2 * len - 1 - t.
Proof.
  intro H. unfold reflect_index.
  rewrite Z.mod_small by lia.
  replace (t <? len) with false by (symmetry; apply Z.ltb_ge; lia).
  reflexivity.
Qed.

Lemma reflect_in_window (len s c t : Z) :
  0 < len -> 0 <= c < len -> 1 <= s ->
  c - s / 2 <= t < c - s / 2 + s ->
  0 <= reflect_index len t < len
  /\ c - s / 2 <= reflect_index len t < c - s / 2 + s.
Proof.
  intros Hlen Hc Hs Ht.
  pose proof (reflect_index_range len t Hlen) as Hr.
  split; [exact Hr|].
  pose proof (Z.div_mod s 2 ltac:(lia)) as Hdm.
  pose proof (Z.mod_pos_bound s 2 ltac:(lia)) as Hmb.
  destruct (Z_lt_dec t 0) as [Hneg | Hnn].
  - destruct (Z_le_dec (len - 1) (c - s / 2 + s - 1)) as [Hcov | Hncov].
    + lia.
    + rewrite reflect_index_left by lia. lia.
  - destruct (Z_lt_dec t len) as [Hin | Hout].
    + rewrite reflect_index_inside by lia. lia.
    + destruct (Z_le_dec (c - s / 2) 0) as [Hcov | Hncov].
      * lia.
      * rewrite reflect_index_right by lia. lia.
Qed.

(** Sums and means of windows of rationals. *)
Lemma Qsum_nonneg (w : list Q) :
  Forall (fun x => (0 <= x)%Q) w -> (0 <= Qsum w)%Q.
Proof.
  induction 1 as [|x w Hx _ IH]; simpl; [apply Qle_refl|].
  fold (Qsum w). lra.
Qed.

Lemma Qsum_zero (w : list Q) :
  Forall (fun x => (x == 0)%Q) w -> (Qsum w == 0)%Q.
Proof.
  induction 1 as [|x w Hx _ IH]; simpl; [reflexivity|].
  fold (Qsum w). lra.
Qed.

Lemma Qsum_positive (w : list Q) :
  Forall (fun x => (0 <= x)%Q) w -> Exists (fun x => (0 < x)%Q) w ->
  (0 < Qsum w)%Q.
Proof.
  intros Hall Hex. induction Hex as [x w Hx | x w Hex IH]; simpl;
    fold (Qsum w); inversion Hall as [|? ? Hx0 Hw]; subst.
  - pose proof (Qsum_nonneg w Hw). lra.
  - specialize (IH Hw). lra.
Qed.

Lemma Qsum_le_length (w : list Q) :
  Forall (fun x => (x <= 1)%Q) w ->
  (Qsum w <= inject_Z (Z.of_nat (length w)))%Q.
Proof.
  induction 1 as [|x w Hx _ IH]; simpl length; simpl Qsum.
  - apply Qle_refl.
  - fold (Qsum w). rewrite Nat2Z.inj_succ. unfold Z.succ.
    rewrite inject_Z_plus. change (inject_Z 1) with 1%Q. lra.
Qed.

Lemma Qsum_ones (w : list Q) :
  Forall (fun x => (x == 1)%Q) w ->
  (Qsum w == inject_Z (Z.of_nat (length w)))%Q.
Proof.
  induction 1 as [|x w Hx _ IH]; simpl length; simpl Qsum.
  - reflexivity.
  - fold (Qsum w). rewrite Nat2Z.inj_succ. unfold Z.succ.
    rewrite inject_Z_plus. change (inject_Z 1) with 1%Q. lra.
Qed.

Lemma Qsum_below_length (w : list Q) :
  Forall (fun x => (x <= 1)%Q) w -> Exists (fun x => (x < 1)%Q) w ->
  (Qsum w < inject_Z (Z.of_nat (length w)))%Q.
Proof.
  intros Hall Hex. induction Hex as [x w Hx | x w Hex IH]; simpl length;
    simpl Qsum; fold (Qsum w); inversion Hall as [|? ? Hx1 Hw]; subst;
    rewrite Nat2Z.inj_succ; unfold Z.succ; rewrite inject_Z_plus;
    change (inject_Z 1) with 1%Q.
  - pose proof (Qsum_le_length w Hw). lra.
  - specialize (IH Hw). lra.
Qed.

Lemma window_mean_positive (s : Z) (w : list Q) :
  0 < s ->
  Forall (fun x => (0 <= x)%Q) w -> Exists (fun x => (0 < x)%Q) w ->
  (0 < window_mean s w)%Q.
Proof.
  intros Hs Hall Hex. unfold window_mean. fold (Qsum w).
  pose proof (Qsum_positive w Hall Hex) as Hsum.
  assert (Hq : (0 < inject_Z s)%Q)
    by (change 0%Q with (inject_Z 0); rewrite <- Zlt_Qlt; exact Hs).
  apply Qlt_shift_div_l; [exact Hq|]. lra.
Qed.

Lemma window_mean_zero (s : Z) (w : list Q) :
  Forall (fun x => (x == 0)%Q) w -> (window_mean s w == 0)%Q.
Proof.
  intro Hall. unfold window_mean. fold (Qsum w).
  rewrite (Qsum_zero w Hall). unfold Qdiv. apply Qmult_0_l.
Qed.

Lemma window_mean_one (w : list Q) :
  w <> [] ->
  Forall (fun x => (x == 1)%Q) w ->
  (window_mean (Z.of_nat (length w)) w == 1)%Q.
Proof.
  intros Hne Hall. unfold window_mean. fold (Qsum w).
  rewrite (Qsum_ones w Hall).
  assert (Hq : (0 < inject_Z (Z.of_nat (length w)))%Q).
  { change 0%Q with (inject_Z 0). rewrite <- Zlt_Qlt.
    destruct w; [congruence|simpl; lia]. }
  field. intro E. rewrite E in Hq. apply (Qlt_irrefl 0). exact Hq.
Qed.

Lemma window_mean_below_one (w : list Q) :
  Forall (fun x => (0 <= x)%Q /\ (x <= 1)%Q) w ->
  Exists (fun x => (x < 1)%Q) w ->
  (0 <= window_mean (Z.of_nat (length w)) w)%Q
  /\ (window_mean (Z.of_nat (length w)) w < 1)%Q.
Proof.
  intros Hall Hex. unfold window_mean. fold (Qsum w).
  assert (H0 : Forall (fun x => (0 <= x)%Q) w)
    by (eapply Forall_impl; [|exact Hall]; simpl; tauto).
  assert (H1 : Forall (fun x => (x <= 1)%Q) w)
    by (eapply Forall_impl; [|exact Hall]; simpl; tauto).
  pose proof (Qsum_nonneg w H0) as Hn.
  pose proof (Qsum_below_length w H1 Hex) as Hb.
  assert (Hq : (0 < inject_Z (Z.of_nat (length w)))%Q) by lra.
  split.
  - apply Qle_shift_div_l; [exact Hq|]. lra.
  - apply Qlt_shift_div_r; [exact Hq|]. lra.
Qed.

(** Maximum and minimum of a window of zeros and ones. *)
Lemma list_max_binary (x : Z) (xs : list Z) :
  Forall (fun v => v = 0 \/ v = 1) (x :: xs) ->
  (Exists (fun v => v = 1) (x :: xs) /\ list_max x xs = 1)
  \/ (Forall (fun v => v = 0) (x :: xs) /\ list_max x xs = 0).
Proof.
  unfold list_max. induction xs as [|y ys IH]; intro H.
  - inversion H as [|? ? Hx _]; subst. destruct Hx as [-> | ->]; simpl.
    + right. split; [repeat constructor|reflexivity].
    + left. split; [left; reflexivity|reflexivity].
  - inversion H as [|? ? Hx Hr]; subst. inversion Hr as [|? ? Hy Hys]; subst.
    destruct (IH (Forall_cons _ Hx Hys)) as [[He Hm] | [Hf Hm]]; simpl;
      rewrite Hm.
    + left. split; [|destruct Hy as [-> | ->]; reflexivity].
      apply Exists_cons in He. destruct He as [He | He];
        [left; exact He|right; right; exact He].
    + destruct Hy as [-> | ->].
      * right. split; [|reflexivity].
        pose proof (Forall_inv Hf) as Hf1.
        pose proof (Forall_inv_tail Hf) as Hf2.
        constructor; [exact Hf1|]. constructor; [reflexivity|exact Hf2].
      * left. split; [right; left; reflexivity|reflexivity].
Qed.

Lemma list_min_binary (x : Z) (xs : list Z) :
  Forall (fun v => v = 0 \/ v = 1) (x :: xs) ->
  (Forall (fun v => v = 1) (x :: xs) /\ list_min x xs = 1)
  \/ (Exists (fun v => v = 0) (x :: xs) /\ list_min x xs = 0).
Proof.
  unfold list_min. induction xs as [|y ys IH]; intro H.
  - inversion H as [|? ? Hx _]; subst. destruct Hx as [-> | ->]; simpl.
    + right. split; [left; reflexivity|reflexivity].
    + left. split; [repeat constructor|reflexivity].
  - inversion H as [|? ? Hx Hr]; subst. inversion Hr as [|? ? Hy Hys]; subst.
    destruct (IH (Forall_cons _ Hx Hys)) as [[Hf Hm] | [He Hm]]; simpl;
      rewrite Hm.
    + destruct Hy as [-> | ->].
      * right. split; [right; left; reflexivity|reflexivity].
      * left. split; [|reflexivity].
        pose proof (Forall_inv Hf) as Hf1.
        pose proof (Forall_inv_tail Hf) as Hf2.
        constructor; [exact Hf1|]. constructor; [reflexivity|exact Hf2].
    + right. split; [|destruct Hy as [-> | ->]; reflexivity].
      apply Exists_cons in He. destruct He as [He | He];
        [left; exact He|right; right; exact He].
Qed.

(** One window of a centred pass, seen through the line it is taken from. *)
Section CentredWindow.

Variable B : Z -> Z.
Variable U : Z -> Q.
Variables len s c : Z.
Hypothesis len_pos : 0 < len.
Hypothesis c_range : 0 <= c < len.
Hypothesis s_pos : 1 <= s.

Lemma reflected_window_nonempty : (reflected_window B len s c) <> [].
Proof.
  unfold reflected_window. destruct (Z.to_nat s) eqn:E; [lia|]. discriminate.
Qed.

Lemma padded_window_length (cval : Q) :
  Z.of_nat (length ((padded_window U len s c cval))) = s.
Proof. unfold padded_window. rewrite length_map, length_seq. lia. Qed.

(** Every reflected element is an element of the line inside the window. *)
Lemma reflected_from_line (x : Z) :
  In x (reflected_window B len s c) ->
  exists t, 0 <= t < len /\ c - s / 2 <= t < c - s / 2 + s /\ x = B t.
Proof.
  unfold reflected_window. intro H. apply in_map_iff in H.
  destruct H as (j & <- & Hj). apply in_seq in Hj.
  destruct (reflect_in_window len s c (c - s / 2 + Z.of_nat j))
    as [H1 H2]; try assumption; try lia.
  eexists. split; [exact H1|]. split; [exact H2|reflexivity].
Qed.

Lemma line_in_reflected (t : Z) :
  0 <= t < len -> c - s / 2 <= t < c - s / 2 + s -> In (B t) (reflected_window B len s c).
Proof.
  intros Ht Hw. unfold reflected_window. apply in_map_iff.
  exists (Z.to_nat (t - (c - s / 2))). split.
  - rewrite Z2Nat.id by lia.
    replace (c - s / 2 + (t - (c - s / 2))) with t by lia.
    rewrite reflect_index_inside by exact Ht. reflexivity.
  - apply in_seq. lia.
Qed.

Lemma padded_from_line (cval x : Q) :
  In x ((padded_window U len s c cval)) ->
  x = cval
  \/ exists t, 0 <= t < len /\ c - s / 2 <= t < c - s / 2 + s /\ x = U t.
Proof.
  unfold padded_window. intro H. apply in_map_iff in H.
  destruct H as (j & <- & Hj). apply in_seq in Hj. cbv zeta.
  destruct ((0 <=? c - s / 2 + Z.of_nat j) && (c - s / 2 + Z.of_nat j <? len))
    eqn:E; [|left; reflexivity].
  apply andb_true_iff in E. destruct E as [E1 E2].
  apply Z.leb_le in E1. apply Z.ltb_lt in E2.
  right. eexists. split; [|split; [|reflexivity]]; lia.
Qed.

Lemma line_in_padded (cval : Q) (t : Z) :
  0 <= t < len -> c - s / 2 <= t < c - s / 2 + s ->
  In (U t) ((padded_window U len s c cval)).
Proof.
  intros Ht Hw. unfold padded_window. apply in_map_iff.
  exists (Z.to_nat (t - (c - s / 2))). split.
  - cbv zeta. rewrite Z2Nat.id by lia.
    replace (c - s / 2 + (t - (c - s / 2))) with t by lia.
    replace ((0 <=? t) && (t <? len)) with true; [reflexivity|].
    symmetry. apply andb_true_iff.
    split; [apply Z.leb_le|apply Z.ltb_lt]; lia.
  - apply in_seq. lia.
Qed.

Lemma dil_window :
  (forall t, dil_rel (B t) (U t)) ->
  dil_rel (window_max s (reflected_window B len s c))
          (window_mean s ((padded_window U len s c (0 # 1)%Q))).
Proof.
  intro HR.
  assert (Hbin : Forall (fun v => v = 0 \/ v = 1) (reflected_window B len s c)).
  { apply Forall_forall. intros x Hx.
    destruct (reflected_from_line x Hx) as (t & _ & _ & ->).
    destruct (HR t) as [[-> _] | [-> _]]; auto. }
  assert (Hnn : Forall (fun x => (0 <= x)%Q) ((padded_window U len s c (0 # 1)%Q))).
  { apply Forall_forall. intros x Hx.
    destruct (padded_from_line _ x Hx) as [-> | (t & _ & _ & ->)];
      [apply Qle_refl|].
    destruct (HR t) as [[_ H] | [_ H]]; lra. }
  pose proof reflected_window_nonempty as Hne.
  unfold window_max.
  destruct (reflected_window B len s c) as [|x xs] eqn:Ew; [congruence|].
  destruct (list_max_binary x xs Hbin) as [[Hex Hm] | [Hall Hm]]; rewrite Hm.
  - right. split; [reflexivity|].
    apply window_mean_positive; [lia|exact Hnn|].
    apply Exists_exists in Hex. destruct Hex as (v & Hv & ->).
    rewrite <- Ew in Hv.
    destruct (reflected_from_line _ Hv) as (t & Ht & Hw & HB).
    apply Exists_exists. exists (U t).
    split; [apply line_in_padded; assumption|].
    destruct (HR t) as [[H0 _] | [_ H]]; [congruence|exact H].
  - left. split; [reflexivity|].
    apply window_mean_zero. apply Forall_forall. intros u Hu.
    destruct (padded_from_line _ u Hu) as [-> | (t & Ht & Hw & ->)];
      [reflexivity|].
    pose proof (line_in_reflected t Ht Hw) as Hin. rewrite Ew in Hin.
    rewrite Forall_forall in Hall. specialize (Hall _ Hin).
    destruct (HR t) as [[_ H] | [H1 _]]; [exact H|congruence].
Qed.

Lemma ero_window :
  (forall t, ero_rel (B t) (U t)) ->
  ero_rel (window_min s (reflected_window B len s c))
          (window_mean s ((padded_window U len s c (1 # 1)%Q))).
Proof.
  intro HR.
  assert (Hbin : Forall (fun v => v = 0 \/ v = 1) (reflected_window B len s c)).
  { apply Forall_forall. intros x Hx.
    destruct (reflected_from_line x Hx) as (t & _ & _ & ->).
    destruct (HR t) as [[-> _] | [-> _]]; auto. }
  assert (Hunit : Forall (fun x => (0 <= x)%Q /\ (x <= 1)%Q)
                         ((padded_window U len s c (1 # 1)%Q))).
  { apply Forall_forall. intros x Hx.
    destruct (padded_from_line _ x Hx) as [-> | (t & _ & _ & ->)];
      [split; [discriminate|apply Qle_refl]|].
    destruct (HR t) as [[_ H] | [_ [H1 H2]]]; split; lra. }
  pose proof reflected_window_nonempty as Hne.
  pose proof (padded_window_length (1 # 1)%Q) as Hlen.
  assert (Hpne : (padded_window U len s c (1 # 1)%Q) <> []).
  { intro E. rewrite E in Hlen. simpl in Hlen. lia. }
  rewrite <- Hlen at 3.
  unfold window_min.
  destruct (reflected_window B len s c) as [|x xs] eqn:Ew; [congruence|].
  destruct (list_min_binary x xs Hbin) as [[Hall Hm] | [Hex Hm]]; rewrite Hm.
  - left. split; [reflexivity|].
    apply window_mean_one; [exact Hpne|].
    apply Forall_forall. intros u Hu.
    destruct (padded_from_line _ u Hu) as [-> | (t & Ht & Hw & ->)];
      [reflexivity|].
    pose proof (line_in_reflected t Ht Hw) as Hin. rewrite Ew in Hin.
    rewrite Forall_forall in Hall. specialize (Hall _ Hin).
    destruct (HR t) as [[_ H] | [H0 _]]; [exact H|congruence].
  - right. split; [reflexivity|].
    apply window_mean_below_one; [exact Hunit|].
    apply Exists_exists in Hex. destruct Hex as (v & Hv & ->).
    rewrite <- Ew in Hv.
    destruct (reflected_from_line _ Hv) as (t & Ht & Hw & HB).
    apply Exists_exists. exists (U t).
    split; [apply line_in_padded; assumption|].
    destruct (HR t) as [[H1 _] | [_ [_ H]]]; [congruence|exact H].
Qed.

End CentredWindow.

Lemma nth_map_seq {A : Type} (f : nat -> A) (n i : nat) (d : A) :
  (i < n)%nat -> nth i (map f (seq 0 n)) d = f i.
Proof.
  intro H. rewrite (nth_indep _ d (f 0%nat)) by (rewrite length_map, length_seq; exact H).
  rewrite map_nth. rewrite seq_nth by exact H. reflexivity.
Qed.

Lemma window_reflect (s len stride : Z) (bs : list Z) (idx : Z) :
  window 0 Reflect s 0 len stride bs idx
  = reflected_window
      (fun t => nth (Z.to_nat (idx + (t - (idx / stride) mod len) * stride))
                    bs 0)
      len s ((idx / stride) mod len).
Proof.
  unfold window, reflected_window, line_get. apply map_ext. intro j.
  rewrite Z.add_0_r. reflexivity.
Qed.

Lemma window_constant (cval : Q) (s len stride : Z) (us : list Q) (idx : Z) :
  window (0 # 1)%Q (Constant cval) s 0 len stride us idx
  = padded_window
      (fun t => nth (Z.to_nat (idx + (t - (idx / stride) mod len) * stride))
                    us (0 # 1)%Q)
      len s ((idx / stride) mod len) cval.
Proof.
  unfold window, padded_window, line_get. apply map_ext. intro j.
  rewrite Z.add_0_r. reflexivity.
Qed.

(** A centred pass keeps two related buffers related. *)
Section CentredPass.

Variable R : Z -> Q -> Prop.
Variable cb : Z -> list Z -> Z.
Variable cu : Z -> list Q -> Q.
Variable cval : Q.

Hypothesis R_default : R 0 (0 # 1)%Q.
Hypothesis R_window : forall (B : Z -> Z) (U : Z -> Q) (len s c : Z),
    0 < len -> 0 <= c < len -> 1 <= s ->
    (forall t, R (B t) (U t)) ->
    R (cb s (reflected_window B len s c))
      (cu s (padded_window U len s c cval)).

Lemma centred_pass (s len stride : Z) (bs : list Z) (us : list Q) :
  1 < s ->
  length bs = 0%nat \/ 0 < len ->
  buffers_rel R bs us ->
  buffers_rel R (filter1d 0 cb Reflect s 0 len stride bs)
              (filter1d (0 # 1)%Q cu (Constant cval) s 0 len stride us).
Proof.
  intros Hs Hlen [Hl HR]. split.
  - rewrite !filter1d_length. exact Hl.
  - intro i. unfold filter1d.
    destruct (Nat.lt_ge_cases i (length bs)) as [Hi | Hi].
    + rewrite nth_map_seq by exact Hi.
      rewrite nth_map_seq by (rewrite <- Hl; exact Hi).
      rewrite window_reflect, window_constant.
      apply R_window; try lia.
      * apply Z.mod_pos_bound. lia.
      * intro t. apply HR.
    + rewrite !nth_overflow;
        [exact R_default| |];
        rewrite length_map, length_seq; lia.
Qed.

Lemma centred_passes (axes : list (Z * Z)) :
  forall (sizes origins : list Z) (bs : list Z) (us : list Q),
    Forall (fun o => o = 0) origins ->
    length bs = 0%nat \/ Forall (fun a => 0 < fst a) axes ->
    buffers_rel R bs us ->
    match apply_axes 0 cb Reflect axes sizes origins bs,
          apply_axes (0 # 1)%Q cu (Constant cval) axes sizes origins us with
    | Ok bs', Ok us' => buffers_rel R bs' us'
    | Raise e1, Raise e2 => e1 = e2
    | _, _ => False
    end.
Proof.
  induction axes as [|[len stride] axes IH]; intros sizes origins bs us Ho Hax HR.
  - simpl. exact HR.
  - destruct sizes as [|s sizes]; [simpl; exact HR|].
    destruct origins as [|o origins]; [simpl; exact HR|].
    inversion Ho as [|? ? Ho0 Ho']; subst.
    assert (Hax' : forall bs' : list Z, length bs' = length bs ->
                     length bs' = 0%nat \/ Forall (fun a => 0 < fst a) axes).
    { intros bs' Hl. destruct Hax as [H0 | Hf]; [left; lia|right].
      inversion Hf; assumption. }
    simpl. destruct (1 <? s) eqn:Es.
    + destruct ((s / 2 + 0 <? 0) || (s <=? s / 2 + 0)); [reflexivity|].
      apply Z.ltb_lt in Es.
      apply IH; [exact Ho'|apply Hax'; apply filter1d_length|].
      apply centred_pass; [exact Es| |exact HR].
      destruct Hax as [H0 | Hf]; [left; exact H0|right].
      inversion Hf as [|? ? Hpos _]; subst. exact Hpos.
    + apply IH; [exact Ho'|apply Hax'; reflexivity|exact HR].
Qed.

End CentredPass.

Lemma axes_positive (sh : list nat) :
  size_of sh <> 0%nat -> Forall (fun a => 0 < fst a) (axes_of sh).
Proof.
  induction sh as [|n rest IH]; intro H; simpl; [constructor|].
  simpl in H. constructor; [simpl; lia|]. apply IH. lia.
Qed.

Lemma centred_origins (origin : int_or_seq) (rank : nat) (origins : list Z) :
  centred origin -> normalize_sequence origin rank = Ok origins ->
  Forall (fun o => o = 0) origins.
Proof.
  unfold centred, normalize_sequence. destruct origin as [v|vs]; intros Hc H.
  - injection H as <-. subst v. apply Forall_forall.
    intros x Hx. apply repeat_spec in Hx. exact Hx.
  - destruct (Nat.eqb (length vs) rank); [|discriminate H].
    injection H as <-. exact Hc.
Qed.

Lemma dil_rel_threshold (b : Z) (u : Q) :
  dil_rel b u -> (if Q_positive u then 1 else 0) = b.
Proof.
  unfold Q_positive. intros [[-> H] | [-> H]].
  - unfold Qeq in H. simpl in H. rewrite Z.mul_1_r in H. rewrite H.
    reflexivity.
  - unfold Qlt in H. simpl in H. rewrite Z.mul_1_r in H.
    replace (0 <? Qnum u) with true by (symmetry; apply Z.ltb_lt; exact H).
    reflexivity.
Qed.

Lemma ero_rel_threshold (b : Z) (u : Q) :
  ero_rel b u -> (if Q_is_one u then 1 else 0) = b.
Proof.
  unfold Q_is_one. intros [[-> H] | [-> [_ H]]].
  - apply Qeq_bool_iff in H. rewrite H. reflexivity.
  - destruct (Qeq_bool u (1 # 1)) eqn:E; [|reflexivity].
    apply Qeq_bool_iff in E. rewrite E in H.
    exfalso. apply (Qlt_irrefl (1 # 1)). exact H.
Qed.

Lemma binary_buffers (R : Z -> Q -> Prop) (d : list Z) :
  R 0 (0 # 1)%Q -> R 0 (inject_Z 0) -> R 1 (inject_Z 1) ->
  Forall (fun v => v = 0 \/ v = 1) d ->
  buffers_rel R d (map inject_Z d).
Proof.
  intros Hd H0 H1 Hb. split; [rewrite length_map; reflexivity|].
  intro i. destruct (Nat.lt_ge_cases i (length d)) as [Hi | Hi].
  - rewrite (nth_map_in inject_Z d 0 (0 # 1)%Q Hi).
    rewrite Forall_forall in Hb.
    destruct (Hb (nth i d 0) (nth_In d 0 Hi)) as [-> | ->]; assumption.
  - rewrite !nth_overflow; [exact Hd| |]; try rewrite length_map; lia.
Qed.

Lemma thresholded_buffers (R : Z -> Q -> Prop) (f : Q -> Z) (bs : list Z)
      (us : list Q) :
  (forall b u, R b u -> f u = b) ->
  buffers_rel R bs us -> map f us = bs.
Proof.
  intros Hf [Hl HR].
  apply (nth_ext _ _ (f (0 # 1)%Q) 0); [rewrite length_map; lia|].
  intros i Hi. rewrite map_nth. apply Hf. apply HR.
Qed.

(** The two implementations of one operation, centred. *)
Section CentredFilters.

Variable R : Z -> Q -> Prop.
Variable cb : Z -> list Z -> Z.
Variable cu : Z -> list Q -> Q.
Variable cval : Q.
Variable threshold : Q -> Z.

Hypothesis R_default : R 0 (0 # 1)%Q.
Hypothesis R_zero : R 0 (inject_Z 0).
Hypothesis R_one : R 1 (inject_Z 1).
Hypothesis R_threshold : forall b u, R b u -> threshold u = b.
Hypothesis R_window : forall (B : Z -> Z) (U : Z -> Q) (len s c : Z),
    0 < len -> 0 <= c < len -> 1 <= s ->
    (forall t, R (B t) (U t)) ->
    R (cb s (reflected_window B len s c))
      (cu s (padded_window U len s c cval)).

Lemma centred_filters_agree (image : ndarray) (size origin : int_or_seq) :
  well_formed image -> is_binary image -> centred origin ->
  same_mask
    (output <- separable_filter (0 # 1)%Q cu (Constant cval) (shape image)
                                size origin (map inject_Z (data image)) ;;
     Ok {| a_dtype := int32; shape := shape image;
           data := map threshold output |})
    (buf <- separable_filter 0 cb Reflect (shape image) size origin
                             (data image) ;;
     Ok {| a_dtype := a_dtype image; shape := shape image; data := buf |}).
Proof.
  intros Hwf Hbin Hc. unfold separable_filter.
  destruct (normalize_sequence origin (length (shape image)))
    as [origins|e] eqn:Eo; [|simpl; reflexivity].
  cbn [bind].
  destruct (normalize_sequence size (length (shape image)))
    as [sizes|e] eqn:Es; [|simpl; reflexivity].
  cbn [bind].
  pose proof (centred_origins origin _ origins Hc Eo) as Ho.
  assert (Hax : length (data image) = 0%nat
                \/ Forall (fun a => 0 < fst a) (axes_of (shape image))).
  { unfold well_formed in Hwf.
    destruct (Nat.eq_dec (size_of (shape image)) 0) as [E | E];
      [left; lia|right; apply axes_positive; exact E]. }
  pose proof (centred_passes R cb cu cval R_default R_window
                (axes_of (shape image)) sizes origins (data image)
                (map inject_Z (data image)) Ho Hax
                (binary_buffers R (data image) R_default R_zero R_one Hbin))
    as H.
  destruct (apply_axes 0 cb Reflect (axes_of (shape image)) sizes origins
                       (data image)) as [bs'|e1];
    destruct (apply_axes (0 # 1)%Q cu (Constant cval) (axes_of (shape image))
                         sizes origins (map inject_Z (data image)))
      as [us'|e2]; simpl; try contradiction.
  - split; [reflexivity|].
    apply (thresholded_buffers R threshold bs' us' R_threshold H).
  - congruence.
Qed.

End CentredFilters.



Example rb_dilation_centred_run :
  rb_dilation (img uint8 [2; 3]%nat [1; 0; 0; 0; 0; 0]) (Seq [2; 3]) (Scalar 0)
  = Ok (img int32 [2; 3]%nat [1; 1; 0; 1; 1; 0]).
Proof. vm_compute. reflexivity. Qed.


(** * Further properties *)

(** ** What the wrappers return and raise *)

Lemma retry_types_outcome {K R : Type} (routine : ndarray -> K -> result R)
      (image : ndarray) (kw : K) :
  match retry routine types image kw with
  | Some r => first_accepted routine image kw coerced_dtypes r
  | None =>
      Forall (fun d => is_ok (routine (astype d image) kw) = false)
             coerced_dtypes
  end.
Proof.
  unfold types, coerced_dtypes, first_accepted. cbn [retry].
  change (np_array image "int32") with (Ok (astype int32 image)).
  change (np_array image "uint32") with (Ok (astype uint32 image)).
  change (np_array image "int64") with (Ok (astype int64 image)).
  change (np_array image "unit64") with (@Raise ndarray TypeError).
  change (np_array image "int16") with (Ok (astype int16 image)).
  change (np_array image "uint16") with (Ok (astype uint16 image)).
  cbn [bind].
  destruct (routine (astype int32 image) kw) as [r|e1] eqn:E1.
  { exists [], int32, [uint32; int64; int16; uint16]. auto. }
  destruct (routine (astype uint32 image) kw) as [r|e2] eqn:E2.
  { exists [int32], uint32, [int64; int16; uint16].
    repeat split; auto. repeat constructor. rewrite E1. reflexivity. }
  destruct (routine (astype int64 image) kw) as [r|e3] eqn:E3.
  { exists [int32; uint32], int64, [int16; uint16].
    repeat split; auto.
    repeat constructor; [rewrite E1|rewrite E2]; reflexivity. }
  destruct (routine (astype int16 image) kw) as [r|e4] eqn:E4.
  { exists [int32; uint32; int64], int16, [uint16].
    repeat split; auto.
    repeat constructor; [rewrite E1|rewrite E2|rewrite E3]; reflexivity. }
  destruct (routine (astype uint16 image) kw) as [r|e5] eqn:E5.
  { exists [int32; uint32; int64; int16], uint16, [].
    repeat split; auto.
    repeat constructor; [rewrite E1|rewrite E2|rewrite E3|rewrite E4];
      reflexivity. }
  repeat constructor;
    [rewrite E1|rewrite E2|rewrite E3|rewrite E4|rewrite E5]; reflexivity.
Qed.

(** X1: [label] and [find_objects] return the routine's result on the image
    when it accepts the image; otherwise its result on the copy coerced to
    the first of int32, uint32, int64, int16, uint16 it accepts.  They raise
    only when the routine raises on the image and on all five copies, and
    then with the routine's own exception on the image. *)
Theorem wrappers_outcome (kwargs : Type)
        (measurements_label : ndarray -> kwargs -> result (ndarray * Z))
        (measurements_find_objects : ndarray -> kwargs -> result (list object))
        (image : ndarray) (kw : kwargs) :
  match label measurements_label image kw with
  | Ok r =>
      measurements_label image kw = Ok r
      \/ (is_ok (measurements_label image kw) = false
          /\ first_accepted measurements_label image kw coerced_dtypes r)
  | Raise e =>
      measurements_label image kw = Raise e
      /\ Forall (fun d => is_ok (measurements_label (astype d image) kw)
                          = false) coerced_dtypes
  end
  /\ match find_objects measurements_find_objects image kw with
     | Ok r =>
         measurements_find_objects image kw = Ok r
         \/ (is_ok (measurements_find_objects image kw) = false
             /\ first_accepted measurements_find_objects image kw
                               coerced_dtypes r)
     | Raise e =>
         measurements_find_objects image kw = Raise e
         /\ Forall (fun d =>
                      is_ok (measurements_find_objects (astype d image) kw)
                      = false) coerced_dtypes
     end.
Proof.
  split.
  - unfold label.
    pose proof (retry_types_outcome measurements_label image kw) as H.
    destruct (measurements_label image kw) as [r|e] eqn:E; [left; reflexivity|].
    destruct (retry measurements_label types image kw) as [r|].
    + right. split; [reflexivity|exact H].
    + split; [reflexivity|exact H].
  - unfold find_objects.
    pose proof (retry_types_outcome measurements_find_objects image kw) as H.
    destruct (measurements_find_objects image kw) as [r|e] eqn:E;
      [left; reflexivity|].
    destruct (retry measurements_find_objects types image kw) as [r|].
    + right. split; [reflexivity|exact H].
    + split; [reflexivity|exact H].
Qed.

(** ** When the binary check passes *)

Lemma check_binary_accepted (image : ndarray) :
  check_binary image = Ok tt ->
  binary_dtype (a_dtype image) /\ data image <> [] /\ is_binary image.
Proof.
  intro He. unfold is_binary.
  destruct (check_binary_cases image) as [[Hf He'] | [[Hf He'] | [Hf _]]];
    [rewrite He in He'; discriminate He'
    |rewrite He in He'; discriminate He'|].
  assert (Hdt : binary_dtype (a_dtype image)).
  { apply binary_dtype_dec.
    destruct (dtype_eqb (a_dtype image) uint8 || dtype_eqb (a_dtype image) int32
              || dtype_eqb (a_dtype image) bool_) eqn:E; [reflexivity|].
    exfalso. apply Hf. left. intro H. apply binary_dtype_dec in H. congruence. }
  split; [exact Hdt|]. split.
  - intro E. unfold check_binary, np_amin in He.
    apply binary_dtype_dec in Hdt. rewrite Hdt, E in He. discriminate He.
  - apply Forall_forall. intros v Hin.
    destruct (Z_lt_dec v 0) as [H0 | H0];
      [exfalso; apply Hf; right; exists v; auto|].
    destruct (Z_lt_dec 1 v) as [H1 | H1];
      [exfalso; apply Hf; right; exists v; auto|].
    lia.
Qed.

Lemma check_binary_accepts (image : ndarray) :
  binary_dtype (a_dtype image) -> data image <> [] -> is_binary image ->
  check_binary image = Ok tt.
Proof.
  unfold is_binary. intros Hdt Hne Hbin.
  destruct (check_binary_cases image) as [[Hf He] | [[Hf He] | [Hf He]]].
  - exfalso.
    destruct Hf as [Hf | (v & Hin & Hv)]; [exact (Hf Hdt)|].
    rewrite Forall_forall in Hbin. specialize (Hbin v Hin). lia.
  - exfalso.
    unfold check_binary, np_amin, np_amax, py_assert in He.
    apply binary_dtype_dec in Hdt. rewrite Hdt in He. cbn [bind] in He.
    destruct (data image) as [|x xs]; [congruence|]. cbn [bind] in He.
    destruct (0 <=? list_min x xs); [|discriminate He]. cbn [bind] in He.
    destruct (list_max x xs <=? 1); discriminate He.
  - exact He.
Qed.

(** X2: [check_binary] passes exactly on a non-empty array of dtype uint8,
    C int or bool whose values are all 0 or 1. *)
Theorem check_binary_passes (image : ndarray) :
  check_binary image = Ok tt
  <-> binary_dtype (a_dtype image) /\ data image <> [] /\ is_binary image.
Proof.
  split.
  - apply check_binary_accepted.
  - intros (Hdt & Hne & Hbin). apply check_binary_accepts; assumption.
Qed.

(** ** Calls that always return *)

Lemma axes_check_scalar_centred (s : Z) (axes : list (Z * Z)) :
  forall n, axes_check axes (repeat s n) (repeat 0 n) = Ok tt.
Proof.
  induction axes as [|a axes IH]; intro n; [reflexivity|].
  destruct n as [|n]; [reflexivity|]. simpl.
  destruct (1 <? s) eqn:E; [|apply IH].
  apply Z.ltb_lt in E.
  pose proof (Z.div_lt_upper_bound s 2 s ltac:(lia) ltac:(lia)) as Hd.
  pose proof (Z.div_pos s 2 ltac:(lia) ltac:(lia)) as Hp.
  replace (s / 2 + 0 <? 0) with false by (symmetry; apply Z.ltb_ge; lia).
  replace (s <=? s / 2 + 0) with false by (symmetry; apply Z.leb_gt; lia).
  apply IH.
Qed.

Lemma filter_args_scalar_centred (sh : list nat) (s : Z) :
  filter_args_check sh (Scalar s) (Scalar 0) = Ok tt.
Proof. unfold filter_args_check. simpl. apply axes_check_scalar_centred. Qed.

Lemma is_ok_by_args {A : Type} (r : result A) (a : result unit) :
  match a with
  | Raise e => r = Raise e
  | Ok _ => exists out, r = Ok out
  end ->
  is_ok r = is_ok a.
Proof.
  destruct a as [u|e]; [intros (out & ->)|intros ->]; reflexivity.
Qed.

(** X3: with one integer as size and the filter centred (origin 0), the
    dilations, erosions, and the uniform-filter and grayscale openings and
    closings return for every array of every shape; [r_opening] and
    [r_closing] then return exactly when the binary check passes, and the
    two closings do so whatever origin they are given. *)
Theorem scalar_centred_calls_return (image : ndarray) (s : Z)
        (origin : int_or_seq) :
  is_ok (r_dilation image (Scalar s) (Scalar 0)) = true
  /\ is_ok (r_erosion image (Scalar s) (Scalar 0)) = true
  /\ is_ok (rg_dilation image (Scalar s) (Scalar 0)) = true
  /\ is_ok (rg_erosion image (Scalar s) (Scalar 0)) = true
  /\ is_ok (rb_dilation image (Scalar s) (Scalar 0)) = true
  /\ is_ok (rb_erosion image (Scalar s) (Scalar 0)) = true
  /\ is_ok (rb_opening image (Scalar s) (Scalar 0)) = true
  /\ is_ok (rb_closing image (Scalar s) (Scalar 0)) = true
  /\ is_ok (rg_opening image (Scalar s) (Scalar 0)) = true
  /\ is_ok (rg_closing image (Scalar s) origin) = true
  /\ is_ok (r_opening image (Scalar s) (Scalar 0)) = is_ok (check_binary image)
  /\ is_ok (r_closing image (Scalar s) origin) = is_ok (check_binary image).
Proof.
  pose proof (filter_args_scalar_centred (shape image) s) as Hargs.
  assert (Hmax : is_ok (maximum_filter image (Scalar s) (Scalar 0)) = true).
  { pose proof (maximum_filter_outcome image (Scalar s) (Scalar 0)) as H.
    rewrite Hargs in H. destruct H as (out & -> & _). reflexivity. }
  assert (Hmin : is_ok (minimum_filter image (Scalar s) (Scalar 0)) = true).
  { pose proof (minimum_filter_outcome image (Scalar s) (Scalar 0)) as H.
    rewrite Hargs in H. destruct H as (out & -> & _). reflexivity. }
  assert (Hbd : is_ok (rb_dilation image (Scalar s) (Scalar 0)) = true).
  { pose proof (rb_dilation_outcome image (Scalar s) (Scalar 0)) as H.
    rewrite Hargs in H. destruct H as (out & -> & _). reflexivity. }
  assert (Hbe : is_ok (rb_erosion image (Scalar s) (Scalar 0)) = true).
  { pose proof (rb_erosion_outcome image (Scalar s) (Scalar 0)) as H.
    rewrite Hargs in H. destruct H as (out & -> & _). reflexivity. }
  destruct (rb_opening_outcome image (Scalar s) (Scalar 0)) as [_ Hbo].
  destruct (rb_closing_outcome image (Scalar s) (Scalar 0)) as [_ Hbc].
  destruct (min_then_max_outcome image (Scalar s) (Scalar 0)) as [_ Hoc].
  destruct (max_then_min_outcome image (Scalar s) (Scalar 0)) as [_ Hco].
  rewrite Hargs in Hbo, Hbc, Hoc, Hco. simpl in Hbo, Hbc, Hoc, Hco.
  repeat split; try assumption.
  - unfold r_opening. destruct (check_binary image) as [[]|e]; simpl;
      [exact Hoc|reflexivity].
  - unfold r_closing. destruct (check_binary image) as [[]|e]; simpl;
      [exact Hco|reflexivity].
Qed.

(** ** Empty input *)

(** X4: [correspondences] raises ValueError (from the minimum of an empty
    array) when its first array is empty, and so do both propagation
    functions on an image whose labelling is empty. *)
Theorem empty_input_raises_ValueError (kwargs : Type) (no_kw : kwargs)
        (measurements_label : ndarray -> kwargs -> result (ndarray * Z))
        (image labels rlabels : ndarray) (n conflict : Z) :
  label measurements_label image no_kw = Ok (rlabels, n) ->
  data rlabels = [] ->
  correspondences rlabels labels = Raise ValueError
  /\ propagate_labels_simple no_kw measurements_label image labels
     = Raise ValueError
  /\ propagate_labels no_kw measurements_label image labels conflict
     = Raise ValueError.
Proof.
  intros Hlab Hempty.
  assert (Hc : correspondences rlabels labels = Raise ValueError).
  { unfold correspondences, np_amin. rewrite Hempty. reflexivity. }
  split; [exact Hc|]. split.
  - unfold propagate_labels_simple. rewrite Hlab. cbn [bind fst].
    rewrite Hc. reflexivity.
  - unfold propagate_labels. rewrite Hlab. cbn [bind fst].
    rewrite Hc. reflexivity.
Qed.

Lemma empty_input_raises_ValueError_witness :
  correspondences (img int32 [1; 0]%nat []) (img int32 [1; 0]%nat [])
  = Raise ValueError
  /\ propagate_labels_simple tt label_row (img uint8 [1; 0]%nat [])
                             (img int32 [1; 0]%nat []) = Raise ValueError
  /\ propagate_labels tt label_row (img uint8 [1; 0]%nat [])
                      (img int32 [1; 0]%nat []) 0 = Raise ValueError.
Proof.
  apply (empty_input_raises_ValueError unit tt label_row
           (img uint8 [1; 0]%nat []) (img int32 [1; 0]%nat [])
           (img int32 [1; 0]%nat []) 0 0).
  - reflexivity.
  - reflexivity.
Defined.

(** ** Spreading labels, whatever the distance transform returns *)

Lemma getitem_member (a : ndarray) (i v : Z) :
  getitem a i = Ok v -> In v (data a).
Proof.
  unfold getitem, norm_index.
  destruct ((0 <=? i) && (i <? Z.of_nat (length (data a)))) eqn:E1.
  - cbn [bind]. intro H. injection H as <-.
    apply andb_prop in E1. destruct E1 as [E1 E2].
    apply Z.leb_le in E1. apply Z.ltb_lt in E2.
    apply nth_In. lia.
  - destruct ((- Z.of_nat (length (data a)) <=? i) && (i <? 0)) eqn:E2.
    + cbn [bind]. intro H. injection H as <-.
      apply andb_prop in E2. destruct E2 as [E2 E3].
      apply Z.leb_le in E2. apply Z.ltb_lt in E3.
      apply nth_In. lia.
    + cbn [bind]. intro H. discriminate H.
Qed.

Lemma map_result_members {A B : Type} (f : A -> result B) (P : B -> Prop)
      (l : list A) :
  (forall x y, f x = Ok y -> P y) ->
  forall ys, map_result f l = Ok ys -> Forall P ys.
Proof.
  intro Hf. induction l as [|x l IH]; intros ys H; simpl in H.
  - injection H as <-. constructor.
  - destruct (f x) as [y|e] eqn:E; [|discriminate H]. cbn [bind] in H.
    destruct (map_result f l) as [ys'|e]; [|discriminate H]. cbn [bind] in H.
    injection H as <-. constructor; [exact (Hf x y E)|apply IH; reflexivity].
Qed.

Lemma Forall_combine_fst {A B : Type} (P : A -> Prop) (l : list A) :
  Forall P l -> forall l' : list B, Forall (fun p => P (fst p)) (combine l l').
Proof.
  induction 1 as [|x l Hx Hl IH]; intros [|y l']; simpl; constructor; auto.
Qed.

Lemma spread_labels_stages
      (distance_transform_edt : ndarray -> result (list Z * list (list Z)))
      (labels : ndarray) (maxdist : Q) (out : ndarray) :
  spread_labels distance_transform_edt labels maxdist = Ok out ->
  exists (spread distances : list Z),
    Forall (fun v => In v (data labels)) spread
    /\ out = {| a_dtype := a_dtype labels; shape := shape labels;
                data := map (fun p => cast (a_dtype labels)
                                        (fst p * (if dist_lt (snd p) maxdist
                                                  then 1 else 0)))
                            (combine spread distances) |}.
Proof.
  unfold spread_labels. intro H.
  destruct (distance_transform_edt (eq_zero labels)) as [[distances features]|e];
    [|discriminate H].
  cbn [bind fst snd] in H.
  destruct (nth_result features 0) as [f0|e]; [|discriminate H].
  cbn [bind] in H.
  destruct (nth_result (shape labels) 1) as [w|e]; [|discriminate H].
  cbn [bind] in H.
  destruct (nth_result features 1) as [f1|e]; [|discriminate H].
  cbn [bind] in H.
  destruct (map_result (getitem labels)
              (map (fun p => fst p * Z.of_nat w + snd p) (combine f0 f1)))
    as [spread|e] eqn:Es; [|discriminate H].
  cbn [bind] in H.
  destruct (Nat.eqb (length spread) (size_of (shape labels)));
    [|discriminate H].
  injection H as <-.
  exists spread, distances. split; [|reflexivity].
  apply (map_result_members (getitem labels) (fun v => In v (data labels))
           _ (getitem_member labels) spread Es).
Qed.

(** X5: [spread_labels] never returns for an array of fewer than two axes:
    when the distance transform returns, indexing [labels.shape[1]] (or
    the feature arrays) raises IndexError; otherwise the transform's own
    exception passes through. *)
Theorem spread_labels_needs_two_axes
        (distance_transform_edt : ndarray -> result (list Z * list (list Z)))
        (labels : ndarray) (maxdist : Q) :
  (length (shape labels) < 2)%nat ->
  spread_labels distance_transform_edt labels maxdist
  = (distance_transform_edt (eq_zero labels) ;;; Raise IndexError).
Proof.
  intro Hrank. unfold spread_labels.
  destruct (distance_transform_edt (eq_zero labels)) as [[distances features]|e];
    [|reflexivity].
  cbn [bind fst snd].
  destruct (nth_result features 0) as [f0|e] eqn:E0.
  - cbn [bind]. unfold nth_result at 1.
    destruct (shape labels) as [|a [|b sh]]; simpl in Hrank; try lia;
      reflexivity.
  - unfold nth_result in E0. destruct (nth_error features 0); [discriminate E0|].
    injection E0 as <-. reflexivity.
Qed.

Lemma spread_labels_needs_two_axes_witness :
  spread_labels (fun mask => Ok (map (fun _ => 0) (data mask),
                                 [map Z.of_nat (seq 0 (length (data mask)))]))
                (img int32 [3]%nat [5; 0; 0]) (2 # 1)
  = Raise IndexError.
Proof.
  rewrite (spread_labels_needs_two_axes
             (fun mask => Ok (map (fun _ => 0) (data mask),
                              [map Z.of_nat (seq 0 (length (data mask)))]))
             (img int32 [3]%nat [5; 0; 0]) (2 # 1)).
  - reflexivity.
  - simpl. lia.
Defined.

(** X6: [spread_labels] invents no label: when it returns, the result has
    the dtype and shape of [labels] and each of its values is 0 or a value
    of [labels] (whose values are values of its dtype). *)
Theorem spread_labels_values
        (distance_transform_edt : ndarray -> result (list Z * list (list Z)))
        (labels : ndarray) (maxdist : Q) (out : ndarray) :
  well_typed labels ->
  spread_labels distance_transform_edt labels maxdist = Ok out ->
  a_dtype out = a_dtype labels
  /\ shape out = shape labels
  /\ Forall (fun v => v = 0 \/ In v (data labels)) (data out).
Proof.
  intros Hwt H.
  destruct (spread_labels_stages _ _ _ _ H) as (spread & distances & Hs & ->).
  simpl. split; [reflexivity|]. split; [reflexivity|].
  apply Forall_map.
  apply (Forall_combine_fst _ spread) with (l' := distances) in Hs.
  revert Hs. apply Forall_impl. intros [v d] Hv. cbn [fst snd] in *.
  destruct (dist_lt d maxdist).
  - right. rewrite Z.mul_1_r.
    unfold well_typed in Hwt. rewrite Forall_forall in Hwt.
    rewrite (Hwt v Hv). exact Hv.
  - left. rewrite Z.mul_0_r. apply cast_zero.
Qed.

Lemma spread_labels_values_witness :
  exists out,
    spread_labels edt_search (img int32 [1; 3]%nat [5; 0; 0]) (2 # 1) = Ok out
    /\ a_dtype out = int32
    /\ shape out = [1; 3]%nat
    /\ Forall (fun v => v = 0 \/ In v [5; 0; 0]) (data out).
Proof.
  eexists. split; [reflexivity|].
  apply (spread_labels_values edt_search (img int32 [1; 3]%nat [5; 0; 0])
           (2 # 1)).
  - repeat constructor.
  - reflexivity.
Defined.

(** X7: with a maximal distance of 0 or less nothing is spread and nothing
    is kept: every value of the result is 0. *)
Theorem spread_labels_nonpositive_maxdist
        (distance_transform_edt : ndarray -> result (list Z * list (list Z)))
        (labels : ndarray) (maxdist : Q) (out : ndarray) :
  (maxdist <= 0)%Q ->
  spread_labels distance_transform_edt labels maxdist = Ok out ->
  shape out = shape labels /\ Forall (fun v => v = 0) (data out).
Proof.
  intros Hm H.
  destruct (spread_labels_stages _ _ _ _ H) as (spread & distances & _ & ->).
  simpl. split; [reflexivity|].
  apply Forall_map. apply Forall_forall. intros [v d] _. cbn [fst snd].
  assert (E : dist_lt d maxdist = false).
  { unfold dist_lt, Q_positive.
    replace (0 <? Qnum maxdist) with false; [reflexivity|].
    symmetry. apply Z.ltb_ge. unfold Qle in Hm. simpl in Hm. lia. }
  rewrite E, Z.mul_0_r. apply cast_zero.
Qed.

Lemma spread_labels_nonpositive_maxdist_witness :
  exists out,
    spread_labels edt_search (img int32 [1; 3]%nat [5; 0; 0]) (0 # 1) = Ok out
    /\ shape out = [1; 3]%nat
    /\ Forall (fun v => v = 0) (data out).
Proof.
  eexists. split; [reflexivity|].
  apply (spread_labels_nonpositive_maxdist edt_search
           (img int32 [1; 3]%nat [5; 0; 0]) (0 # 1)).
  - discriminate.
  - reflexivity.
Defined.

(** ** Minimum and maximum filters: values and bounds *)

Lemma list_max_facts (x : Z) (xs : list Z) :
  In (list_max x xs) (x :: xs)
  /\ Forall (fun v => v <= list_max x xs) (x :: xs).
Proof.
  split.
  - induction xs as [|y xs IH]; [left; reflexivity|].
    unfold list_max in *. cbn [fold_right].
    destruct (Z.max_spec y (fold_right Z.max x xs)) as [[_ ->] | [_ ->]].
    + destruct IH as [IH | IH]; [left; exact IH|right; right; exact IH].
    + right. left. reflexivity.
  - apply (proj1 (list_max_le (list_max x xs) x xs)). lia.
Qed.

Lemma list_min_facts (x : Z) (xs : list Z) :
  In (list_min x xs) (x :: xs)
  /\ Forall (fun v => list_min x xs <= v) (x :: xs).
Proof.
  induction xs as [|y xs [IHin IHle]].
  - split; [left; reflexivity|]. repeat constructor. unfold list_min. simpl. lia.
  - unfold list_min in *. cbn [fold_right].
    apply Forall_cons_iff in IHle. destruct IHle as [Hx Hxs]. split.
    + destruct (Z.min_spec y (fold_right Z.min x xs)) as [[_ ->] | [_ ->]].
      * right. left. reflexivity.
      * destruct IHin as [IH | IH]; [left; exact IH|right; right; exact IH].
    + constructor; [lia|]. constructor; [lia|].
      revert Hxs. apply Forall_impl. intros; lia.
Qed.

Lemma axes_of_geometry (sh : list nat) :
  size_of sh <> 0%nat ->
  forall pre : nat,
    Forall (fun a => 0 < fst a /\ 0 < snd a
                     /\ exists outer,
                         Z.of_nat (pre * size_of sh) = outer * (fst a * snd a))
           (axes_of sh).
Proof.
  induction sh as [|n rest IH]; intros Hsz pre; [constructor|].
  change (size_of (n :: rest)) with (n * size_of rest)%nat in *.
  assert (Hn : n <> 0%nat) by (intro E; apply Hsz; rewrite E; reflexivity).
  assert (Hr : size_of rest <> 0%nat) by (intro E; apply Hsz; rewrite E; lia).
  cbn [axes_of]. constructor.
  - cbn [fst snd]. split; [lia|]. split; [lia|].
    exists (Z.of_nat pre). rewrite !Nat2Z.inj_mul. reflexivity.
  - specialize (IH Hr (pre * n)%nat).
    rewrite <- Nat.mul_assoc in IH. exact IH.
Qed.

(** A position of the line through [idx] is a position of the buffer. *)
Lemma line_position_in_buffer (idx len stride outer r : Z) :
  0 < len -> 0 < stride ->
  0 <= idx < outer * (len * stride) ->
  0 <= r < len ->
  0 <= idx + (r - (idx / stride) mod len) * stride < outer * (len * stride).
Proof.
  intros Hlen Hstride Hidx Hr.
  pose proof (Z.div_mod idx stride ltac:(lia)) as E1.
  pose proof (Z.mod_pos_bound idx stride Hstride) as B1.
  set (a := idx / stride) in *. set (b := idx mod stride) in *.
  pose proof (Z.div_mod a len ltac:(lia)) as E2.
  pose proof (Z.mod_pos_bound a len Hlen) as B2.
  set (u := a / len) in *. set (c := a mod len) in *.
  assert (Ha : 0 <= a) by (apply Z.div_pos; lia).
  assert (Hu : 0 <= u) by (apply Z.div_pos; lia).
  assert (Ha' : a < outer * len).
  { apply Z.div_lt_upper_bound; [lia|]. lia. }
  assert (Hu' : u < outer).
  { apply Z.div_lt_upper_bound; [lia|]. lia. }
  replace (idx + (r - c) * stride) with (stride * (len * u + r) + b) by lia.
  assert (H1 : len * u + r <= len * outer - 1) by nia.
  assert (H0 : 0 <= len * u + r) by nia.
  split; [nia|]. nia.
Qed.

(** The reflected window of a pass with an accepted origin holds values of
    the buffer only, the value at its own position among them. *)
Lemma window_reflect_facts (s o len stride outer : Z) (buf : list Z) (idx : Z) :
  0 < len -> 0 < stride ->
  Z.of_nat (length buf) = outer * (len * stride) ->
  0 <= idx < Z.of_nat (length buf) ->
  0 <= s / 2 + o < s ->
  In (nth (Z.to_nat idx) buf 0) (window 0 Reflect s o len stride buf idx)
  /\ Forall (fun v => In v buf) (window 0 Reflect s o len stride buf idx).
Proof.
  intros Hlen Hstride Hsize Hidx Ho. unfold window.
  assert (Hc : 0 <= (idx / stride) mod len < len)
    by (apply Z.mod_pos_bound; exact Hlen).
  set (c := (idx / stride) mod len) in *.
  split.
  - apply in_map_iff. exists (Z.to_nat (s / 2 + o)). split.
    + unfold line_get. rewrite Z2Nat.id by lia.
      replace (c - (s / 2 + o) + (s / 2 + o)) with c by lia.
      rewrite reflect_index_inside by exact Hc.
      f_equal. f_equal. lia.
    + apply in_seq. lia.
  - apply Forall_map. apply Forall_forall. intros j _. unfold line_get.
    apply nth_In.
    pose proof (reflect_index_range len (c - (s / 2 + o) + Z.of_nat j) Hlen)
      as Hr.
    pose proof (line_position_in_buffer idx len stride outer _
                  Hlen Hstride ltac:(lia) Hr) as Hp.
    fold c in Hp. lia.
Qed.

Section RectangularPasses.

(** A combining function that picks a value of its window, related to
    every value of the window by [rel] (maximum: at least; minimum: at
    most). *)
Variable cb : Z -> list Z -> Z.
Variable rel : Z -> Z -> Prop.

Hypothesis cb_In : forall s w, w <> [] -> In (cb s w) w.
Hypothesis cb_rel : forall s w v, In v w -> rel v (cb s w).
Hypothesis rel_refl : forall v, rel v v.
Hypothesis rel_trans : forall a b c, rel a b -> rel b c -> rel a c.

Lemma pass_facts (s o len stride outer : Z) (buf : list Z) :
  0 < len -> 0 < stride ->
  Z.of_nat (length buf) = outer * (len * stride) ->
  0 <= s / 2 + o < s ->
  Forall (fun v => In v buf) (filter1d 0 cb Reflect s o len stride buf)
  /\ forall i, (i < length buf)%nat ->
       rel (nth i buf 0) (nth i (filter1d 0 cb Reflect s o len stride buf) 0).
Proof.
  intros Hlen Hstride Hsize Ho. unfold filter1d. split.
  - apply Forall_map. apply Forall_forall. intros i Hi. apply in_seq in Hi.
    destruct (window_reflect_facts s o len stride outer buf (Z.of_nat i)
                Hlen Hstride Hsize ltac:(lia) Ho) as [Hin Hall].
    rewrite Forall_forall in Hall. apply Hall. apply cb_In.
    intro E. rewrite E in Hin. exact Hin.
  - intros i Hi.
    rewrite (nth_map_seq _ (length buf) i 0 Hi).
    destruct (window_reflect_facts s o len stride outer buf (Z.of_nat i)
                Hlen Hstride Hsize ltac:(lia) Ho) as [Hin _].
    rewrite Nat2Z.id in Hin. apply cb_rel. exact Hin.
Qed.

Lemma passes_facts (axes : list (Z * Z)) :
  forall (sizes origins : list Z) (buf out : list Z),
    Forall (fun a => 0 < fst a /\ 0 < snd a
                     /\ exists outer,
                         Z.of_nat (length buf) = outer * (fst a * snd a)) axes ->
    apply_axes 0 cb Reflect axes sizes origins buf = Ok out ->
    length out = length buf
    /\ Forall (fun v => In v buf) out
    /\ forall i, (i < length buf)%nat -> rel (nth i buf 0) (nth i out 0).
Proof.
  assert (Hbase : forall buf out : list Z, Ok buf = Ok out ->
            length out = length buf
            /\ Forall (fun v => In v buf) out
            /\ forall i, (i < length buf)%nat -> rel (nth i buf 0) (nth i out 0)).
  { intros buf out E. injection E as <-. split; [reflexivity|].
    split; [apply Forall_forall; auto|]. intros; apply rel_refl. }
  induction axes as [|[len stride] axes IH]; intros sizes origins buf out Hg H.
  - simpl in H. apply Hbase. exact H.
  - destruct sizes as [|s sizes]; [simpl in H; apply Hbase; exact H|].
    destruct origins as [|o origins]; [simpl in H; apply Hbase; exact H|].
    cbn [apply_axes] in H.
    apply Forall_cons_iff in Hg. destruct Hg as [Ha Hg].
    destruct (1 <? s); [|exact (IH sizes origins buf out Hg H)].
    destruct ((s / 2 + o <? 0) || (s <=? s / 2 + o)) eqn:Eo;
      [discriminate H|].
    apply orb_false_elim in Eo. destruct Eo as [Eo1 Eo2].
    apply Z.ltb_ge in Eo1. apply Z.leb_gt in Eo2.
    cbn [fst snd] in Ha. destruct Ha as (Hlen & Hstride & outer & Hsize).
    destruct (pass_facts s o len stride outer buf Hlen Hstride Hsize
                ltac:(lia)) as [Hin Hrel].
    set (buf' := filter1d 0 cb Reflect s o len stride buf) in *.
    assert (Hl : length buf' = length buf) by apply filter1d_length.
    assert (Hg' : Forall (fun a => 0 < fst a /\ 0 < snd a
                     /\ exists outer,
                         Z.of_nat (length buf') = outer * (fst a * snd a)) axes)
      by (rewrite Hl; exact Hg).
    destruct (IH sizes origins buf' out Hg' H) as (Hl' & Hin' & Hrel').
    split; [lia|]. split.
    + rewrite Forall_forall in *. intros v Hv. apply Hin. apply Hin'. exact Hv.
    + intros i Hi. apply (rel_trans _ (nth i buf' 0)); [apply Hrel; exact Hi|].
      apply Hrel'. lia.
Qed.

Lemma separable_filter_facts (sh : list nat) (size origin : int_or_seq)
      (buf out : list Z) :
  length buf = size_of sh ->
  separable_filter 0 cb Reflect sh size origin buf = Ok out ->
  length out = length buf
  /\ Forall (fun v => In v buf) out
  /\ forall i, (i < length buf)%nat -> rel (nth i buf 0) (nth i out 0).
Proof.
  intros Hwf H. unfold separable_filter in H.
  destruct (normalize_sequence origin (length sh)) as [origins|e];
    [|discriminate H].
  cbn [bind] in H.
  destruct (normalize_sequence size (length sh)) as [sizes|e];
    [|discriminate H].
  cbn [bind] in H.
  destruct (Nat.eq_dec (size_of sh) 0) as [E | E].
  - pose proof (apply_axes_outcome 0 cb Reflect (axes_of sh) sizes origins buf)
      as Ho.
    rewrite H in Ho.
    destruct (axes_check (axes_of sh) sizes origins); [|discriminate Ho].
    destruct Ho as (out' & Ho & Hl). injection Ho as <-.
    split; [exact Hl|].
    assert (out = []) by (apply length_zero_iff_nil; lia). subst out.
    split; [constructor|]. intros i Hi. lia.
  - apply (passes_facts (axes_of sh) sizes origins buf out); [|exact H].
    pose proof (axes_of_geometry sh E 1) as Hg.
    rewrite Nat.mul_1_l, <- Hwf in Hg. exact Hg.
Qed.

End RectangularPasses.

Lemma window_max_In (s : Z) (w : list Z) : w <> [] -> In (window_max s w) w.
Proof.
  destruct w as [|x xs]; [congruence|]. intros _. apply list_max_facts.
Qed.

Lemma window_max_ge (s : Z) (w : list Z) (v : Z) :
  In v w -> v <= window_max s w.
Proof.
  destruct w as [|x xs]; [intros []|]. intro H.
  pose proof (proj2 (list_max_facts x xs)) as Hall.
  rewrite Forall_forall in Hall. apply Hall. exact H.
Qed.

Lemma window_min_In (s : Z) (w : list Z) : w <> [] -> In (window_min s w) w.
Proof.
  destruct w as [|x xs]; [congruence|]. intros _. apply list_min_facts.
Qed.

Lemma window_min_le (s : Z) (w : list Z) (v : Z) :
  In v w -> window_min s w <= v.
Proof.
  destruct w as [|x xs]; [intros []|]. intro H.
  pose proof (proj2 (list_min_facts x xs)) as Hall.
  rewrite Forall_forall in Hall. apply Hall. exact H.
Qed.

Lemma maximum_filter_facts (image out : ndarray) (size origin : int_or_seq) :
  well_formed image ->
  maximum_filter image size origin = Ok out ->
  a_dtype out = a_dtype image /\ shape out = shape image /\ well_formed out
  /\ Forall (fun v => In v (data image)) (data out)
  /\ forall k, 0 <= k < Z.of_nat (length (data image)) ->
               at_pos image k <= at_pos out k.
Proof.
  intros Hwf H. unfold maximum_filter in H.
  destruct (separable_filter 0 window_max Reflect (shape image) size origin
                             (data image)) as [buf|e] eqn:E; [|discriminate H].
  cbn [bind] in H. injection H as <-.
  destruct (separable_filter_facts window_max Z.le window_max_In window_max_ge
              Z.le_refl Z.le_trans (shape image) size origin (data image) buf
              Hwf E) as (Hl & Hin & Hrel).
  unfold well_formed, at_pos in *. cbn [a_dtype shape data].
  repeat split; try assumption; try lia.
  intros k Hk. apply Hrel. lia.
Qed.

Lemma minimum_filter_facts (image out : ndarray) (size origin : int_or_seq) :
  well_formed image ->
  minimum_filter image size origin = Ok out ->
  a_dtype out = a_dtype image /\ shape out = shape image /\ well_formed out
  /\ Forall (fun v => In v (data image)) (data out)
  /\ forall k, 0 <= k < Z.of_nat (length (data image)) ->
               at_pos out k <= at_pos image k.
Proof.
  intros Hwf H. unfold minimum_filter in H.
  destruct (separable_filter 0 window_min Reflect (shape image) size origin
                             (data image)) as [buf|e] eqn:E; [|discriminate H].
  cbn [bind] in H. injection H as <-.
  destruct (separable_filter_facts window_min (fun a b => b <= a)
              window_min_In window_min_le Z.le_refl
              (fun a b c Hab Hbc => Z.le_trans c b a Hbc Hab)
              (shape image) size origin (data image) buf
              Hwf E) as (Hl & Hin & Hrel).
  unfold well_formed, at_pos in *. cbn [a_dtype shape data].
  repeat split; try assumption; try lia.
  intros k Hk. apply Hrel. lia.
Qed.



(** ** Openings and closings *)

Lemma Forall_In_trans (a b c : list Z) :
  Forall (fun v => In v a) b -> Forall (fun v => In v b) c ->
  Forall (fun v => In v a) c.
Proof.
  intros Hab Hbc. rewrite Forall_forall in *. intros v Hv.
  apply Hab. apply Hbc. exact Hv.
Qed.

Lemma is_binary_values (a b : ndarray) :
  is_binary a -> Forall (fun v => In v (data a)) (data b) -> is_binary b.
Proof.
  unfold is_binary. intros Ha Hb. rewrite Forall_forall in *.
  intros v Hv. apply Ha. apply Hb. exact Hv.
Qed.

Lemma erosion_then_dilation_facts (image out : ndarray)
      (size origin : int_or_seq) :
  well_formed image ->
  (e <- r_erosion image size origin ;; r_dilation e size origin) = Ok out ->
  a_dtype out = a_dtype image /\ shape out = shape image /\ well_formed out
  /\ length (data out) = length (data image)
  /\ Forall (fun v => In v (data image)) (data out).
Proof.
  intros Hwf H. unfold r_erosion, r_dilation in H.
  destruct (minimum_filter image size origin) as [e|x] eqn:E1;
    [|discriminate H].
  cbn [bind] in H.
  destruct (minimum_filter_facts image e size origin Hwf E1)
    as (Hd1 & Hs1 & Hw1 & Hv1 & _).
  destruct (maximum_filter_facts e out size origin Hw1 H)
    as (Hd2 & Hs2 & Hw2 & Hv2 & _).
  unfold well_formed in *.
  repeat split; try congruence.
  apply (Forall_In_trans _ (data e)); assumption.
Qed.

Lemma dilation_then_erosion_facts (image out : ndarray)
      (size origin : int_or_seq) :
  well_formed image ->
  (d <- r_dilation image size origin ;; r_erosion d size origin) = Ok out ->
  a_dtype out = a_dtype image /\ shape out = shape image /\ well_formed out
  /\ length (data out) = length (data image)
  /\ Forall (fun v => In v (data image)) (data out).
Proof.
  intros Hwf H. unfold r_erosion, r_dilation in H.
  destruct (maximum_filter image size origin) as [d|x] eqn:E1;
    [|discriminate H].
  cbn [bind] in H.
  destruct (maximum_filter_facts image d size origin Hwf E1)
    as (Hd1 & Hs1 & Hw1 & Hv1 & _).
  destruct (minimum_filter_facts d out size origin Hw1 H)
    as (Hd2 & Hs2 & Hw2 & Hv2 & _).
  unfold well_formed in *.
  repeat split; try congruence.
  apply (Forall_In_trans _ (data d)); assumption.
Qed.

Lemma binary_check_preserved (image out : ndarray) :
  a_dtype out = a_dtype image ->
  length (data out) = length (data image) ->
  Forall (fun v => In v (data image)) (data out) ->
  check_binary image = Ok tt -> check_binary out = Ok tt.
Proof.
  intros Hd Hl Hv Hc.
  destruct (check_binary_accepted image Hc) as (Hdt & Hne & Hbin).
  apply check_binary_accepts.
  - rewrite Hd. exact Hdt.
  - intro E. apply Hne. apply length_zero_iff_nil.
    rewrite <- Hl, E. reflexivity.
  - exact (is_binary_values image out Hbin Hv).
Qed.



(** ** Uniform-filter openings and closings against the min/max ones *)

Lemma centred_dilations_agree (image : ndarray) (size origin : int_or_seq) :
  well_formed image -> is_binary image -> centred origin ->
  same_mask (rb_dilation image size origin) (r_dilation image size origin).
Proof.
  intros Hwf Hbin Hc.
  apply (centred_filters_agree dil_rel window_max window_mean (0 # 1)%Q
           (fun x => if Q_positive x then 1 else 0)); try assumption.
  - left. split; reflexivity.
  - left. split; reflexivity.
  - right. split; reflexivity.
  - apply dil_rel_threshold.
  - apply dil_window.
Qed.

Lemma centred_erosions_agree (image : ndarray) (size origin : int_or_seq) :
  well_formed image -> is_binary image -> centred origin ->
  same_mask (rb_erosion image size origin) (r_erosion image size origin).
Proof.
  intros Hwf Hbin Hc.
  apply (centred_filters_agree ero_rel window_min window_mean (1 # 1)%Q
           (fun x => if Q_is_one x then 1 else 0)); try assumption.
  - right. split; [reflexivity|]. split; [discriminate|reflexivity].
  - right. split; [reflexivity|]. split; [discriminate|reflexivity].
  - left. split; reflexivity.
  - apply ero_rel_threshold.
  - apply ero_window.
Qed.

(** The uniform-filter variants read the shape and the values of their
    argument only. *)
Lemma rb_dilation_ext (a b : ndarray) (size origin : int_or_seq) :
  shape a = shape b -> data a = data b ->
  rb_dilation a size origin = rb_dilation b size origin.
Proof.
  intros Hs Hd. unfold rb_dilation, uniform_filter. rewrite Hs, Hd.
  reflexivity.
Qed.

Lemma rb_erosion_ext (a b : ndarray) (size origin : int_or_seq) :
  shape a = shape b -> data a = data b ->
  rb_erosion a size origin = rb_erosion b size origin.
Proof.
  intros Hs Hd. unfold rb_erosion, uniform_filter. rewrite Hs, Hd.
  reflexivity.
Qed.

Lemma centred_openings_agree (image : ndarray) (size origin : int_or_seq) :
  well_formed image -> is_binary image -> centred origin ->
  same_mask (rb_opening image size origin)
            (e <- r_erosion image size origin ;; r_dilation e size origin).
Proof.
  intros Hwf Hbin Hc. unfold rb_opening.
  pose proof (centred_erosions_agree image size origin Hwf Hbin Hc) as H1.
  destruct (rb_erosion image size origin) as [a|e1];
    destruct (r_erosion image size origin) as [b|e2] eqn:Eb;
    simpl in H1; try contradiction; cbn [bind]; [|exact H1].
  destruct H1 as [Hs Hd].
  rewrite (rb_dilation_ext a b size origin Hs Hd).
  destruct (minimum_filter_facts image b size origin Hwf Eb)
    as (_ & _ & Hwb & Hvb & _).
  apply centred_dilations_agree;
    [exact Hwb|exact (is_binary_values image b Hbin Hvb)|exact Hc].
Qed.

Lemma centred_closings_agree (image : ndarray) (size origin : int_or_seq) :
  well_formed image -> is_binary image -> centred origin ->
  same_mask (rb_closing image size origin)
            (d <- r_dilation image size origin ;; r_erosion d size origin).
Proof.
  intros Hwf Hbin Hc. unfold rb_closing.
  pose proof (centred_dilations_agree image size origin Hwf Hbin Hc) as H1.
  destruct (rb_dilation image size origin) as [a|e1];
    destruct (r_dilation image size origin) as [b|e2] eqn:Eb;
    simpl in H1; try contradiction; cbn [bind]; [|exact H1].
  destruct H1 as [Hs Hd].
  rewrite (rb_erosion_ext a b size origin Hs Hd).
  destruct (maximum_filter_facts image b size origin Hwf Eb)
    as (_ & _ & Hwb & Hvb & _).
  apply centred_erosions_agree;
    [exact Hwb|exact (is_binary_values image b Hbin Hvb)|exact Hc].
Qed.



(** ** Selecting regions by score *)

Lemma insert_by_score_In (x p : Z * Z) (l : list (Z * Z)) :
  In p (insert_by_score x l) <-> p = x \/ In p l.
Proof.
  induction l as [|y l IH]; simpl.
  - intuition congruence.
  - destruct (fst x <? fst y); simpl; [intuition congruence|].
    rewrite IH. intuition congruence.
Qed.

Lemma insert_by_score_length (x : Z * Z) (l : list (Z * Z)) :
  length (insert_by_score x l) = S (length l).
Proof.
  induction l as [|y l IH]; simpl; [reflexivity|].
  destruct (fst x <? fst y); simpl; [reflexivity|]. rewrite IH. reflexivity.
Qed.

Lemma insert_by_score_sorted (x : Z * Z) (l : list (Z * Z)) :
  StronglySorted (fun a b => fst a <= fst b) l ->
  StronglySorted (fun a b => fst a <= fst b) (insert_by_score x l).
Proof.
  induction l as [|y l IH]; intro Hs; simpl.
  - constructor; constructor.
  - apply StronglySorted_inv in Hs. destruct Hs as [Hl Hy].
    destruct (fst x <? fst y) eqn:E.
    + apply Z.ltb_lt in E. constructor.
      * constructor; assumption.
      * constructor; [lia|]. revert Hy. apply Forall_impl. intros; lia.
    + apply Z.ltb_ge in E. constructor; [apply IH; exact Hl|].
      apply Forall_forall. intros p Hp.
      apply insert_by_score_In in Hp. destruct Hp as [-> | Hp]; [exact E|].
      rewrite Forall_forall in Hy. apply Hy. exact Hp.
Qed.

Lemma fold_insert_facts (L : list (Z * Z)) :
  forall acc,
    StronglySorted (fun a b => fst a <= fst b) acc ->
    let r := fold_left (fun acc x => insert_by_score x acc) L acc in
    StronglySorted (fun a b => fst a <= fst b) r
    /\ (forall p, In p r <-> In p acc \/ In p L)
    /\ length r = (length acc + length L)%nat.
Proof.
  induction L as [|x L IH]; intros acc Hs; cbn [fold_left].
  - split; [exact Hs|]. split; [simpl; tauto|simpl; lia].
  - destruct (IH (insert_by_score x acc) (insert_by_score_sorted x acc Hs))
      as (H1 & H2 & H3).
    split; [exact H1|]. split.
    + intro p. rewrite H2, insert_by_score_In. simpl. intuition congruence.
    + rewrite H3, insert_by_score_length. simpl. lia.
Qed.

Lemma scored_indices (scores : list Z) (s i : Z) :
  In (s, i) (combine scores (map Z.of_nat (seq 0 (length scores))))
  <-> 0 <= i < Z.of_nat (length scores) /\ s = nth (Z.to_nat i) scores 0.
Proof.
  assert (Hl : length scores = length (map Z.of_nat (seq 0 (length scores))))
    by (rewrite length_map, length_seq; reflexivity).
  split.
  - intro H. apply (In_nth _ _ (0, 0)) in H. destruct H as (k & Hk & E).
    rewrite length_combine, <- Hl, Nat.min_id in Hk.
    rewrite (combine_nth _ _ k 0 0 Hl) in E.
    rewrite (nth_map_seq Z.of_nat (length scores) k 0 Hk) in E.
    injection E as <- <-. rewrite Nat2Z.id. split; [lia|reflexivity].
  - intros [Hi ->].
    assert (Hk : (Z.to_nat i < length scores)%nat) by lia.
    replace (nth (Z.to_nat i) scores 0, i)
      with (nth (Z.to_nat i)
                (combine scores (map Z.of_nat (seq 0 (length scores)))) (0, 0)).
    + apply nth_In. rewrite length_combine, <- Hl, Nat.min_id. exact Hk.
    + rewrite (combine_nth _ _ (Z.to_nat i) 0 0 Hl).
      rewrite (nth_map_seq Z.of_nat (length scores) (Z.to_nat i) 0 Hk).
      rewrite Z2Nat.id by lia. reflexivity.
Qed.

Lemma sorted_by_score (scores : list Z) (acc : list (Z * Z)) :
  StronglySorted (fun a b => fst a <= fst b) acc ->
  Forall (fun p => fst p = nth (Z.to_nat (snd p)) scores 0) acc ->
  StronglySorted (fun i j => nth (Z.to_nat i) scores 0
                             <= nth (Z.to_nat j) scores 0) (map snd acc).
Proof.
  induction 1 as [|p acc Hs IH Hp]; intro Hf; simpl; [constructor|].
  apply Forall_cons_iff in Hf. destruct Hf as [Ep Hf].
  constructor; [apply IH; exact Hf|].
  apply Forall_map. rewrite Forall_forall in *. intros p' Hp'.
  rewrite <- Ep, <- (Hf p' Hp'). apply Hp. exact Hp'.
Qed.

(** [np.argsort] returns every index once in range, in ascending order of
    score. *)
Lemma np_argsort_facts (scores : list Z) :
  length (np_argsort scores) = length scores
  /\ (forall i, In i (np_argsort scores)
                <-> 0 <= i < Z.of_nat (length scores))
  /\ StronglySorted (fun i j => nth (Z.to_nat i) scores 0
                                <= nth (Z.to_nat j) scores 0)
                    (np_argsort scores).
Proof.
  unfold np_argsort.
  destruct (fold_insert_facts
              (combine scores (map Z.of_nat (seq 0 (length scores)))) []
              (SSorted_nil _)) as (Hs & Hin & Hlen).
  cbv zeta in Hs, Hin, Hlen.
  set (acc := fold_left (fun acc x => insert_by_score x acc)
                        (combine scores (map Z.of_nat (seq 0 (length scores))))
                        []) in *.
  assert (Hacc : forall s i, In (s, i) acc
            <-> 0 <= i < Z.of_nat (length scores)
                /\ s = nth (Z.to_nat i) scores 0).
  { intros s i. rewrite Hin. simpl. rewrite <- scored_indices. tauto. }
  split; [|split].
  - rewrite length_map, Hlen, length_combine, length_map, length_seq.
    simpl. lia.
  - intro i. rewrite in_map_iff. split.
    + intros ([s i'] & E & Hp). simpl in E. subst i'.
      apply Hacc in Hp. tauto.
    + intro Hi. exists (nth (Z.to_nat i) scores 0, i). split; [reflexivity|].
      apply Hacc. split; [exact Hi|reflexivity].
  - apply sorted_by_score; [exact Hs|].
    apply Forall_forall. intros [s i] Hp. apply Hacc in Hp. simpl. tauto.
Qed.

Lemma sorted_split {A : Type} (R : A -> A -> Prop) (l : list A) :
  StronglySorted R l ->
  forall (k : nat) (a b : A),
    In a (firstn k l) -> In b (skipn k l) -> R a b.
Proof.
  induction 1 as [|x l Hs IH Hx]; intros k a b Ha Hb.
  - rewrite firstn_nil in Ha. destruct Ha.
  - destruct k as [|k]; [destruct Ha|]. simpl in Ha, Hb.
    destruct Ha as [<- | Ha]; [|exact (IH k a b Ha Hb)].
    rewrite Forall_forall in Hx. apply Hx.
    rewrite <- (firstn_skipn k l). apply in_or_app. right. exact Hb.
Qed.

(** [l[-n:]]: a suffix of [l], of at most [n] entries when [1 <= n], and all
    of [l] when [n] is at least its length. *)
Lemma py_slice_last {A : Type} (n : Z) (l : list A) :
  exists k : nat,
    py_slice_from (- n) l = skipn k l
    /\ (1 <= n -> Z.of_nat (length l) - Z.of_nat k <= n)
    /\ (Z.of_nat (length l) <= n -> k = 0%nat).
Proof.
  unfold py_slice_from.
  exists (Z.to_nat (if - n <? 0 then Z.max (Z.of_nat (length l) + - n) 0
                    else Z.min (- n) (Z.of_nat (length l)))).
  split; [reflexivity|]. split; intro Hn.
  - replace (- n <? 0) with true by (symmetry; apply Z.ltb_lt; lia). lia.
  - destruct (- n <? 0) eqn:E.
    + apply Z.ltb_lt in E. lia.
    + apply Z.ltb_ge in E. lia.
Qed.

Lemma kept_regions_In (scores : list Z) (min nbest i : Z) :
  In i (kept_regions scores min nbest)
  <-> In i (py_slice_from (- nbest) (np_argsort scores))
      /\ min < nth (Z.to_nat i) scores 0.
Proof.
  unfold kept_regions. rewrite filter_In.
  rewrite negb_true_iff, Z.leb_gt. tauto.
Qed.

Lemma keep_loop (scores : list Z) (min : Z) (chosen : list Z) :
  forall keep,
    a_dtype keep = int32 ->
    Forall (fun i => 0 <= i /\ i + 1 < Z.of_nat (length (data keep))) chosen ->
    exists keep',
      for_loop (fun keep i =>
                  if nth (Z.to_nat i) scores 0 <=? min then Ok keep
                  else setitem keep (i + 1) 1) chosen keep = Ok keep'
      /\ a_dtype keep' = int32
      /\ length (data keep') = length (data keep)
      /\ forall k, 0 <= k < Z.of_nat (length (data keep)) ->
           at_pos keep' k
           = if existsb (fun i => (i + 1 =? k)
                                  && negb (nth (Z.to_nat i) scores 0 <=? min))
                        chosen
             then 1 else at_pos keep k.
Proof.
  induction chosen as [|i chosen IH]; intros keep Hdt Hr.
  - exists keep. simpl. repeat split; auto.
  - apply Forall_cons_iff in Hr. destruct Hr as [Hi Hr].
    cbn [for_loop existsb].
    destruct (nth (Z.to_nat i) scores 0 <=? min) eqn:Es.
    + cbn [bind]. destruct (IH keep Hdt Hr) as (keep' & H1 & H2 & H3 & H4).
      exists keep'. repeat split; try assumption.
      intros k Hk. rewrite (H4 k Hk). cbn [negb].
      rewrite andb_false_r. reflexivity.
    + rewrite (setitem_in_range keep (o := i + 1) 1 ltac:(lia)).
      cbn [bind]. rewrite Hdt.
      change (cast int32 1) with 1.
      set (keep1 := {| a_dtype := int32; shape := shape keep;
                       data := list_set (data keep) (Z.to_nat (i + 1)) 1 |}).
      assert (Hl1 : length (data keep1) = length (data keep))
        by apply list_set_length.
      destruct (IH keep1 eq_refl ltac:(rewrite Hl1; exact Hr))
        as (keep' & H1 & H2 & H3 & H4).
      exists keep'. repeat split; try assumption; [congruence|].
      intros k Hk. rewrite (H4 k ltac:(rewrite Hl1; exact Hk)).
      cbn [negb]. rewrite andb_true_r.
      destruct (existsb _ chosen); [rewrite orb_true_r; reflexivity|].
      rewrite orb_false_r. unfold keep1.
      rewrite (at_pos_list_set int32 (shape keep) (data keep)
                 (i := Z.to_nat (i + 1)) 1 k ltac:(lia)).
      destruct (i + 1 =? k) eqn:Ek.
      * apply Z.eqb_eq in Ek. subst k. rewrite Nat.eqb_refl. reflexivity.
      * apply Z.eqb_neq in Ek.
        replace (Nat.eqb (Z.to_nat k) (Z.to_nat (i + 1))) with false;
          [reflexivity|].
        symmetry. apply Nat.eqb_neq. lia.
Qed.



(** ** Propagation without conflicts *)

(** The last two statements of both propagation functions: cell 0 is
    cleared, then every pixel reads the cell of its region. *)
Lemma propagate_tail (outs rlabels : ndarray) (hi : Z) :
  0 <= hi ->
  Z.of_nat (length (data outs)) = hi + 1 ->
  Forall (fun v => 0 <= v < hi + 1) (data rlabels) ->
  (outputs <- setitem outs 0 0 ;; take outputs rlabels)
  = Ok {| a_dtype := a_dtype outs; shape := shape rlabels;
          data := map (fun k => if k =? 0 then 0 else at_pos outs k)
                      (data rlabels) |}.
Proof.
  intros Hhi Hl Hrange.
  rewrite (setitem_in_range outs (o := 0) 0 ltac:(lia)). cbn [bind].
  change (Z.to_nat 0) with 0%nat.
  set (outs2 := {| a_dtype := a_dtype outs; shape := shape outs;
                   data := list_set (data outs) 0%nat
                                    (cast (a_dtype outs) 0) |}).
  assert (Hl2 : length (data outs2) = length (data outs))
    by apply list_set_length.
  rewrite (take_value outs2 rlabels ltac:(rewrite Hl2, Hl; exact Hrange)).
  f_equal. f_equal. apply map_ext_in. intros k Hk.
  rewrite Forall_forall in Hrange. specialize (Hrange k Hk).
  unfold outs2.
  rewrite (at_pos_list_set (a_dtype outs) (shape outs) (data outs)
             (i := 0%nat) (cast (a_dtype outs) 0) k ltac:(lia)).
  destruct (k =? 0) eqn:E.
  - apply Z.eqb_eq in E. subst k. simpl. apply cast_zero.
  - apply Z.eqb_neq in E.
    replace (Nat.eqb (Z.to_nat k) 0) with false; [reflexivity|].
    symmetry. apply Nat.eqb_neq. lia.
Qed.

(** A strictly ascending run of label values with at most one non-zero
    value leaves the same value in a cell under both loop bodies. *)
Lemma single_label_run (L : list Z) (conflict : Z) :
  StronglySorted Z.lt L ->
  Forall (fun x => 0 <= x < q) L ->
  L <> [] ->
  (forall v w, In v L -> In w L -> v <> 0 -> w <> 0 -> v = w) ->
  let r := fold_left conflict_step L 0 in
  (if r =? oops then cast int32 conflict else r)
  = fold_left (fun cur i => cast int32 (upd_simple cur i)) L 0.
Proof.
  intros Hs Hr Hne Hone r.
  unfold upd_simple. rewrite (fold_left_last (fun i => cast int32 i) L 0).
  destruct (sorted_last_max Hs Hne) as [Hlast Hmax].
  destruct (conflict_run Hs Hr) as (R0 & R1 & _). fold r in R0, R1.
  rewrite Forall_forall in Hr, Hmax.
  set (top := last L 0) in *.
  assert (Htop : cast int32 top = top).
  { apply cast_fits. specialize (Hr top Hlast). unfold fits, q in *.
    simpl. lia. }
  destruct L as [|x L']; [congruence|]. rewrite Htop.
  destruct (Z.eq_dec top 0) as [E | E].
  - rewrite R0; [rewrite E; reflexivity|].
    intros y Hy. specialize (Hmax y Hy). specialize (Hr y Hy). lia.
  - rewrite (R1 top E Hlast).
    + replace (top =? oops) with false; [reflexivity|].
      symmetry. apply Z.eqb_neq. specialize (Hr top Hlast).
      unfold oops. simpl. lia.
    + intros y Hy. destruct (Z.eq_dec y 0) as [Ey | Ey]; [left; exact Ey|].
      right. apply Hone; assumption.
Qed.



(** ** Windows of one element *)

Lemma apply_axes_unit {V : Type} (dflt : V) (combine : Z -> list V -> V)
      (md : mode V) (o : Z) (buf : list V) (axes : list (Z * Z)) :
  forall n, apply_axes dflt combine md axes (repeat 1 n) (repeat o n) buf
            = Ok buf.
Proof.
  induction axes as [|[len stride] axes IH]; intro n; [reflexivity|].
  destruct n as [|n]; [reflexivity|]. simpl. apply IH.
Qed.

Lemma separable_filter_unit {V : Type} (dflt : V) (combine : Z -> list V -> V)
      (md : mode V) (sh : list nat) (o : Z) (buf : list V) :
  separable_filter dflt combine md sh (Scalar 1) (Scalar o) buf = Ok buf.
Proof. unfold separable_filter. simpl. apply apply_axes_unit. Qed.

(** X13: with size 1 nothing is filtered and the origin is not looked at:
    the min/max dilations, erosions and grayscale openings and closings
    return the image itself, [r_opening] and [r_closing] return it when
    the binary check passes, while [rb_dilation] returns the mask of the
    positive values and [rb_erosion] the mask of the values equal to 1. *)
Theorem unit_size_filters (image : ndarray) (o : Z) :
  r_dilation image (Scalar 1) (Scalar o) = Ok image
  /\ r_erosion image (Scalar 1) (Scalar o) = Ok image
  /\ rg_dilation image (Scalar 1) (Scalar o) = Ok image
  /\ rg_erosion image (Scalar 1) (Scalar o) = Ok image
  /\ rg_opening image (Scalar 1) (Scalar o) = Ok image
  /\ rg_closing image (Scalar 1) (Scalar o) = Ok image
  /\ r_opening image (Scalar 1) (Scalar o) = (check_binary image ;;; Ok image)
  /\ r_closing image (Scalar 1) (Scalar o) = (check_binary image ;;; Ok image)
  /\ rb_dilation image (Scalar 1) (Scalar o)
     = Ok {| a_dtype := int32; shape := shape image;
             data := map (fun v => if 0 <? v then 1 else 0) (data image) |}
  /\ rb_erosion image (Scalar 1) (Scalar o)
     = Ok {| a_dtype := int32; shape := shape image;
             data := map (fun v => if v =? 1 then 1 else 0) (data image) |}.
Proof.
  assert (Hmax : forall o', maximum_filter image (Scalar 1) (Scalar o')
                            = Ok image).
  { intro o'. unfold maximum_filter. rewrite separable_filter_unit.
    cbn [bind]. destruct image; reflexivity. }
  assert (Hmin : forall o', minimum_filter image (Scalar 1) (Scalar o')
                            = Ok image).
  { intro o'. unfold minimum_filter. rewrite separable_filter_unit.
    cbn [bind]. destruct image; reflexivity. }
  assert (Hopen : (e <- r_erosion image (Scalar 1) (Scalar o) ;;
                   r_dilation e (Scalar 1) (Scalar o)) = Ok image).
  { unfold r_erosion, r_dilation. rewrite Hmin. cbn [bind]. apply Hmax. }
  assert (Hclose : (d <- r_dilation image (Scalar 1) (Scalar 0) ;;
                    r_erosion d (Scalar 1) (Scalar 0)) = Ok image).
  { unfold r_erosion, r_dilation. rewrite Hmax. cbn [bind]. apply Hmin. }
  repeat split.
  - apply Hmax.
  - apply Hmin.
  - apply Hmax.
  - apply Hmin.
  - exact Hopen.
  - exact Hclose.
  - unfold r_opening. rewrite Hopen. reflexivity.
  - unfold r_closing. rewrite Hclose. reflexivity.
  - unfold rb_dilation, uniform_filter. rewrite separable_filter_unit.
    cbn [bind]. rewrite map_map. reflexivity.
  - unfold rb_erosion, uniform_filter. rewrite separable_filter_unit.
    cbn [bind]. rewrite map_map. f_equal. f_equal. apply map_ext.
    intro v. unfold Q_is_one, Qeq_bool. simpl.
    rewrite Z.mul_1_r. reflexivity.
Qed.

(** ** Labels the propagation functions reject *)

(** X14: a label value below 0 or above 99999 stops both propagation
    functions with the AssertionError of [correspondences], whatever the
    regions are. *)
Theorem propagate_rejects_labels (kwargs : Type) (no_kw : kwargs)
        (measurements_label : ndarray -> kwargs -> result (ndarray * Z))
        (image labels rlabels : ndarray) (n conflict v : Z) :
  label measurements_label image no_kw = Ok (rlabels, n) ->
  length (data rlabels) = length (data labels) ->
  In v (data labels) ->
  v < 0 \/ q <= v ->
  propagate_labels_simple no_kw measurements_label image labels
  = Raise AssertionError
  /\ propagate_labels no_kw measurements_label image labels conflict
     = Raise AssertionError.
Proof.
  intros Hlab Hlen Hv Hbad.
  assert (Hc : correspondences rlabels labels = Raise AssertionError).
  { apply correspondences_rejects; [exact Hlen|].
    destruct Hbad as [Hneg | Hbig].
    - left. exists v. split; [right; exact Hv|exact Hneg].
    - right. exists v. split; assumption. }
  split.
  - unfold propagate_labels_simple. rewrite Hlab. cbn [bind fst].
    rewrite Hc. reflexivity.
  - unfold propagate_labels. rewrite Hlab. cbn [bind fst].
    rewrite Hc. reflexivity.
Qed.

Lemma propagate_rejects_labels_witness :
  propagate_labels_simple tt label_row (img uint8 [1; 2]%nat [1; 1])
                          (img int32 [1; 2]%nat [5; 100000])
  = Raise AssertionError
  /\ propagate_labels tt label_row (img uint8 [1; 2]%nat [1; 1])
                      (img int32 [1; 2]%nat [5; 100000]) 0
     = Raise AssertionError.
Proof.
  apply (propagate_rejects_labels unit tt label_row
           (img uint8 [1; 2]%nat [1; 1]) (img int32 [1; 2]%nat [5; 100000])
           (img int32 [1; 2]%nat [1; 1]) 1 0 100000).
  - reflexivity.
  - reflexivity.
  - right. left. reflexivity.
  - right. unfold q. lia.
Defined.

(** ** Monotonicity of the minimum and maximum filters *)

Lemma window_max_mono (s : Z) (f f' : nat -> Z) (l : list nat) :
  (forall j, f j <= f' j) ->
  window_max s (map f l) <= window_max s (map f' l).
Proof.
  intro Hf. destruct l as [|a l]; [reflexivity|]. simpl.
  unfold list_max. induction l as [|b l IH]; simpl; [apply Hf|].
  specialize (Hf b). lia.
Qed.

Lemma window_min_mono (s : Z) (f f' : nat -> Z) (l : list nat) :
  (forall j, f j <= f' j) ->
  window_min s (map f l) <= window_min s (map f' l).
Proof.
  intro Hf. destruct l as [|a l]; [reflexivity|]. simpl.
  unfold list_min. induction l as [|b l IH]; simpl; [apply Hf|].
  specialize (Hf b). lia.
Qed.

Section MonotonePasses.

Variable cb : Z -> list Z -> Z.

Hypothesis cb_mono : forall s (f f' : nat -> Z) l,
    (forall j, f j <= f' j) -> cb s (map f l) <= cb s (map f' l).

Lemma pass_mono (s o len stride : Z) (buf buf' : list Z) :
  length buf = length buf' ->
  (forall i, nth i buf 0 <= nth i buf' 0) ->
  forall i, nth i (filter1d 0 cb Reflect s o len stride buf) 0
            <= nth i (filter1d 0 cb Reflect s o len stride buf') 0.
Proof.
  intros Hl Hle i. unfold filter1d. rewrite <- Hl.
  destruct (Nat.lt_ge_cases i (length buf)) as [Hi | Hi].
  - rewrite !(nth_map_seq _ (length buf) i 0 Hi).
    unfold window. apply cb_mono. intro j. unfold line_get. apply Hle.
  - rewrite !nth_overflow; [lia| |]; rewrite length_map, length_seq; exact Hi.
Qed.

Lemma passes_mono (axes : list (Z * Z)) :
  forall (sizes origins : list Z) (buf buf' out out' : list Z),
    length buf = length buf' ->
    (forall i, nth i buf 0 <= nth i buf' 0) ->
    apply_axes 0 cb Reflect axes sizes origins buf = Ok out ->
    apply_axes 0 cb Reflect axes sizes origins buf' = Ok out' ->
    length out = length out' /\ forall i, nth i out 0 <= nth i out' 0.
Proof.
  assert (Hbase : forall buf buf' out out' : list Z,
            length buf = length buf' ->
            (forall i, nth i buf 0 <= nth i buf' 0) ->
            Ok buf = Ok out -> Ok buf' = Ok out' ->
            length out = length out' /\ forall i, nth i out 0 <= nth i out' 0).
  { intros buf buf' out out' Hl Hle E E'.
    injection E as <-. injection E' as <-. split; assumption. }
  induction axes as [|[len stride] axes IH];
    intros sizes origins buf buf' out out' Hl Hle H H'.
  - simpl in H, H'. exact (Hbase _ _ _ _ Hl Hle H H').
  - destruct sizes as [|s sizes];
      [simpl in H, H'; exact (Hbase _ _ _ _ Hl Hle H H')|].
    destruct origins as [|o origins];
      [simpl in H, H'; exact (Hbase _ _ _ _ Hl Hle H H')|].
    cbn [apply_axes] in H, H'.
    destruct (1 <? s); [|exact (IH _ _ _ _ _ _ Hl Hle H H')].
    destruct ((s / 2 + o <? 0) || (s <=? s / 2 + o)); [discriminate H|].
    apply (IH sizes origins
              (filter1d 0 cb Reflect s o len stride buf)
              (filter1d 0 cb Reflect s o len stride buf') out out');
      try assumption.
    + rewrite !filter1d_length. exact Hl.
    + apply pass_mono; assumption.
Qed.

Lemma separable_filter_mono (sh : list nat) (size origin : int_or_seq)
      (buf buf' out out' : list Z) :
  length buf = length buf' ->
  (forall i, nth i buf 0 <= nth i buf' 0) ->
  separable_filter 0 cb Reflect sh size origin buf = Ok out ->
  separable_filter 0 cb Reflect sh size origin buf' = Ok out' ->
  length out = length out' /\ forall i, nth i out 0 <= nth i out' 0.
Proof.
  intros Hl Hle H H'. unfold separable_filter in H, H'.
  destruct (normalize_sequence origin (length sh)) as [origins|e];
    [|discriminate H].
  cbn [bind] in H, H'.
  destruct (normalize_sequence size (length sh)) as [sizes|e];
    [|discriminate H].
  cbn [bind] in H, H'.
  exact (passes_mono (axes_of sh) sizes origins buf buf' out out' Hl Hle H H').
Qed.

End MonotonePasses.

(** Two arrays of one shape, the first nowhere above the second. *)
Lemma maximum_filter_mono (a b out out' : ndarray) (size origin : int_or_seq) :
  shape a = shape b -> length (data a) = length (data b) ->
  (forall k, at_pos a k <= at_pos b k) ->
  maximum_filter a size origin = Ok out ->
  maximum_filter b size origin = Ok out' ->
  shape out = shape out' /\ length (data out) = length (data out')
  /\ forall k, at_pos out k <= at_pos out' k.
Proof.
  intros Hs Hl Hle H H'. unfold maximum_filter in H, H'.
  destruct (separable_filter 0 window_max Reflect (shape a) size origin
                             (data a)) as [buf|e] eqn:E; [|discriminate H].
  destruct (separable_filter 0 window_max Reflect (shape b) size origin
                             (data b)) as [buf'|e] eqn:E'; [|discriminate H'].
  cbn [bind] in H, H'. injection H as <-. injection H' as <-.
  rewrite <- Hs in E'.
  destruct (separable_filter_mono window_max window_max_mono (shape a) size
              origin (data a) (data b) buf buf' Hl) as [Hl' Hle'];
    try assumption.
  - intro i. specialize (Hle (Z.of_nat i)). unfold at_pos in Hle.
    rewrite Nat2Z.id in Hle. exact Hle.
  - cbn [shape data]. split; [exact Hs|]. split; [exact Hl'|].
    intro k. unfold at_pos. cbn [data]. apply Hle'.
Qed.

Lemma minimum_filter_mono (a b out out' : ndarray) (size origin : int_or_seq) :
  shape a = shape b -> length (data a) = length (data b) ->
  (forall k, at_pos a k <= at_pos b k) ->
  minimum_filter a size origin = Ok out ->
  minimum_filter b size origin = Ok out' ->
  shape out = shape out' /\ length (data out) = length (data out')
  /\ forall k, at_pos out k <= at_pos out' k.
Proof.
  intros Hs Hl Hle H H'. unfold minimum_filter in H, H'.
  destruct (separable_filter 0 window_min Reflect (shape a) size origin
                             (data a)) as [buf|e] eqn:E; [|discriminate H].
  destruct (separable_filter 0 window_min Reflect (shape b) size origin
                             (data b)) as [buf'|e] eqn:E'; [|discriminate H'].
  cbn [bind] in H, H'. injection H as <-. injection H' as <-.
  rewrite <- Hs in E'.
  destruct (separable_filter_mono window_min window_min_mono (shape a) size
              origin (data a) (data b) buf buf' Hl) as [Hl' Hle'];
    try assumption.
  - intro i. specialize (Hle (Z.of_nat i)). unfold at_pos in Hle.
    rewrite Nat2Z.id in Hle. exact Hle.
  - cbn [shape data]. split; [exact Hs|]. split; [exact Hl'|].
    intro k. unfold at_pos. cbn [data]. apply Hle'.
Qed.



(** ** The type of what the propagation functions return *)

Lemma for_loop_invariant {S A : Type} (P : S -> Prop)
      (body : S -> A -> result S) (l : list A) :
  (forall s x s', P s -> body s x = Ok s' -> P s') ->
  forall s s', P s -> for_loop body l s = Ok s' -> P s'.
Proof.
  intro Hbody. induction l as [|x l IH]; intros s s' Hs H; simpl in H.
  - injection H as <-. exact Hs.
  - destruct (body s x) as [s1|e] eqn:E; [|discriminate H]. cbn [bind] in H.
    exact (IH s1 s' (Hbody s x s1 Hs E) H).
Qed.

Lemma setitem_dtype (a a' : ndarray) (i v : Z) :
  setitem a i v = Ok a' -> a_dtype a' = a_dtype a.
Proof.
  unfold setitem. destruct (norm_index (length (data a)) i); cbn [bind];
    intro H; [injection H as <-; reflexivity|discriminate H].
Qed.

Lemma map_result_length {A B : Type} (f : A -> result B) (l : list A) :
  forall ys, map_result f l = Ok ys -> length ys = length l.
Proof.
  induction l as [|x l IH]; intros ys H; simpl in H.
  - injection H as <-. reflexivity.
  - destruct (f x) as [y|e]; [|discriminate H]. cbn [bind] in H.
    destruct (map_result f l) as [ys'|e]; [|discriminate H]. cbn [bind] in H.
    injection H as <-. simpl. rewrite (IH ys' eq_refl). reflexivity.
Qed.

Lemma take_layout (a idx out : ndarray) :
  take a idx = Ok out ->
  a_dtype out = a_dtype a /\ shape out = shape idx
  /\ length (data out) = length (data idx).
Proof.
  unfold take. intro H.
  destruct (map_result (getitem a) (data idx)) as [vs|e] eqn:E;
    [|discriminate H].
  cbn [bind] in H. injection H as <-. cbn [a_dtype shape data].
  split; [reflexivity|]. split; [reflexivity|].
  exact (map_result_length _ _ vs E).
Qed.

Lemma np_zeros_dtype (n : Z) (a : ndarray) :
  np_zeros n = Ok a -> a_dtype a = int32.
Proof.
  unfold np_zeros. destruct (n <? 0); intro H;
    [discriminate H|injection H as <-; reflexivity].
Qed.

(** X16: whatever the dtype of [labels], what the propagation functions
    return is a C int array of the shape of the labelling of the image. *)
Theorem propagate_results_are_int32 (kwargs : Type) (no_kw : kwargs)
        (measurements_label : ndarray -> kwargs -> result (ndarray * Z))
        (image labels rlabels out : ndarray) (n conflict : Z) :
  label measurements_label image no_kw = Ok (rlabels, n) ->
  propagate_labels_simple no_kw measurements_label image labels = Ok out
  \/ propagate_labels no_kw measurements_label image labels conflict = Ok out ->
  a_dtype out = int32 /\ shape out = shape rlabels
  /\ length (data out) = length (data rlabels).
Proof.
  intros Hlab [H | H].
  - unfold propagate_labels_simple in H. rewrite Hlab in H.
    cbn [bind fst] in H.
    destruct (correspondences rlabels labels) as [cors|e]; [|discriminate H].
    cbn [bind] in H.
    destruct (np_amax rlabels) as [hi|e]; [|discriminate H]. cbn [bind] in H.
    destruct (np_zeros (hi + 1)) as [zeros|e] eqn:Ez; [|discriminate H].
    cbn [bind] in H.
    destruct (for_loop _ (columns cors) zeros) as [outs1|e] eqn:El;
      [|discriminate H].
    cbn [bind] in H.
    destruct (setitem outs1 0 0) as [outs2|e] eqn:Es; [|discriminate H].
    cbn [bind] in H.
    destruct (take_layout outs2 rlabels out H) as (Hd & Hs & Hl).
    split; [|split; assumption].
    rewrite Hd, (setitem_dtype outs1 outs2 0 0 Es).
    apply (fun Hb => for_loop_invariant (fun a => a_dtype a = int32) _
                       (columns cors) Hb zeros outs1
                       (np_zeros_dtype _ _ Ez) El).
    intros s x s' Hs' Hb. rewrite (setitem_dtype s s' _ _ Hb). exact Hs'.
  - unfold propagate_labels in H. rewrite Hlab in H. cbn [bind fst] in H.
    destruct (correspondences rlabels labels) as [cors|e]; [|discriminate H].
    cbn [bind] in H.
    destruct (np_amax rlabels) as [hi|e]; [|discriminate H]. cbn [bind] in H.
    destruct (np_zeros (hi + 1)) as [zeros|e] eqn:Ez; [|discriminate H].
    cbn [bind] in H.
    destruct (for_loop _ (columns cors) zeros) as [outs1|e] eqn:El;
      [|discriminate H].
    cbn [bind] in H.
    destruct (setitem (set_where_eq outs1 oops conflict) 0 0)
      as [outs2|e] eqn:Es; [|discriminate H].
    cbn [bind] in H.
    destruct (take_layout outs2 rlabels out H) as (Hd & Hs & Hl).
    split; [|split; assumption].
    rewrite Hd, (setitem_dtype _ outs2 0 0 Es).
    change (a_dtype (set_where_eq outs1 oops conflict)) with (a_dtype outs1).
    apply (fun Hb => for_loop_invariant (fun a => a_dtype a = int32) _
                       (columns cors) Hb zeros outs1
                       (np_zeros_dtype _ _ Ez) El).
    intros s x s' Hs' Hb. cbn beta in Hb.
    destruct (getitem s (fst x)) as [cur|e]; [|discriminate Hb].
    cbn [bind] in Hb.
    destruct (negb (cur =? 0));
      rewrite (setitem_dtype s s' _ _ Hb); exact Hs'.
Qed.

Lemma propagate_results_are_int32_witness :
  a_dtype (img int32 [1; 7]%nat [7; 7; 0; 0; 0; 0; 9]) = int32
  /\ shape (img int32 [1; 7]%nat [7; 7; 0; 0; 0; 0; 9]) = [1; 7]%nat
  /\ length (data (img int32 [1; 7]%nat [7; 7; 0; 0; 0; 0; 9])) = 7%nat.
Proof.
  apply (propagate_results_are_int32 unit tt label_row
           (img uint8 [1; 7]%nat [1; 1; 0; 1; 0; 0; 1])
           (img int64 [1; 7]%nat [5; 7; 0; 0; 0; 9; 9])
           (img int32 [1; 7]%nat [1; 1; 0; 2; 0; 0; 3])
           (img int32 [1; 7]%nat [7; 7; 0; 0; 0; 0; 9]) 3 0).
  - reflexivity.
  - left. reflexivity.
Defined.
